(** * ARC shopping list: the state store and the aggregation engine

    A shallow embedding of the core of the item tracker:
    - [StateManager] (state-manager.js, and the class of the same name in
      state-manager.ts): the path-addressed state tree, its persistence to
      [localStorage] and its listeners;
    - the aggregation functions, which exist twice in the repository: as
      methods of [ArcShoppingList] (app.js) and as methods of [DataLoader]
      (state-manager.ts).  The two copies differ in how they read the
      completion state, in the radix they give to [parseInt], in the
      exclusion set and in the quest gate of [groupItemsByRequirement]; both
      are embedded, in the modules [App] and [DataLoader];
    - the loading of the catalog and of the state in app.js
      ([loadProjectFiles], [loadState]), with [fetch] and [JSON.parse] as
      parameters;
    - the pager of the wiki tab (app-new.js) and the pure helpers of
      ui-renderer.js, in the modules [Pager] and [Renderer].

    Modelling conventions.
    - A value of the program ([value]) is a tree: [undefined], [null],
      booleans, integer-valued numbers, strings and plain objects.  A plain
      object is the finite map of its own properties, and its prototype is
      [Object.prototype]: a property read or an [in] test that finds no own
      property goes on to the members that the object inherits
      ([constructor], [toString], [__proto__], ...), and finds the built-in
      object that the host keeps there ([host]).  The same holds of the
      primitives, with [String.prototype], [Number.prototype] and
      [Boolean.prototype].  The built-in objects are those of ECMAScript 2024
      with its Annex B, as they are before any program has changed them.
      Arrays used as values of the state, and cyclic or shared objects, are
      outside the model.
    - The model does not follow the program into the built-in objects: an
      assignment whose target is a built-in object, an assignment that
      replaces the prototype of an object, and a read of a member of a
      built-in function end the computation with [Leaves d], where [d] says
      which of these the program did.  As long as the result is [Ok] or
      [Throw], the built-in objects are as the host made them.
    - A string is a sequence of code units below 256.
    - Numbers are exact integers ([Z]), which agrees with JavaScript numbers
      up to 2^53 in magnitude.
    - An exception is a result [Throw e]; [try]/[catch] is a match on it. *)

From stdpp Require Import gmap strings list fin_maps pretty.
From Stdlib Require Import ZArith Ascii String Lia.

#[local] Set Warnings "-register-all".
#[local] Open Scope Z_scope.

(** ** JavaScript primitives used by the program *)

Module JS.

Inductive exn : Type :=
  | TypeError
  | QuotaExceededError
  | CallbackError.

(** What a call of a function of the host gives: a value or an
    exception. *)
Inductive result (A : Type) : Type :=
  | Ok (a : A)
  | Throw (e : exn).
Arguments Ok {A} a.
Arguments Throw {A} e.

#[global] Instance result_ret : MRet result := fun _ a => Ok a.
#[global] Instance result_bind : MBind result := fun _ _ f r =>
  match r with
  | Ok a => f a
  | Throw e => Throw e
  end.

Inductive value : Type :=
  | VUndef
  | VNull
  | VBool (b : bool)
  | VNum (n : Z)
  | VStr (s : string)
  | VObj (m : gmap string value).

Inductive jstype : Type :=
  | TUndefined | TObject | TBoolean | TNumber | TString | TFunction.

#[global] Instance jstype_eq_dec : EqDecision jstype.
Proof. solve_decision. Defined.

(** [typeof v]; note [typeof null === 'object']. *)
Definition typeof (v : value) : jstype :=
  match v with
  | VUndef => TUndefined
  | VNull => TObject
  | VBool _ => TBoolean
  | VNum _ => TNumber
  | VStr _ => TString
  | VObj _ => TObject
  end.

(** ToBoolean. *)
Definition truthy (v : value) : bool :=
  match v with
  | VUndef | VNull => false
  | VBool b => b
  | VNum n => negb (n =? 0)
  | VStr s => negb (bool_decide (s = ""))
  | VObj _ => true
  end.

(** *** The built-in objects *)

Inductive prototype : Type :=
  | ObjectPrototype
  | StringPrototype
  | NumberPrototype
  | BooleanPrototype.

#[global] Instance prototype_eq_dec : EqDecision prototype.
Proof. solve_decision. Defined.

(** A built-in object that a property read can reach: a prototype, or the
    function that the prototype [p] holds under [name]
    ([Method ObjectPrototype "constructor"] is the function [Object]). *)
Inductive host : Type :=
  | Prototype (p : prototype)
  | Method (p : prototype) (name : string).

(** What a property read gives: a value of the program or a built-in
    object. *)
Inductive reached : Type :=
  | Data (v : value)
  | Host (h : host).

Definition typeof_reached (r : reached) : jstype :=
  match r with
  | Data v => typeof v
  | Host (Prototype _) => TObject
  | Host (Method _ _) => TFunction
  end.

Definition truthy_reached (r : reached) : bool :=
  match r with
  | Data v => truthy v
  | Host _ => true
  end.

(** How a computation leaves the model. *)
Inductive departure : Type :=
  | WritesHost      (* an assignment whose target is a built-in object *)
  | SetsPrototype   (* an assignment that replaces the prototype of an object *)
  | ReadsHost       (* a read of a member of a built-in function *)
  | CallsHost.      (* a call of a built-in function *)

(** What a computation of the program gives. *)
Inductive run (A : Type) : Type :=
  | Done (r : result A)
  | Leaves (d : departure).
Arguments Done {A} r.
Arguments Leaves {A} d.

Coercion Done : result >-> run.

Definition ret {A : Type} (a : A) : run A := Done (Ok a).
Definition throw {A : Type} (e : exn) : run A := Done (Throw e).

#[global] Instance run_ret : MRet run := fun _ a => ret a.
#[global] Instance run_bind : MBind run := fun _ _ f r =>
  match r with
  | Done (Ok a) => f a
  | Done (Throw e) => Done (Throw e)
  | Leaves d => Leaves d
  end.
#[global] Instance run_fmap : FMap run := fun _ _ f r =>
  match r with
  | Done (Ok a) => Done (Ok (f a))
  | Done (Throw e) => Done (Throw e)
  | Leaves d => Leaves d
  end.

(** The functions of [Object.prototype]; its one accessor is
    [__proto__]. *)
Definition object_methods : list string :=
  ["constructor"; "__defineGetter__"; "__defineSetter__"; "hasOwnProperty";
   "__lookupGetter__"; "__lookupSetter__"; "isPrototypeOf"; "propertyIsEnumerable";
   "toString"; "valueOf"; "toLocaleString"].

Definition string_methods : list string :=
  ["constructor"; "anchor"; "at"; "big"; "blink"; "bold"; "charAt"; "charCodeAt";
   "codePointAt"; "concat"; "endsWith"; "fontcolor"; "fontsize"; "fixed"; "includes";
   "indexOf"; "isWellFormed"; "italics"; "lastIndexOf"; "link"; "localeCompare";
   "match"; "matchAll"; "normalize"; "padEnd"; "padStart"; "repeat"; "replace";
   "replaceAll"; "search"; "slice"; "small"; "split"; "strike"; "sub"; "substr";
   "substring"; "sup"; "startsWith"; "toString"; "toWellFormed"; "trim"; "trimStart";
   "trimLeft"; "trimEnd"; "trimRight"; "toLocaleLowerCase"; "toLocaleUpperCase";
   "toLowerCase"; "toUpperCase"; "valueOf"].

Definition number_methods : list string :=
  ["constructor"; "toExponential"; "toFixed"; "toPrecision"; "toString"; "valueOf";
   "toLocaleString"].

Definition boolean_methods : list string :=
  ["constructor"; "toString"; "valueOf"].

Definition methods_of (p : prototype) : list string :=
  match p with
  | ObjectPrototype => object_methods
  | StringPrototype => string_methods
  | NumberPrototype => number_methods
  | BooleanPrototype => boolean_methods
  end.

(** What a value whose prototype is [p] finds under a key that is not one
    of its own properties: a function of [p], a function of
    [Object.prototype], its prototype (the getter of [__proto__]), or
    nothing. *)
Definition inherited (p : prototype) (key : string) : reached :=
  if bool_decide (key ∈ methods_of p) then Host (Method p key)
  else if bool_decide (key ∈ object_methods) then Host (Method ObjectPrototype key)
  else if bool_decide (key = "__proto__") then Host (Prototype p)
  else Data VUndef.

(** The names under which [inherited] finds something. *)
Definition members_of (p : prototype) : list string :=
  "__proto__" :: methods_of p ++ object_methods.

(** The members of the functions of the host that have a name: those of
    [Function.prototype], [length] and [name], and for a constructor
    [prototype] and its own functions and constants. *)
Definition function_prototype_members : list string :=
  ["apply"; "bind"; "call"; "toString"; "constructor"; "length"; "name"; "arguments";
   "caller"].

Definition statics (p : prototype) : list string :=
  match p with
  | ObjectPrototype =>
      ["assign"; "create"; "defineProperties"; "defineProperty"; "entries"; "freeze";
       "fromEntries"; "getOwnPropertyDescriptor"; "getOwnPropertyDescriptors";
       "getOwnPropertyNames"; "getOwnPropertySymbols"; "getPrototypeOf"; "groupBy";
       "hasOwn"; "is"; "isExtensible"; "isFrozen"; "isSealed"; "keys";
       "preventExtensions"; "seal"; "setPrototypeOf"; "values"]
  | StringPrototype => ["fromCharCode"; "fromCodePoint"; "raw"]
  | NumberPrototype =>
      ["EPSILON"; "MAX_SAFE_INTEGER"; "MAX_VALUE"; "MIN_SAFE_INTEGER"; "MIN_VALUE";
       "NaN"; "NEGATIVE_INFINITY"; "POSITIVE_INFINITY"; "isFinite"; "isInteger";
       "isNaN"; "isSafeInteger"; "parseFloat"; "parseInt"]
  | BooleanPrototype => []
  end.

Definition function_members (p : prototype) (name : string) : list string :=
  (if bool_decide (name = "constructor") then "prototype" :: statics p else [])
  ++ function_prototype_members ++ "__proto__" :: object_methods.

(** [h[key]] on a built-in object.  A member of a function is a value of
    the host that the model does not describe. *)
Definition host_get (h : host) (key : string) : run reached :=
  match h with
  | Prototype ObjectPrototype =>
      ret (if bool_decide (key ∈ object_methods) then Host (Method ObjectPrototype key)
           else if bool_decide (key = "__proto__") then Data VNull
           else Data VUndef)
  | Prototype p =>
      ret (if bool_decide (key ∈ methods_of p) then Host (Method p key)
           else if bool_decide (key ∈ object_methods) then Host (Method ObjectPrototype key)
           else if bool_decide (key = "__proto__") then Host (Prototype ObjectPrototype)
           else if bool_decide (p = StringPrototype) && bool_decide (key = "length")
                then Data (VNum 0)
           else Data VUndef)
  | Method p name =>
      if bool_decide (key ∈ function_members p name) then Leaves ReadsHost
      else ret (Data VUndef)
  end.

(** [key in h] on a built-in object. *)
Definition host_in (key : string) (h : host) : bool :=
  match h with
  | Prototype p =>
      bool_decide (key ∈ members_of p)
      || bool_decide (p = StringPrototype) && bool_decide (key = "length")
  | Method p name => bool_decide (key ∈ function_members p name)
  end.

(** *** Property access on the values of the program *)

(** [key in v]: a TypeError unless [v] is an object; an object has its own
    properties and those it inherits. *)
Definition js_in (key : string) (v : value) : run bool :=
  match v with
  | VObj m =>
      ret (bool_decide (is_Some (m !! key))
           || bool_decide (key ∈ members_of ObjectPrototype))
  | _ => throw TypeError
  end.

(** Own properties of a string: its length and its characters. *)
Definition string_prop (s : string) (key : string) : value :=
  if bool_decide (key = "length") then VNum (Z.of_nat (String.length s))
  else
    match List.find (fun i => bool_decide (pretty i = key)) (seq 0 (String.length s)) with
    | Some i => VStr (String.substring i 1 s)
    | None => VUndef
    end.

(** [v[key]]: a TypeError on [undefined] and [null]; else the own property,
    or what is inherited. *)
Definition get_prop (v : value) (key : string) : run reached :=
  match v with
  | VUndef | VNull => throw TypeError
  | VObj m =>
      ret (match m !! key with
           | Some x => Data x
           | None => inherited ObjectPrototype key
           end)
  | VStr s =>
      ret (match string_prop s key with
           | VUndef => inherited StringPrototype key
           | x => Data x
           end)
  | VNum _ => ret (inherited NumberPrototype key)
  | VBool _ => ret (inherited BooleanPrototype key)
  end.

(** [v[key] = x] in strict mode (class bodies are strict).  An object
    takes the property as its own; but under [__proto__], when that is not an
    own property, the assignment calls the setter of [Object.prototype]: it
    replaces the prototype when [x] is an object or [null] and does nothing
    otherwise.  A primitive takes no property (a TypeError), and under
    [__proto__] the same setter does nothing. *)
Definition obj_put (m : gmap string value) (key : string) (x : value)
  : run (gmap string value) :=
  if bool_decide (key = "__proto__") && negb (bool_decide (is_Some (m !! key))) then
    match x with
    | VObj _ | VNull => Leaves SetsPrototype
    | _ => ret m
    end
  else ret (<[key := x]> m).

Definition put_prop (v : value) (key : string) (x : value) : run value :=
  match v with
  | VObj m => VObj <$> obj_put m key x
  | VUndef | VNull => throw TypeError
  | _ => if bool_decide (key = "__proto__") then ret v else throw TypeError
  end.

(** The same three operations on what a read has reached. *)
Definition has (key : string) (r : reached) : run bool :=
  match r with
  | Data v => js_in key v
  | Host h => ret (host_in key h)
  end.

Definition read (r : reached) (key : string) : run reached :=
  match r with
  | Data v => get_prop v key
  | Host h => host_get h key
  end.

(** [h[key] = ...] on a built-in object, whatever is assigned. *)
Definition host_put {A : Type} (h : host) (key : string) : run A := Leaves WritesHost.

Definition write (r : reached) (key : string) (x : value) : run reached :=
  match r with
  | Data v => Data <$> put_prop v key x
  | Host h => host_put h key
  end.

(** An object of the program used as a table: what [table[key]] finds, the
    entry that the table has, the built-in object that it inherits under
    that name, or nothing. *)
Inductive slot (A : Type) : Type :=
  | Own (a : A)
  | Inherits (h : host)
  | Missing.
Arguments Own {A} a.
Arguments Inherits {A} h.
Arguments Missing {A}.

Definition lookup_slot {A : Type} (table : gmap string A) (key : string) : slot A :=
  match table !! key with
  | Some a => Own a
  | None =>
      match inherited ObjectPrototype key with
      | Host h => Inherits h
      | Data _ => Missing
      end
  end.

(** [r?.[key]] *)
Definition read_opt (r : reached) (key : string) : run reached :=
  match r with
  | Data VUndef | Data VNull => ret (Data VUndef)
  | _ => read r key
  end.

(** A call of what a read has reached, when that is not a function of the
    program. *)
Definition call {A : Type} (r : reached) : run A :=
  match r with
  | Host (Method _ _) => Leaves CallsHost
  | _ => throw TypeError
  end.

(** [for (... of r)] on what a read has reached, when that is not an array
    of the program: a TypeError but on a string, whose characters it would
    go through. *)
Definition iterate {A : Type} (r : reached) : run A :=
  match r with
  | Data (VStr _) => Leaves ReadsHost
  | _ => throw TypeError
  end.

(** The object after an update in place of the object it holds under
    [key]: the update shows in it when that object is an own property. *)
Definition obj_store (m : gmap string value) (key : string) (child : reached)
  : gmap string value :=
  match child with
  | Data c => if bool_decide (is_Some (m !! key)) then <[key := c]> m else m
  | Host _ => m
  end.

Definition store (v : value) (key : string) (child : reached) : value :=
  match v with
  | VObj m => VObj (obj_store m key child)
  | _ => v
  end.

Definition store_reached (r : reached) (key : string) (child : reached) : reached :=
  match r with
  | Data v => Data (store v key child)
  | Host _ => r
  end.

(** [s.split(sep)] for a one-character separator: never empty. *)
Fixpoint split (sep : ascii) (s : string) : list string :=
  match s with
  | EmptyString => [EmptyString]
  | String c s' =>
      if bool_decide (c = sep) then EmptyString :: split sep s'
      else
        match split sep s' with
        | [] => [String c EmptyString]
        | t :: ts => String c t :: ts
        end
  end.

(** White space among the code units below 256: TAB, LF, VT, FF, CR, SP and
    NBSP. *)
Definition is_space (c : ascii) : bool :=
  let n := nat_of_ascii c in
  ((9 <=? n) && (n <=? 13) || (n =? 32) || (n =? 160))%nat.

Fixpoint trimStart (s : string) : string :=
  match s with
  | EmptyString => EmptyString
  | String c s' => if is_space c then trimStart s' else s
  end.

(** [trimEnd] keeps a character when it is not a space or when something
    survives after it. *)
Fixpoint trimEnd (s : string) : string :=
  match s with
  | EmptyString => EmptyString
  | String c s' =>
      match trimEnd s' with
      | EmptyString => if is_space c then EmptyString else String c EmptyString
      | t => String c t
      end
  end.

Definition trim (s : string) : string := trimEnd (trimStart s).

Definition is_upper (c : ascii) : bool :=
  let n := nat_of_ascii c in
  ((65 <=? n) && (n <=? 90))%nat.

Definition is_lower (c : ascii) : bool :=
  let n := nat_of_ascii c in
  ((97 <=? n) && (n <=? 122))%nat.

Definition is_digit (c : ascii) : bool :=
  let n := nat_of_ascii c in
  ((48 <=? n) && (n <=? 57))%nat.

(** [toLowerCase] on one code unit: A-Z, and the upper-case letters of
    Latin-1 (192-222 but the multiplication sign 215). *)
Definition lower_char (c : ascii) : ascii :=
  let n := nat_of_ascii c in
  if is_upper c then ascii_of_nat (n + 32)
  else if ((192 <=? n) && (n <=? 222) && negb (n =? 215))%nat then ascii_of_nat (n + 32)
  else c.

Fixpoint map_string (f : ascii -> ascii) (s : string) : string :=
  match s with
  | EmptyString => EmptyString
  | String c s' => String (f c) (map_string f s')
  end.

Definition toLowerCase (s : string) : string := map_string lower_char s.

(** [s.replace(/[^a-z0-9]/g, '-')] *)
Definition replace_non_alnum (s : string) : string :=
  map_string (fun c => if is_lower c || is_digit c then c else "-"%char) s.

End JS.

(** ** The state store: class [StateManager] *)

Module StateManager.
Import JS.

(** The Web Storage object.  [setItem] throws when the store refuses the
    write (quota, security); [refuses] says so. *)
Record Storage : Type := {
  items : gmap string string;
  refuses : bool
}.

Definition getItem (key : string) (ls : Storage) : option string :=
  items ls !! key.

Definition setItem (key data : string) (ls : Storage) : result Storage :=
  if refuses ls then Throw QuotaExceededError
  else Ok {| items := <[key := data]> (items ls); refuses := refuses ls |}.

Definition removeItem (key : string) (ls : Storage) : Storage :=
  {| items := delete key (items ls); refuses := refuses ls |}.

(** A registered callback: its identity (the function object) and whether
    the call [callback(path, value)] returns or throws.  What a callback does
    besides (to the page, or to the store by calling it again) is not
    represented. *)
Record Listener : Type := {
  lid : nat;
  callback : string -> value -> result unit
}.

Inductive log_line : Type :=
  | Warn (msg : string) (e : exn)
  | Error (msg : string) (e : exn).

(** The instance ([state], [listeners]) together with what it acts on:
    [localStorage], the console, and the record of the callbacks called. *)
Record World : Type := {
  state : value;
  listeners : gmap string (list Listener);
  localStorage : Storage;
  console : list log_line;
  called : list (nat * string * value)
}.

Definition with_state (w : World) (s : value) : World :=
  {| state := s; listeners := listeners w; localStorage := localStorage w;
     console := console w; called := called w |}.

Definition with_storage (w : World) (ls : Storage) : World :=
  {| state := state w; listeners := listeners w; localStorage := ls;
     console := console w; called := called w |}.

Definition log (w : World) (l : log_line) : World :=
  {| state := state w; listeners := listeners w; localStorage := localStorage w;
     console := console w ++ [l]; called := called w |}.

Definition record_call (w : World) (c : nat * string * value) : World :=
  {| state := state w; listeners := listeners w; localStorage := localStorage w;
     console := console w; called := called w ++ [c] |}.

Definition state_key : string := "arc-shopping-list-state".
Definition theme_key : string := "arc-shopping-list-theme".

Section WithStringify.

(** [JSON.stringify], a built-in of the host. *)
Variable stringify : value -> string.

(** [initializeStateStructure]: the state is an object when it is called
    (on a primitive both property assignments throw). *)
Definition initializeStateStructure (w : World) : run World :=
  collapsed ← get_prop (state w) "collapsed";
  s1 ← (if negb (truthy_reached collapsed)
        then put_prop (state w) "collapsed" (VObj ∅)
        else ret (state w));
  theme ← get_prop s1 "theme";
  s2 ← (if negb (truthy_reached theme)
        then
          let stored := match getItem theme_key (localStorage w) with
                        | Some t => VStr t
                        | None => VNull
                        end in
          put_prop s1 "theme" (if truthy stored then stored else VStr "light")
        else ret s1);
  ret (with_state w s2).

(** [saveState]: the write is inside [try]; a failure is logged. *)
Definition saveState (w : World) : World :=
  match setItem state_key (stringify (state w)) (localStorage w) with
  | Ok ls => with_storage w ls
  | Throw e => log w (Warn "Could not save state:" e)
  end.

(** The loop of [get]. *)
Fixpoint get_loop (keys : list string) (current : reached) (defaultValue : value)
  : run reached :=
  match keys with
  | [] => ret current
  | key :: keys' =>
      if truthy_reached current then
        if bool_decide (typeof_reached current = TObject) then
          b ← has key current;
          if (b : bool) then
            next ← read current key;
            get_loop keys' next defaultValue
          else ret (Data defaultValue)
        else ret (Data defaultValue)
      else ret (Data defaultValue)
  end.

Definition get (path : string) (defaultValue : value) (w : World) : run reached :=
  get_loop (split "." path) (Data (state w)) defaultValue.

(** The loop of [set] and the final assignment; the result is the object
    [current] after the updates in place below it.  With no key at all the
    final key is [keys[-1]], that is [undefined].  When the walk throws, the
    nodes it had already created are not represented: the exception is the
    whole result. *)
Fixpoint set_loop (keys : list string) (current : reached) (value : JS.value)
  : run reached :=
  match keys with
  | [] => write current "undefined" value
  | [finalKey] => write current finalKey value
  | key :: keys' =>
      found ← has key current;
      keep ← (if (found : bool)
              then c ← read current key; ret (bool_decide (typeof_reached c = TObject))
              else ret false);
      current1 ← (if (keep : bool) then ret current else write current key (VObj ∅));
      child ← read current1 key;
      child' ← set_loop keys' child value;
      ret (store_reached current1 key child')
  end.

(** One callback of [notifyListeners], inside its [try]. *)
Definition call_listener (path : string) (value : JS.value) (w : World) (l : Listener) : World :=
  let w' := record_call w (lid l, path, value) in
  match callback l path value with
  | Ok _ => w'
  | Throw e => log w' (Error "Error in state listener:" e)
  end.

Definition notifyListeners (path : string) (value : JS.value) (w : World) : World :=
  match listeners w !! path with
  | Some ls => foldl (call_listener path value) w ls
  | None => w
  end.

(** [set].  The walk starts at [this.state]; what it gives back is that
    object after the updates. *)
Definition set (path : string) (value : JS.value) (w : World) : run World :=
  s ← set_loop (split "." path) (Data (state w)) value;
  let w1 := match s with
            | Data s' => with_state w s'
            | Host _ => w
            end in
  ret (notifyListeners path value (saveState w1)).

Definition toggle (path : string) (w : World) : run World :=
  currentValue ← get path (VBool false) w;
  set path (VBool (negb (truthy_reached currentValue))) w.

Definition isItemCompleted (projectName itemId : string) (w : World) : run reached :=
  get (projectName ++ "." ++ itemId) (VBool false) w.

Definition addListener (path : string) (l : Listener) (w : World) : World :=
  let old := default [] (listeners w !! path) in
  let new := if bool_decide (lid l ∈ map lid old) then old else old ++ [l] in
  {| state := state w; listeners := <[path := new]> (listeners w);
     localStorage := localStorage w; console := console w; called := called w |}.

(** [clearState] *)
Definition clearState (w : World) : run World :=
  w1 ← initializeStateStructure (with_state w (VObj ∅));
  ret (with_storage w1 (removeItem theme_key (removeItem state_key (localStorage w1)))).

(** [removeListener]: [Set.prototype.delete] on the set of the path. *)
Definition removeListener (path : string) (l : Listener) (w : World) : World :=
  match listeners w !! path with
  | Some ls =>
      {| state := state w;
         listeners := <[path := filter (fun l' => lid l' ≠ lid l) ls]> (listeners w);
         localStorage := localStorage w; console := console w; called := called w |}
  | None => w
  end.

Definition setItemCompleted (projectName itemId : string) (completed : value) (w : World)
  : run World :=
  set (projectName ++ "." ++ itemId) completed w.

Definition toggleItem (projectName itemId : string) (w : World) : run World :=
  toggle (projectName ++ "." ++ itemId) w.

Definition isGroupCollapsed (groupId : string) (w : World) : run reached :=
  get ("collapsed." ++ groupId) (VBool false) w.

Definition setGroupCollapsed (groupId : string) (collapsed : value) (w : World)
  : run World :=
  set ("collapsed." ++ groupId) collapsed w.

Definition toggleGroupCollapse (groupId : string) (w : World) : run World :=
  toggle ("collapsed." ++ groupId) w.

Definition getTheme (w : World) : run reached :=
  get "theme" (VStr "light") w.

(** [setTheme]: the second write, to the theme key, is outside any [try]. *)
Definition setTheme (theme : string) (w : World) : run World :=
  w1 ← set "theme" (VStr theme) w;
  ls ← Done (setItem theme_key theme (localStorage w1));
  ret (with_storage w1 ls).

(** [JSON.parse], a built-in of the host; it throws on a text that is not
    JSON. *)
Variable parse : string -> result value.

(** [loadState]: reading and parsing are inside [try]; the initialization
    of the structure is after it. *)
Definition loadState (w : World) : run World :=
  let w1 :=
    match getItem state_key (localStorage w) with
    | Some saved =>
        if truthy (VStr saved) then
          match parse saved with
          | Ok v => with_state w v
          | Throw e => with_state (log w (Warn "Could not load saved state:" e)) (VObj ∅)
          end
        else w
    | None => w
    end in
  initializeStateStructure w1.

End WithStringify.

End StateManager.

(** ** The catalog and the aggregation engine *)

Module Catalog.
Import JS.

(** ToString on the values of the model. *)
Definition ToString (v : value) : string :=
  match v with
  | VUndef => "undefined"
  | VNull => "null"
  | VBool true => "true"
  | VBool false => "false"
  | VNum n => pretty n
  | VStr s => s
  | VObj _ => "[object Object]"
  end.

Definition digit_val (c : ascii) : option Z :=
  let n := Z.of_nat (nat_of_ascii c) in
  if is_digit c then Some (n - 48)
  else if is_lower c then Some (n - 97 + 10)
  else if is_upper c then Some (n - 65 + 10)
  else None.

(** The longest prefix of [s] made of digits of radix [R]. *)
Fixpoint digits_prefix (R : Z) (s : string) : list Z :=
  match s with
  | EmptyString => []
  | String c s' =>
      match digit_val c with
      | Some d => if d <? R then d :: digits_prefix R s' else []
      | None => []
      end
  end.

Definition math_int (R : Z) (ds : list Z) : Z :=
  foldl (fun acc d => acc * R + d) 0 ds.

Definition starts_with_0x (s : string) : bool :=
  match s with
  | String c0 (String c1 _) =>
      Ascii.eqb c0 "0" && (Ascii.eqb c1 "x" || Ascii.eqb c1 "X")
  | _ => false
  end.

(** [parseInt(input, radix)]; [None] is NaN and [radix = None] is a call
    with one argument. *)
Definition parseInt (input : value) (radix : option Z) : option Z :=
  let S := trimStart (ToString input) in
  let sign := match S with
              | String c _ => if Ascii.eqb c "-" then -1 else 1
              | EmptyString => 1
              end in
  let S1 := match S with
            | String c r => if Ascii.eqb c "+" || Ascii.eqb c "-" then r else S
            | EmptyString => S
            end in
  let R0 := default 0 radix in
  if negb (R0 =? 0) && ((R0 <? 2) || (36 <? R0)) then None
  else
    let stripPrefix := (R0 =? 0) || (R0 =? 16) in
    let R1 := if R0 =? 0 then 10 else R0 in
    let S2 := if stripPrefix && starts_with_0x S1
              then String.substring 2 (String.length S1 - 2) S1 else S1 in
    let R := if stripPrefix && starts_with_0x S1 then 16 else R1 in
    match digits_prefix R S2 with
    | [] => None
    | ds => Some (sign * math_int R ds)
    end.

(** A loaded item.  [quantity] is the raw field ([VUndef] when missing);
    [projectName] is carried only by the items of a combined list. *)
Record Item : Type := {
  name : string;
  quantity : value;
  requirement : string;
  id : string;
  projectName : option string
}.

Record Instance : Type := {
  i_projectName : string;
  i_quantity : Z;
  i_requirement : string
}.

Record ItemTotal : Type := {
  totalNeeded : Z;
  instances : list Instance
}.

Record Contribution : Type := {
  c_projectName : string;
  c_quantity : Z;
  c_requirement : string;
  c_completed : bool
}.

(** An entry of [remainingItems]; [remainingQuantity] is absent until the
    second pass. *)
Record Summary : Type := {
  totalQuantity : Z;
  completedQuantity : Z;
  projects : list Contribution;
  remainingQuantity : option Z
}.

Definition generateItemId (name requirement : string) : string :=
  let baseId := replace_non_alnum (toLowerCase name) in
  if truthy (VStr requirement) then
    let reqId := replace_non_alnum (toLowerCase requirement) in
    baseId ++ "-" ++ reqId
  else baseId.

Definition generateGroupId (groupName : string) : string :=
  replace_non_alnum (toLowerCase groupName).

(** [item.requirement.split(',').map(req => req.trim())] *)
Definition requirements_of (item : Item) : list string :=
  map trim (split "," (requirement item)).

(** A loop whose body may throw. *)
Fixpoint foldM {A B : Type} (f : A -> B -> run A) (a : A) (l : list B) : run A :=
  match l with
  | [] => ret a
  | x :: l' => a' ← f a x; foldM f a' l'
  end.

(** The first half of [groupItemsByRequirement]: the body of the inner
    [forEach], when [groups[requirement]] is an array of [groups] or
    nothing. *)
Definition place (item : Item) (groups : gmap string (list Item)) (requirement : string)
  : gmap string (list Item) :=
  let groups1 := match groups !! requirement with
                 | None => <[requirement := []]> groups
                 | Some _ => groups
                 end in
  let itemForGroup := {| name := name item; quantity := quantity item;
                         requirement := requirement;
                         id := generateItemId (name item) requirement;
                         projectName := projectName item |} in
  alter (fun l => l ++ [itemForGroup]) requirement groups1.

(** The body of the inner [forEach].  Under a name that [groups] inherits,
    [groups[requirement]] is a built-in object: no array is made, and
    [push] is read from that object and called. *)
Definition push_copy (item : Item) (groups : gmap string (list Item)) (requirement : string)
  : run (gmap string (list Item)) :=
  match lookup_slot groups requirement with
  | Inherits h => push ← host_get h "push"; call push
  | Own _ | Missing => ret (place item groups requirement)
  end.

Definition split_item (groups : gmap string (list Item)) (item : Item)
  : run (gmap string (list Item)) :=
  foldM (push_copy item) groups (requirements_of item).

Definition group_copies (items : list Item) : run (gmap string (list Item)) :=
  foldM split_item ∅ items.

Section Engine.

(** What differs between the two copies of the engine: the radix argument
    of [parseInt], the exclusion set, the completion state and the
    expression that reads it. *)
Variable radix : option Z.
Variable nonKeepableQuestItems : gset string.
Variable St : Type.
Variable isItemCompleted : string -> string -> St -> run reached.

(** [parseInt(item.quantity, radix) || 1] *)
Definition parse_quantity (item : Item) : Z :=
  match parseInt (quantity item) radix with
  | Some n => if n =? 0 then 1 else n
  | None => 1
  end.

(** The second half of [groupItemsByRequirement]: the groups that have a
    keepable item. *)
Definition hasKeepableItems (groupItems : list Item) : bool :=
  existsb (fun item => negb (bool_decide (name item ∈ nonKeepableQuestItems))) groupItems.

Definition keepable_groups (groups : gmap string (list Item)) : gmap string (list Item) :=
  filter (fun kv => hasKeepableItems kv.2 = true) groups.

(** [buildItemTotals]: the body of the inner [forEach], when
    [this.itemTotals[item.id]] is an entry of the registry or nothing. *)
Definition register (projectName : string) (itemTotals : gmap string ItemTotal) (item : Item)
  : gmap string ItemTotal :=
  let t1 := match itemTotals !! id item with
            | None => <[id item := {| totalNeeded := 0; instances := [] |}]> itemTotals
            | Some _ => itemTotals
            end in
  let quantity := parse_quantity item in
  let t2 := alter (fun e => {| totalNeeded := totalNeeded e + quantity;
                                instances := instances e |}) (id item) t1 in
  alter (fun e => {| totalNeeded := totalNeeded e;
                     instances := instances e ++
                       [{| i_projectName := projectName; i_quantity := quantity;
                           i_requirement := requirement item |}] |}) (id item) t2.

(** The body of the inner [forEach].  Under an id that the registry
    inherits, [this.itemTotals[item.id]] is a built-in object: no entry is
    made, and [totalNeeded += quantity] reads that object and assigns to it
    (the [push] that follows is not reached in the model). *)
Definition add_instance (projectName : string) (itemTotals : gmap string ItemTotal) (item : Item)
  : run (gmap string ItemTotal) :=
  match lookup_slot itemTotals (id item) with
  | Inherits h => _ ← host_get h "totalNeeded"; host_put h "totalNeeded"
  | Own _ | Missing => ret (register projectName itemTotals item)
  end.

(** The instance: the catalog and the registry. *)
Record Engine : Type := {
  e_projects : list (string * list Item);
  itemTotals : gmap string ItemTotal
}.

Definition buildItemTotals (this : Engine) : run Engine :=
  let cleared := {| e_projects := e_projects this; itemTotals := ∅ |} in
  totals ← foldM (fun totals '(projectName, items) =>
                    foldM (add_instance projectName) totals items)
                 (itemTotals cleared) (e_projects cleared);
  ret {| e_projects := e_projects cleared; itemTotals := totals |}.

(** [getRemainingTotal].  Under an id that the registry inherits, the
    test of the first line finds a built-in object and does not return;
    [totalNeeded] and [instances] are read from that object, and the loop
    goes through what [instances] gave. *)
Definition getRemainingTotal (itemId : string) (st : St) (this : Engine) : run Z :=
  match lookup_slot (itemTotals this) itemId with
  | Missing => ret 0
  | Own e =>
      remaining ← foldM (fun remaining instance =>
                           c ← isItemCompleted (i_projectName instance) itemId st;
                           if truthy_reached c then ret (remaining - i_quantity instance)
                           else ret remaining)
                        (totalNeeded e) (instances e);
      ret (Z.max 0 remaining)
  | Inherits h =>
      _ ← host_get h "totalNeeded";
      instances ← host_get h "instances";
      iterate instances
  end.

(** The loop over the requirements in [getAllItemsRemaining], with its
    [break]. *)
Fixpoint requirements_completed (projectName itemName : string) (requirements : list string)
    (st : St) : run bool :=
  match requirements with
  | [] => ret true
  | requirement :: rest =>
      let specificId := generateItemId itemName requirement in
      c ← isItemCompleted projectName specificId st;
      if negb (truthy_reached c) then ret false
      else requirements_completed projectName itemName rest st
  end.

(** The body of the first pass of [getAllItemsRemaining], past the test
    of the quest items, when [remainingItems[itemName]] is an entry of
    [remainingItems] or nothing. *)
Definition collect (projectName : string) (st : St)
    (remainingItems : gmap string Summary) (item : Item) : run (gmap string Summary) :=
  let itemName := name item in
    let quantity := parse_quantity item in
    let r1 := match remainingItems !! itemName with
              | None => <[itemName := {| totalQuantity := 0; completedQuantity := 0;
                                         projects := []; remainingQuantity := None |}]>
                          remainingItems
              | Some _ => remainingItems
              end in
    let r2 := alter (fun s => {| totalQuantity := totalQuantity s + quantity;
                                  completedQuantity := completedQuantity s;
                                  projects := projects s;
                                  remainingQuantity := remainingQuantity s |}) itemName r1 in
    isCompleted ← requirements_completed projectName itemName (requirements_of item) st;
    let r3 := if (isCompleted : bool)
              then alter (fun s => {| totalQuantity := totalQuantity s;
                                       completedQuantity := completedQuantity s + quantity;
                                       projects := projects s;
                                       remainingQuantity := remainingQuantity s |}) itemName r2
              else r2 in
    ret (alter (fun s => {| totalQuantity := totalQuantity s;
                           completedQuantity := completedQuantity s;
                           projects := projects s ++
                             [{| c_projectName := projectName; c_quantity := quantity;
                                 c_requirement := requirement item;
                                 c_completed := isCompleted |}];
                           remainingQuantity := remainingQuantity s |}) itemName r3).

(** The body of the first pass.  Under a name that [remainingItems]
    inherits, [remainingItems[itemName]] is a built-in object: no entry is
    made, and [totalQuantity += quantity] reads that object and assigns to
    it. *)
Definition collect_item (projectName : string) (st : St)
    (remainingItems : gmap string Summary) (item : Item) : run (gmap string Summary) :=
  let itemName := name item in
  if bool_decide (projectName = "Quest items") && bool_decide (itemName ∈ nonKeepableQuestItems)
  then ret remainingItems
  else
    match lookup_slot remainingItems itemName with
    | Inherits h => _ ← host_get h "totalQuantity"; host_put h "totalQuantity"
    | Own _ | Missing => collect projectName st remainingItems item
    end.

(** The second pass. *)
Definition set_remaining (s : Summary) : Summary :=
  {| totalQuantity := totalQuantity s; completedQuantity := completedQuantity s;
     projects := projects s;
     remainingQuantity := Some (Z.max 0 (totalQuantity s - completedQuantity s)) |}.

Definition getAllItemsRemaining (st : St) (this : Engine) : run (gmap string Summary) :=
  remainingItems ← foldM (fun (acc : gmap string Summary) '(projectName, items) =>
                            foldM (collect_item projectName st) acc items)
                         (∅ : gmap string Summary) (e_projects this);
  ret (set_remaining <$> (remainingItems : gmap string Summary)).

(** The reducer of the combined view in [getCompletedCount]. *)
Definition count_all (projectName : string) (st : St) (count : Z) (item : Item) : run Z :=
  let actualProjectName :=
    match Catalog.projectName item with
    | Some p => if truthy (VStr p) then p else projectName
    | None => projectName
    end in
  c ← isItemCompleted actualProjectName (id item) st;
  ret (count + (if truthy_reached c then 1 else 0)).

End Engine.

End Catalog.

(** ** The engine of app.js: class [ArcShoppingList] *)

Module App.
Import JS Catalog.

Definition nonKeepableQuestItems : gset string :=
  list_to_set [
    "Burletta I";
    "Armored Patrol Key Card";
    "Battle Plans";
    "Battery Cell";
    "Celeste's Journal 1";
    "Celeste's Journal 2";
    "Communication Device";
    "Deflated Football";
    "Duct Tape";
    "ESR Analyzer";
    "Flag";
    "Helmet";
    "LiDAR Scanner";
    "Major Aiva's Mementos";
    "Possibly Toxic Plant";
    "Romance Book";
    "Detective Book";
    "Adventure Book";
    "First Wave Tape";
    "First Wave Compass";
    "First Wave Rations"
  ].

(** [this.state[projectName]?.[itemId]], [this.state] being an object. *)
Definition completion (projectName itemId : string) (state : gmap string value)
  : run reached :=
  target ← get_prop (VObj state) projectName;
  read_opt target itemId.

Definition parse_quantity : Item -> Z := Catalog.parse_quantity None.

Definition buildItemTotals : Engine -> run Engine := Catalog.buildItemTotals None.

Definition getRemainingTotal (itemId : string) (state : gmap string value) (this : Engine)
  : run Z :=
  Catalog.getRemainingTotal _ completion itemId state this.

(** One argument: the groups are filtered whatever the project. *)
Definition groupItemsByRequirement (items : list Item) : run (gmap string (list Item)) :=
  groups ← group_copies items;
  ret (keepable_groups nonKeepableQuestItems groups).

Definition getAllItemsRemaining (state : gmap string value) (this : Engine)
  : run (gmap string Summary) :=
  Catalog.getAllItemsRemaining None nonKeepableQuestItems _ completion state this.

Definition getCompletedCount (projectName : string) (items : list Item)
    (state : gmap string value) : run Z :=
  if bool_decide (projectName = "all") then
    foldM (count_all _ completion projectName state) 0 items
  else
    target ← get_prop (VObj state) projectName;
    if negb (truthy_reached target) then ret 0
    else
      foldM (fun count item =>
               c ← read target (id item);
               ret (count + (if truthy_reached c then 1 else 0)))
            0 items.

(** The rest of the instance: the state object, the storage and the
    console ([this.projects] and [this.itemTotals] are the engine). *)
Record Instance : Type := {
  engine : Engine;
  state : gmap string value;
  localStorage : StateManager.Storage;
  console : list StateManager.log_line
}.

(** The two statements of [toggleItem] that update [this.state]; in the
    second, [this.state[projectName]] is read, then its property, and the
    negation is assigned to that property. *)
Definition toggle_flag (projectName itemId : string) (state : gmap string value)
  : run (gmap string value) :=
  target0 ← get_prop (VObj state) projectName;
  state1 ← (if negb (truthy_reached target0) then obj_put state projectName (VObj ∅)
            else ret state);
  target ← get_prop (VObj state1) projectName;
  current ← read target itemId;
  target' ← write target itemId (VBool (negb (truthy_reached current)));
  ret (obj_store state1 projectName target').

Section WithStringify.

Variable stringify : value -> string.

Definition saveState (this : Instance) : Instance :=
  match StateManager.setItem StateManager.state_key (stringify (VObj (state this)))
          (localStorage this) with
  | Ok ls => {| engine := engine this; state := state this; localStorage := ls;
                console := console this |}
  | Throw e => {| engine := engine this; state := state this;
                  localStorage := localStorage this;
                  console := console this
                             ++ [StateManager.Warn "Could not save state:" e] |}
  end.

(** [toggleItem], up to the rendering that follows the rebuild. *)
Definition toggleItem (projectName itemId : string) (this : Instance) : run Instance :=
  state' ← toggle_flag projectName itemId (state this);
  let saved := saveState {| engine := engine this; state := state';
                            localStorage := localStorage this;
                            console := console this |} in
  rebuilt ← buildItemTotals (engine saved);
  ret {| engine := rebuilt; state := state saved;
         localStorage := localStorage saved; console := console saved |}.

(** [toggleGroupCollapse], up to the update of the page: its two
    statements on [this.state] are those of [toggleItem], on the entry
    [collapsed]. *)
Definition toggleGroupCollapse (groupId : string) (this : Instance) : run Instance :=
  state' ← toggle_flag "collapsed" groupId (state this);
  ret (saveState {| engine := engine this; state := state';
                    localStorage := localStorage this;
                    console := console this |}).

End WithStringify.

Section WithParse.

(** [JSON.parse], a built-in of the host; it throws on a text that is not
    JSON. *)
Variable parse : string -> result value.

(** The [try] block of [loadState]: the state and the console after it.
    (The state may be any value here: [JSON.parse] gives what the blob
    holds.) *)
Definition read_state (this : Instance) : value * list StateManager.log_line :=
  match StateManager.getItem StateManager.state_key (localStorage this) with
  | Some saved =>
      if truthy (VStr saved) then
        match parse saved with
        | Ok v => (v, console this)
        | Throw e =>
            (VObj ∅,
             console this ++ [StateManager.Warn "Could not load saved state:" e])
        end
      else (VObj (state this), console this)
  | None => (VObj (state this), console this)
  end.

(** The body of the inner loop of [loadState]; the object
    [this.state[projectName]] is changed in place. *)
Definition init_flag (projectName : string) (state : value) (item : Item) : run value :=
  target ← get_prop state projectName;
  current ← read target (id item);
  match current with
  | Data VUndef =>
      target' ← write target (id item) (VBool false);
      ret (store state projectName target')
  | _ => ret state
  end.

(** The body of the outer loop. *)
Definition init_project (state : value) (entry : string * list Item) : run value :=
  target ← get_prop state entry.1;
  state1 ← (if negb (truthy_reached target) then put_prop state entry.1 (VObj ∅)
            else ret state);
  foldM (init_flag entry.1) state1 entry.2.

(** [loadState].  A state that has passed the assignment to
    [this.state.collapsed], or has a truthy [collapsed], is an object (no
    primitive has a member of that name): the last case of the match does
    not arise. *)
Definition loadState (this : Instance) : run Instance :=
  let loaded := read_state this in
  state1 ← foldM init_project loaded.1 (e_projects (engine this));
  collapsed ← get_prop state1 "collapsed";
  state2 ← (if negb (truthy_reached collapsed) then put_prop state1 "collapsed" (VObj ∅)
            else ret state1);
  match state2 with
  | VObj m =>
      rebuilt ← buildItemTotals (engine this);
      ret {| engine := rebuilt; state := m;
             localStorage := localStorage this; console := loaded.2 |}
  | _ => throw TypeError
  end.

End WithParse.

(** [updateAllItemsProgress], up to its two counters (the percentage is a
    floating-point quotient and is not represented). *)
Definition progress_counts (this : Instance) : run (Z * Z) :=
  foldM (fun '(totalCompleted, totalItems) '(projectName, items) =>
           n ← getCompletedCount projectName items (state this);
           ret (totalCompleted + n, totalItems + Z.of_nat (List.length items)))
        (0, 0) (e_projects (engine this)).

Definition getProjectNameFromTab (tabName : string) : option string :=
  ({[ "expedition" := "Expedition Project";
      "quests" := "Quest items";
      "scrappy" := "Scrappy items";
      "workshop" := "Workshop items" ]} : gmap string string) !! tabName.

Definition getTabNameFromProject (projectName : string) : option string :=
  ({[ "Expedition Project" := "expedition";
      "Quest items" := "quests";
      "Scrappy items" := "scrappy";
      "Workshop items" := "workshop" ]} : gmap string string) !! projectName.

(** The sources of [loadProjectFiles], in order. *)
Definition files : list (string * string) :=
  [("Expedition Project", "expedition_project.json");
   ("Quest items", "quest_items.json");
   ("Scrappy items", "scrappy_items.json");
   ("Workshop items", "workshop_items.json")].

(** [obj[key] = x] on the entries of an object: a new key goes last. *)
Fixpoint entries_set {A : Type} (key : string) (x : A) (entries : list (string * A))
  : list (string * A) :=
  match entries with
  | [] => [(key, x)]
  | (k, y) :: rest =>
      if bool_decide (k = key) then (k, x) :: rest
      else (k, y) :: entries_set key x rest
  end.

Section WithFetch.

(** What [await fetch(file)], the test of [response.ok] and
    [await response.json()] give: the items, or a failure of any of the
    three. *)
Variable fetch : string -> result (list Item).

(** One round of the loop of [loadProjectFiles], inside its [try]. *)
Definition load_file (acc : list (string * list Item) * list StateManager.log_line)
    (fileInfo : string * string) : list (string * list Item) * list StateManager.log_line :=
  match fetch fileInfo.2 with
  | Ok items => (entries_set fileInfo.1 items acc.1, acc.2)
  | Throw e => (acc.1, acc.2 ++ [StateManager.Warn ("Could not load " ++ fileInfo.2 ++ ":") e])
  end.

(** [loadProjectFiles] on a fresh instance: the projects and the console,
    or the error thrown when nothing was loaded. *)
Definition loadProjectFiles
  : string + (list (string * list Item) * list StateManager.log_line) :=
  let loaded := foldl load_file ([], []) files in
  if bool_decide (List.length loaded.1 = 0%nat)
  then inl "No item files could be loaded"
  else inr loaded.

End WithFetch.

End App.

(** ** The engine of state-manager.ts: class [DataLoader] *)

Module DataLoader.
Import JS Catalog.

Definition nonKeepableQuestItems : gset string :=
  list_to_set [
    "Burletta I";
    "Armored Patrol Key Card";
    "Battle Plans";
    "Battery Cell";
    "Celeste's Journal 1";
    "Celeste's Journal 2";
    "Communication Device";
    "Deflated Football";
    "Duct Tape";
    "ESR Analyzer";
    "Flag";
    "Helmet";
    "Major Aiva's Mementos";
    "Possibly Toxic Plant";
    "Romance Book";
    "Detective Book";
    "Adventure Book";
    "First Wave Tape";
    "First Wave Compass";
    "First Wave Rations"
  ].

(** [stateManager.isItemCompleted(projectName, itemId)] *)
Definition completion (projectName itemId : string) (stateManager : StateManager.World)
  : run reached :=
  StateManager.isItemCompleted projectName itemId stateManager.

Definition parse_quantity : Item -> Z := Catalog.parse_quantity (Some 10).

Definition buildItemTotals : Engine -> run Engine := Catalog.buildItemTotals (Some 10).

Definition getRemainingTotal (itemId : string) (stateManager : StateManager.World)
    (this : Engine) : run Z :=
  Catalog.getRemainingTotal _ completion itemId stateManager this.

Definition groupItemsByRequirement (items : list Item) (projectName : string)
  : run (gmap string (list Item)) :=
  groups ← group_copies items;
  if bool_decide (projectName = "Quest items") then
    ret (keepable_groups nonKeepableQuestItems groups)
  else ret groups.

Definition getAllItemsRemaining (stateManager : StateManager.World) (this : Engine)
  : run (gmap string Summary) :=
  Catalog.getAllItemsRemaining (Some 10) nonKeepableQuestItems _ completion stateManager this.

Definition getCompletedCount (projectName : string) (items : list Item)
    (stateManager : StateManager.World) : run Z :=
  if bool_decide (projectName = "all") then
    foldM (count_all _ completion projectName stateManager) 0 items
  else
    foldM (fun count item =>
             c ← completion projectName (id item) stateManager;
             ret (count + (if truthy_reached c then 1 else 0)))
          0 items.

(** An entry of [wikiItems], as [loadWikiData] builds it, with the two
    fields the lookups read. *)
Record WikiItem : Type := {
  w_name : string;
  w_rarity : string
}.

(** [this.wikiItems.find(item => ...) || null] *)
Definition getWikiItem (itemName : string) (wikiItems : list WikiItem) : option WikiItem :=
  List.find (fun item => bool_decide (toLowerCase (w_name item) = toLowerCase itemName))
            wikiItems.

Definition getItemRarity (itemName : string) (wikiItems : list WikiItem) : string :=
  match getWikiItem itemName wikiItems with
  | Some wikiItem => w_rarity wikiItem
  | None => ""
  end.

End DataLoader.

(** ** The wiki pager of app-new.js *)

Module Pager.
Import JS Catalog.

(** A JavaScript number that may not be finite: the quotient of two
    integers, rounded up. *)
Inductive number : Type :=
  | Finite (n : Z)
  | Infinity
  | NaN.

(** [Math.ceil(length / itemsPerPage)] for a length [n >= 0].  (The
    quotient of the two integers is taken exactly; list lengths and page
    sizes are far below the precision of a double.) *)
Definition total_pages (n itemsPerPage : Z) : number :=
  if itemsPerPage =? 0 then (if n =? 0 then NaN else Infinity)
  else Finite (- ((- n) / itemsPerPage)).

(** [a <= b] on numbers, false as soon as one of them is NaN. *)
Definition leq_number (a : Z) (b : number) : bool :=
  match b with
  | Finite n => a <=? n
  | Infinity => true
  | NaN => false
  end.

Record Pager : Type := {
  currentPage : Z;
  itemsPerPage : Z
}.

(** [validateItemsPerPage]: [None] is [null]. *)
Definition validateItemsPerPage (value : JS.value) : option Z :=
  match parseInt value (Some 10) with
  | None => None
  | Some num => if (num <? 1) || (100 <? num) then None else Some num
  end.

(** [changeItemsPerPage], up to the rendering. *)
Definition changeItemsPerPage (newSize : JS.value) (this : Pager) : Pager :=
  match validateItemsPerPage newSize with
  | Some validatedSize => {| currentPage := 1; itemsPerPage := validatedSize |}
  | None => this
  end.

(** [changePage], [n] being the number of items that pass the search box. *)
Definition changePage (newPage : Z) (n : nat) (this : Pager) : Pager :=
  let totalPages := total_pages (Z.of_nat n) (itemsPerPage this) in
  if (1 <=? newPage) && leq_number newPage totalPages
  then {| currentPage := newPage; itemsPerPage := itemsPerPage this |}
  else this.

(** [l.slice(start, end)]: a negative index counts from the end. *)
Definition slice {A : Type} (l : list A) (first last : Z) : list A :=
  let len := Z.of_nat (List.length l) in
  let k := if first <? 0 then Z.max (len + first) 0 else Z.min first len in
  let final := if last <? 0 then Z.max (len + last) 0 else Z.min last len in
  take (Z.to_nat (final - k)) (drop (Z.to_nat k) l).

(** The items [renderWikiTab] shows: [filteredItems.slice(startIndex,
    endIndex)]. *)
Definition current_items {A : Type} (filteredItems : list A) (this : Pager) : list A :=
  let startIndex := (currentPage this - 1) * itemsPerPage this in
  let endIndex := startIndex + itemsPerPage this in
  slice filteredItems startIndex endIndex.

End Pager.

(** ** The pure helpers of ui-renderer.js *)

Module Renderer.
Import JS Catalog.

(** [validateSearchTerm] *)
Definition validateSearchTerm (value : JS.value) : string :=
  match value with
  | VStr s =>
      let trimmed := trim s in
      if (100 <? String.length trimmed)%nat then String.substring 0 100 trimmed
      else trimmed
  | _ => ""
  end.

(** [s.replace(/[^a-z0-9\s]/g, '')] *)
Fixpoint remove_special (s : string) : string :=
  match s with
  | EmptyString => EmptyString
  | String c s' =>
      if is_lower c || is_digit c || is_space c then String c (remove_special s')
      else remove_special s'
  end.

(** [s.replace(/\s+/g, '-')]: every maximal run of white space becomes one
    hyphen. *)
Fixpoint hyphenate (s : string) : string :=
  match s with
  | EmptyString => EmptyString
  | String c s' =>
      if is_space c then
        match s' with
        | String c' _ => if is_space c' then hyphenate s' else String "-" (hyphenate s')
        | EmptyString => String "-" EmptyString
        end
      else String c (hyphenate s')
  end.

Definition slug (itemName : string) : string :=
  hyphenate (trim (remove_special (toLowerCase itemName))).

Definition getMetaforgeIconUrl (itemName : string) : string :=
  "https://cdn.metaforge.app/arc-raiders/icons/" ++ slug itemName ++ "48.webp".

(** [updateAllItemsProgress], up to its two counters (the percentage is a
    floating-point quotient and is not represented). *)
Definition progress_counts (projects : list (string * list Item))
    (stateManager : StateManager.World) : run (Z * Z) :=
  foldM (fun '(totalCompleted, totalItems) '(projectName, items) =>
           n ← DataLoader.getCompletedCount projectName items stateManager;
           ret (totalCompleted + n, totalItems + Z.of_nat (List.length items)))
        (0, 0) projects.

End Renderer.

(** ** Reference definitions, in the words of the specification *)

Module Spec.
Import JS Catalog.

(** [key] is not the name of a member of [Object.prototype]: an object has
    something under [key] only as a property of its own. *)
Definition own_only (key : string) : bool :=
  negb (bool_decide (key ∈ members_of ObjectPrototype)).

(** [key] is not the name of a member of any prototype: no value has
    something under [key] that is not a property of its own. *)
Definition plain (key : string) : bool :=
  forallb (fun p => negb (bool_decide (key ∈ members_of p)))
          [ObjectPrototype; StringPrototype; NumberPrototype; BooleanPrototype].

(** No key of a dot-separated path is the name of a member of
    [Object.prototype]. *)
Definition own_path (path : string) : bool :=
  forallb own_only (split "." path).

(** The lookup of the flag of [(projectName, itemId)] meets own properties
    only: in app.js, where the state object is read under [projectName] and
    what is found there (an object or a primitive) under [itemId]; in the
    state store, where the keys are those of the path
    [projectName.itemId]. *)
Definition app_lookup (projectName itemId : string) : bool :=
  own_only projectName && plain itemId.

Definition store_lookup (projectName itemId : string) : bool :=
  own_path (projectName ++ "." ++ itemId).

(** The trimmed comma-separated tokens of a requirement field. *)
Definition tokens (requirement : string) : list string :=
  map trim (split "," requirement).

(** The value stored at a key sequence: absent as soon as a key is missing
    or the value reached is not an object. *)
Fixpoint stored_at (keys : list string) (v : value) : option value :=
  match keys with
  | [] => Some v
  | key :: keys' =>
      match v with
      | VObj m => m !! key ≫= stored_at keys'
      | _ => None
      end
  end.

(** No [null] sits at a position that [set] walks through. *)
Fixpoint no_null_inside (keys : list string) (v : value) : Prop :=
  match keys with
  | [] | [_] => True
  | key :: keys' =>
      match v with
      | VObj m =>
          match m !! key with
          | Some VNull => False
          | Some (VObj m') => no_null_inside keys' (VObj m')
          | _ => True
          end
      | _ => True
      end
  end.

Definition sumZ (l : list Z) : Z := foldr Z.add 0 l.

(** Every entry of a registry has [totalNeeded] equal to the sum of the
    quantities of its instances. *)
Definition registry_sums (totals : gmap string ItemTotal) : Prop :=
  forall id e, totals !! id = Some e ->
    totalNeeded e = sumZ (map i_quantity (instances e)).

(** The raw value, as a string and past its leading white space, starts
    with a minus sign. *)
Definition leading_minus (v : value) : bool :=
  match trimStart (ToString v) with
  | String c _ => Ascii.eqb c "-"
  | EmptyString => false
  end.

(** The completion flag that the state holds for [(projectName, itemId)],
    as an own property of the entry of the project, absent entries being
    [false]: in the state object of app.js, and in the state store. *)
Definition app_flag (state : gmap string value) (projectName itemId : string) : bool :=
  match state !! projectName with
  | Some (VObj m) => truthy (default VUndef (m !! itemId))
  | Some (VStr s) => truthy (string_prop s itemId)
  | _ => false
  end.

Definition store_flag (w : StateManager.World) (projectName itemId : string) : bool :=
  match stored_at (split "." (projectName ++ "." ++ itemId)) (StateManager.state w) with
  | Some v => truthy v
  | None => false
  end.

(** The project under which the combined view looks an item up: the one
    the item carries when it is not empty, else the name passed in. *)
Definition lookup_project (fallback : string) (item : Item) : string :=
  match projectName item with
  | Some p => if bool_decide (p = "") then fallback else p
  | None => fallback
  end.

Definition count_if {A : Type} (f : A -> bool) (l : list A) : Z :=
  Z.of_nat (List.length (List.filter f l)).

(** The quantity of the instances of an entry that are completed. *)
Definition completed_quantity (flag : string -> string -> bool) (itemId : string)
    (e : ItemTotal) : Z :=
  sumZ (map i_quantity
            (List.filter (fun i => flag (i_projectName i) itemId) (instances e))).

(** The character [c] occurs in [s]. *)
Fixpoint has_char (c : ascii) (s : string) : bool :=
  match s with
  | EmptyString => false
  | String c' s' => bool_decide (c' = c) || has_char c s'
  end.

(** A bucket of a map of lists: no entry when nothing was pushed. *)
Definition bucket_entry {A : Type} (l : list A) : option (list A) :=
  match l with
  | [] => None
  | _ :: _ => Some l
  end.

(** One copy of an item per requirement token. *)
Definition copy_of (item : Item) (token : string) : Item :=
  {| name := name item; quantity := quantity item; requirement := token;
     id := generateItemId (name item) token; projectName := projectName item |}.

Definition token_pairs (items : list Item) : list (Item * string) :=
  item ← items; map (pair item) (tokens (requirement item)).

(** The copies that carry the token [t], in the order of the list. *)
Definition bucket (items : list Item) (t : string) : list Item :=
  map (fun ir => copy_of ir.1 ir.2) (filter (fun ir => ir.2 = t) (token_pairs items)).

Definition all_non_keepable (nonKeepable : gset string) (l : list Item) : bool :=
  forallb (fun item => bool_decide (name item ∈ nonKeepable)) l.

Section Views.

Variable radix : option Z.
Variable nonKeepable : gset string.
Variable flag : string -> string -> bool.

Definition item_pairs (projects : list (string * list Item)) : list (string * Item) :=
  pi ← projects; map (pair pi.1) pi.2.

(** The instance is part of the combined view. *)
Definition counted (projectName : string) (item : Item) : bool :=
  negb (bool_decide (projectName = "Quest items")
        && bool_decide (name item ∈ nonKeepable)).

(** An instance is completed when every one of its split identities is. *)
Definition instance_completed (projectName : string) (item : Item) : bool :=
  forallb (fun token => flag projectName (generateItemId (name item) token))
          (tokens (requirement item)).

Definition contribution (projectName : string) (item : Item) : Contribution :=
  {| c_projectName := projectName;
     c_quantity := parse_quantity radix item;
     c_requirement := requirement item;
     c_completed := instance_completed projectName item |}.

Definition contributions (projects : list (string * list Item)) (itemName : string)
  : list Contribution :=
  map (fun pi => contribution pi.1 pi.2)
      (filter (fun pi => name pi.2 = itemName /\ counted pi.1 pi.2 = true)
              (item_pairs projects)).

Definition total_of (cs : list Contribution) : Z := sumZ (map c_quantity cs).

Definition completed_of (cs : list Contribution) : Z :=
  sumZ (map c_quantity (filter (fun c => c_completed c = true) cs)).

(** The entry after the first pass. *)
Definition pending_summary (cs : list Contribution) : Summary :=
  {| totalQuantity := total_of cs;
     completedQuantity := completed_of cs;
     projects := cs;
     remainingQuantity := None |}.

Definition summary_of (cs : list Contribution) : Summary :=
  {| totalQuantity := total_of cs;
     completedQuantity := completed_of cs;
     projects := cs;
     remainingQuantity := Some (Z.max 0 (total_of cs - completed_of cs)) |}.

End Views.

End Spec.

(** ** Notions used to state the further properties *)

Module Notions.
Import JS Catalog Spec.

(** Two key sequences part ways: after a common prefix their next keys
    differ (neither is a prefix of the other). *)
Fixpoint diverge (keys1 keys2 : list string) : bool :=
  match keys1, keys2 with
  | k1 :: rest1, k2 :: rest2 =>
      if bool_decide (k1 = k2) then diverge rest1 rest2 else true
  | _, _ => false
  end.

(** A name without a dot that is not the name of a member of
    [Object.prototype]: in a path it is one key, and an object has something
    under it only as a property of its own. *)
Definition simple_name (s : string) : bool :=
  negb (has_char "." s) && own_only s.

(** The object that [set] descends into below [key]: the one that is
    there ([null] counts as one), or a new one. *)
Definition below (m : gmap string value) (key : string) : value :=
  match m !! key with
  | Some VNull => VNull
  | Some (VObj m') => VObj m'
  | _ => VObj ∅
  end.

(** The listeners of every path are distinct function objects, as the
    members of a [Set] are. *)
Definition distinct_listeners (w : StateManager.World) : Prop :=
  forall path ls, StateManager.listeners w !! path = Some ls ->
    NoDup (map StateManager.lid ls).

(** The state is an object with a truthy [collapsed] and a truthy
    [theme]. *)
Definition has_structure (v : value) : bool :=
  match v with
  | VObj m =>
      truthy (default VUndef (m !! "collapsed")) && truthy (default VUndef (m !! "theme"))
  | _ => false
  end.



(** The contribution that a step of the first pass of the combined view
    records, [completed] being what the loop over the requirements gave. *)
Definition recorded (radix : option Z) (projectName : string) (item : Item)
    (completed : bool) : Contribution :=
  {| c_projectName := projectName;
     c_quantity := parse_quantity radix item;
     c_requirement := requirement item;
     c_completed := completed |}.



(** No requirement token of the list is the name of a member of
    [Object.prototype]. *)
Definition own_tokens (items : list Item) : Prop :=
  Forall (fun ir => own_only ir.2 = true) (token_pairs items).


(** The project names under which [getCompletedCount(projectName, items)]
    looks the flags up. *)
Definition counted_under (projectName : string) (items : list Item) : list string :=
  if bool_decide (projectName = "all") then map (lookup_project "all") items
  else [projectName].

(** No raw quantity of the catalog, as a string and past its leading
    white space, starts with a minus sign. *)
Definition no_minus (projects : list (string * list Item)) : Prop :=
  Forall (fun pi => leading_minus (quantity pi.2) = false) (item_pairs projects).


Fixpoint all_chars (P : ascii -> bool) (s : string) : bool :=
  match s with
  | EmptyString => true
  | String c s' => P c && all_chars P s'
  end.

(** Two hyphens in a row. *)
Fixpoint double_hyphen (s : string) : bool :=
  match s with
  | String c1 ((String c2 _) as s') =>
      (Ascii.eqb c1 "-" && Ascii.eqb c2 "-") || double_hyphen s'
  | _ => false
  end.

Definition first_char (s : string) : option ascii :=
  match s with
  | String c _ => Some c
  | EmptyString => None
  end.

Fixpoint last_char (s : string) : option ascii :=
  match s with
  | EmptyString => None
  | String c EmptyString => Some c
  | String _ s' => last_char s'
  end.




(** The pages [1 .. count] of a list, as [renderWikiTab] cuts them. *)
Definition pages {A : Type} (l : list A) (itemsPerPage : Z) (count : nat) : list (list A) :=
  map (fun i => Pager.current_items l
                  {| Pager.currentPage := Z.of_nat i; Pager.itemsPerPage := itemsPerPage |})
      (seq 1 count).

(** The sources that could be fetched, in order. *)
Definition fetched (fetch : string -> result (list Item)) : list (string * list Item) :=
  omap (fun fileInfo : string * string =>
          match fetch fileInfo.2 with
          | Ok items => Some (fileInfo.1, items)
          | Throw _ => None
          end) App.files.

End Notions.

(** * Properties *)

Import JS Catalog Spec.

(** ** Strings *)

Lemma split_not_nil (sep : ascii) (s : string) : split sep s ≠ [].
Proof.
  induction s as [|c s IH]; simpl; [done|].
  case_bool_decide; [done|].
  destruct (split sep s); done.
Qed.

Example split_path : split "." "a.b.c" = ["a"; "b"; "c"] /\ split "." "" = [""].
Proof. split; reflexivity. Qed.

Example split_requirements :
  map trim (split "," "Station X, Station Y") = ["Station X"; "Station Y"]
  /\ map trim (split "," "") = [""].
Proof. split; reflexivity. Qed.

Example generateItemId_examples :
  generateItemId "Battery Cell" "Station X" = "battery-cell-station-x"
  /\ generateItemId "Celeste's Journal 1" "" = "celeste-s-journal-1".
Proof. split; reflexivity. Qed.

Example parseInt_examples :
  parseInt (VStr "3") None = Some 3
  /\ parseInt (VNum 12) (Some 10) = Some 12
  /\ parseInt (VStr "  42 units") None = Some 42
  /\ parseInt (VStr "many") None = None
  /\ parseInt VUndef (Some 10) = None
  /\ parseInt (VStr "0x10") None = Some 16
  /\ parseInt (VStr "0x10") (Some 10) = Some 0
  /\ parseInt (VStr "-3") (Some 10) = Some (-3).
Proof. repeat split; reflexivity. Qed.

(** ** Inherited members *)

(** What the built-in objects give on the examples that separate an object
    from the map of its own properties. *)
Example inherited_members :
  get_prop (VObj ∅) "constructor" = Ok (Host (Method ObjectPrototype "constructor"))
  /\ js_in "constructor" (VObj ∅) = Ok true
  /\ get_prop (VObj ∅) "__proto__" = Ok (Host (Prototype ObjectPrototype))
  /\ host_get (Prototype ObjectPrototype) "__proto__" = Ok (Data VNull)
  /\ get_prop (VStr "abc") "anchor" = Ok (Host (Method StringPrototype "anchor"))
  /\ get_prop (VStr "abc") "length" = Ok (Data (VNum 3))
  /\ get_prop (VObj ∅) "wires" = Ok (Data VUndef)
  /\ put_prop (VObj ∅) "__proto__" (VBool true) = Ok (VObj ∅)
  /\ put_prop (VObj ∅) "__proto__" (VObj ∅) = Leaves SetsPrototype
  /\ put_prop (VNum 5) "wires" (VBool true) = Throw TypeError.
Proof. repeat split; reflexivity. Qed.

Lemma bind_Ok_inv {A B : Type} (x : run A) (f : A -> run B) (b : B) :
  mbind (M := run) f x = Ok b -> exists a, x = Ok a /\ f a = Ok b.
Proof. destruct x as [[a|e]|d]; try done. intros H. by exists a. Qed.

Lemma fmap_Ok_inv {A B : Type} (x : run A) (f : A -> B) (b : B) :
  fmap (M := run) f x = Ok b -> exists a, x = Ok a /\ b = f a.
Proof. destruct x as [[a|e]|d]; try done. intros [= <-]. by exists a. Qed.

Lemma ret_Ok_inv {A : Type} (a b : A) : ret a = Ok b -> a = b.
Proof. by intros [= ->]. Qed.

Lemma own_only_members (key : string) :
  own_only key = true <-> key ∉ members_of ObjectPrototype.
Proof.
  unfold own_only. rewrite negb_true_iff, bool_decide_eq_false. done.
Qed.

Lemma own_only_proto (key : string) : own_only key = true -> key ≠ "__proto__".
Proof.
  rewrite own_only_members. intros Hk ->. apply Hk. by left.
Qed.

Lemma own_only_methods (key : string) : own_only key = true -> key ∉ object_methods.
Proof.
  rewrite own_only_members. intros Hk Hin. apply Hk.
  right. apply elem_of_app. by left.
Qed.

Lemma own_only_inherited (key : string) :
  own_only key = true -> inherited ObjectPrototype key = Data VUndef.
Proof.
  intros Hk. unfold inherited.
  change (methods_of ObjectPrototype) with object_methods.
  rewrite (bool_decide_eq_false_2 (key ∈ object_methods))
    by (by apply own_only_methods).
  by rewrite bool_decide_eq_false_2 by (by apply own_only_proto).
Qed.

Lemma inherited_own_only (key : string) :
  own_only key = false -> exists h, inherited ObjectPrototype key = Host h.
Proof.
  unfold own_only. rewrite negb_false_iff, bool_decide_eq_true.
  intros Hk. unfold inherited. change (methods_of ObjectPrototype) with object_methods.
  case_bool_decide as Hm; [eauto|].
  case_bool_decide as Hp; [eauto|].
  exfalso. apply elem_of_cons in Hk as [->|Hk]; [done|].
  apply elem_of_app in Hk as [Hk|Hk]; done.
Qed.

Lemma plain_own_only (key : string) : plain key = true -> own_only key = true.
Proof. unfold plain. simpl. by intros (H & _)%andb_true_iff. Qed.

Lemma plain_inherited (key : string) (p : prototype) :
  plain key = true -> inherited p key = Data VUndef.
Proof.
  unfold plain. simpl.
  rewrite !andb_true_iff, !negb_true_iff, !bool_decide_eq_false.
  intros (Ho & Hs & Hn & Hb & _).
  assert (Hp : key ∉ members_of p) by (by destruct p).
  unfold inherited.
  rewrite (bool_decide_eq_false_2 (key ∈ methods_of p)).
  2:{ intros Hin. apply Hp. right. apply elem_of_app. by left. }
  rewrite (bool_decide_eq_false_2 (key ∈ object_methods)).
  2:{ intros Hin. apply Hp. right. apply elem_of_app. by right. }
  rewrite bool_decide_eq_false_2; [done|].
  intros ->. apply Hp. by left.
Qed.

(** On a key that is not inherited, an object is the map of its own
    properties. *)
Lemma js_in_own (key : string) (m : gmap string value) :
  own_only key = true ->
  js_in key (VObj m) = Ok (bool_decide (is_Some (m !! key))).
Proof.
  intros Hk. unfold js_in.
  rewrite (bool_decide_eq_false_2 (key ∈ members_of ObjectPrototype))
    by (by apply own_only_members).
  by rewrite orb_false_r.
Qed.

Lemma get_prop_own (key : string) (m : gmap string value) :
  own_only key = true ->
  get_prop (VObj m) key = Ok (Data (default VUndef (m !! key))).
Proof.
  intros Hk. unfold get_prop. rewrite (own_only_inherited key Hk).
  by destruct (m !! key).
Qed.

Lemma get_prop_found (key : string) (m : gmap string value) (x : value) :
  m !! key = Some x -> get_prop (VObj m) key = Ok (Data x).
Proof. intros Hx. unfold get_prop. by rewrite Hx. Qed.

Lemma obj_put_insert (key : string) (m : gmap string value) (x : value) :
  key ≠ "__proto__" \/ is_Some (m !! key) ->
  obj_put m key x = Ok (<[key := x]> m).
Proof.
  intros Hk. unfold obj_put.
  destruct Hk as [Hk|Hk].
  - by rewrite (bool_decide_eq_false_2 (key = "__proto__")).
  - rewrite (bool_decide_eq_true_2 (is_Some (m !! key))) by done.
    by rewrite andb_false_r.
Qed.

(** ** The state store *)

(** [get] returns on every state and every path. *)
Lemma get_loop_returns (keys : list string) (current : reached) (d : value) :
  exists r, StateManager.get_loop keys current d = Ok r.
Proof.
  revert current.
  induction keys as [|key keys IH]; intros current; [by eexists|].
  cbn [StateManager.get_loop].
  destruct (truthy_reached current) eqn:Ht; [|by eexists].
  case_bool_decide as Hty; [|by eexists].
  destruct current as [v|h].
  - destruct v as [| |b|n|s|m]; try done.
    cbn [has js_in]. cbn [mbind run_bind ret].
    destruct (_ || _); [|by eexists].
    cbn [read get_prop]. cbn [mbind run_bind ret]. apply IH.
  - destruct h as [p|p name]; [|done].
    cbn [has]. cbn [mbind run_bind ret].
    destruct (host_in key (Prototype p)); [|by eexists].
    cbn [read]. destruct p; cbn [host_get mbind run_bind ret]; apply IH.
Qed.

(** On keys that are not inherited, [get] reads the tree of own
    properties. *)
Lemma get_loop_stored (keys : list string) (current d : value) :
  Forall (fun key => own_only key = true) keys ->
  StateManager.get_loop keys (Data current) d = Ok (Data (default d (stored_at keys current))).
Proof.
  revert current.
  induction keys as [|key keys IH]; intros current Hkeys; [done|].
  apply Forall_cons in Hkeys as [Hkey Hkeys].
  cbn [StateManager.get_loop truthy_reached typeof_reached].
  destruct current as [| |b|n|s|m]; try done.
  - cbn [truthy]. by destruct b.
  - cbn [truthy]. by destruct (negb (n =? 0)).
  - cbn [truthy]. by destruct (negb (bool_decide (s = ""))).
  - cbn [truthy typeof has read]. rewrite bool_decide_eq_true_2 by done.
    rewrite js_in_own by done. cbn [mbind run_bind].
    cbn [stored_at].
    destruct (m !! key) as [x|] eqn:Hx.
    + rewrite bool_decide_eq_true_2 by eauto.
      rewrite (get_prop_found key m x Hx). cbn [mbind run_bind option_bind].
      by apply IH.
    + rewrite bool_decide_eq_false_2 by (by intros [? ?]). done.
Qed.

Lemma get_stored (path : string) (d : value) (w : StateManager.World) :
  own_path path = true ->
  StateManager.get path d w
  = Ok (Data (default d (stored_at (split "." path) (StateManager.state w)))).
Proof.
  intros Hp. unfold StateManager.get. apply get_loop_stored.
  apply Forall_forall. intros key Hin.
  unfold own_path in Hp. rewrite forallb_forall in Hp.
  apply Hp. by apply list_elem_of_In.
Qed.

Import Notions.

(** The walk of [set], one key at a time. *)
Lemma set_loop_cons (key key' : string) (keys : list string) (current : reached)
    (v : value) :
  StateManager.set_loop (key :: key' :: keys) current v =
  (found ← has key current;
   keep ← (if (found : bool)
           then c ← read current key; ret (bool_decide (typeof_reached c = TObject))
           else ret false);
   current1 ← (if (keep : bool) then ret current else write current key (VObj ∅));
   child ← read current1 key;
   child' ← StateManager.set_loop (key' :: keys) child v;
   ret (store_reached current1 key child')).
Proof. reflexivity. Qed.

(** The walk does not return once it is on [null] or on a built-in
    object. *)
Lemma set_loop_off_tree (keys : list string) (current : reached) (v : value) (r : reached) :
  typeof_reached current = TObject ->
  (forall m, current ≠ Data (VObj m)) ->
  StateManager.set_loop keys current v ≠ Ok r.
Proof.
  revert current r.
  induction keys as [|key keys IH]; intros current r Hty Hobj.
  - destruct current as [[| |b|n|s|m]|h]; try done. by destruct (Hobj m).
  - destruct keys as [|key' keys].
    + destruct current as [[| |b|n|s|m]|h]; try done. by destruct (Hobj m).
    + rewrite set_loop_cons.
      destruct current as [[| |b|n|s|m]|[p|p name]]; try done.
      { by destruct (Hobj m). }
      cbn [has]. cbn [mbind run_bind ret].
      assert (Hread : exists c, read (Host (Prototype p)) key = Ok c
                /\ (typeof_reached c = TObject -> forall m, c ≠ Data (VObj m))).
      { cbn [read]. destruct p; cbn [host_get]; eexists; (split; [reflexivity|]);
          intros _ m; repeat case_match; done. }
      destruct Hread as (c & Hc & Hcobj). rewrite Hc.
      destruct (host_in key (Prototype p)); cbn [mbind run_bind ret]; [|done].
      case_bool_decide as Hcty; cbn [mbind run_bind ret]; [|done].
      rewrite Hc. cbn [mbind run_bind ret].
      intros (child' & Hrec & _)%bind_Ok_inv.
      by eapply (IH c child' Hcty (Hcobj Hcty)).
Qed.

Lemma write_data (v x : value) (key : string) (r : reached) :
  write (Data v) key x = Ok r -> exists s, r = Data s /\ put_prop v key x = Ok s.
Proof.
  cbn [write]. intros (s & Hs & ->)%fmap_Ok_inv. eauto.
Qed.

(** What the walk gives back is the object it started from. *)
Lemma set_loop_data (keys : list string) (current x : value) (r : reached) :
  StateManager.set_loop keys (Data current) x = Ok r -> exists s, r = Data s.
Proof.
  destruct keys as [|key [|key' keys]].
  - intros (s & -> & _)%write_data. eauto.
  - intros (s & -> & _)%write_data. eauto.
  - rewrite set_loop_cons.
    intros (found & _ & H)%bind_Ok_inv.
    apply bind_Ok_inv in H as (keep & _ & H).
    apply bind_Ok_inv in H as (current1 & Hc1 & H).
    apply bind_Ok_inv in H as (child & _ & H).
    apply bind_Ok_inv in H as (child' & _ & H).
    apply ret_Ok_inv in H as <-.
    assert (Hd : exists s, current1 = Data s).
    { destruct keep.
      - apply ret_Ok_inv in Hc1 as <-. eauto.
      - apply write_data in Hc1 as (s & -> & _). eauto. }
    destruct Hd as [s ->]. cbn [store_reached]. eauto.
Qed.

Lemma proto_not_method : "__proto__" ∉ object_methods.
Proof. apply (bool_decide_unpack _). by vm_compute. Qed.

Lemma inherited_cases (key : string) :
  (own_only key = true /\ inherited ObjectPrototype key = Data VUndef)
  \/ (own_only key = false /\ key ≠ "__proto__"
      /\ inherited ObjectPrototype key = Host (Method ObjectPrototype key))
  \/ (own_only key = false /\ key = "__proto__"
      /\ inherited ObjectPrototype key = Host (Prototype ObjectPrototype)).
Proof.
  destruct (own_only key) eqn:Hown.
  - left. split; [done|]. by apply own_only_inherited.
  - right. unfold inherited. change (methods_of ObjectPrototype) with object_methods.
    case_bool_decide as Hm.
    + left. split; [done|]. split; [|done]. intros ->. by apply proto_not_method.
    + right. split; [done|].
      unfold own_only in Hown. rewrite negb_false_iff, bool_decide_eq_true in Hown.
      apply elem_of_cons in Hown as [->|Hk]; [done|].
      apply elem_of_app in Hk as [Hk|Hk]; done.
Qed.

Lemma has_object (key : string) (m : gmap string value) :
  has key (Data (VObj m)) = Ok (bool_decide (is_Some (m !! key)) || negb (own_only key)).
Proof. unfold own_only. by rewrite negb_involutive. Qed.

Lemma set_loop_step (key key' : string) (keys : list string) (m : gmap string value)
    (v : value) (r : reached) :
  StateManager.set_loop (key :: key' :: keys) (Data (VObj m)) v = Ok r <->
  exists child', StateManager.set_loop (key' :: keys) (Data (below m key)) v = Ok (Data child')
                 /\ (key ≠ "__proto__" \/ is_Some (m !! key))
                 /\ r = Data (VObj (<[key := child']> m)).
Proof.
  rewrite set_loop_cons, has_object. cbn [mbind run_bind ret]. unfold below.
  destruct (m !! key) as [c0|] eqn:Hc0.
  - rewrite bool_decide_eq_true_2 by eauto. cbn [orb read].
    rewrite (get_prop_found key m c0 Hc0). cbn [mbind run_bind ret typeof_reached].
    assert (Hkeep : typeof c0 = TObject /\ (c0 = VNull \/ exists m', c0 = VObj m')
                    \/ typeof c0 ≠ TObject /\ below m key = VObj ∅).
    { unfold below. rewrite Hc0. destruct c0; eauto; right; done. }
    destruct Hkeep as [[Hty Hc]|[Hty Hb]].
    + rewrite bool_decide_eq_true_2 by done. cbn [mbind run_bind ret read].
      rewrite (get_prop_found key m c0 Hc0). cbn [mbind run_bind ret].
      assert (Hsame : match c0 with VNull => VNull | VObj m' => VObj m' | _ => VObj ∅ end = c0).
      { destruct Hc as [->|[m' ->]]; done. }
      rewrite Hsame. split.
      * intros (child' & Hrec & Hr)%bind_Ok_inv. apply ret_Ok_inv in Hr as <-.
        destruct (set_loop_data _ _ _ _ Hrec) as [c' ->].
        exists c'. split; [done|]. split; [eauto|].
        cbn [store_reached store obj_store]. by rewrite bool_decide_eq_true_2 by eauto.
      * intros (c' & -> & _ & ->). cbn [mbind run_bind ret store_reached store obj_store].
        by rewrite bool_decide_eq_true_2 by eauto.
    + rewrite bool_decide_eq_false_2 by done. cbn [mbind run_bind ret write put_prop].
      rewrite obj_put_insert by eauto. cbn [fmap run_fmap mbind run_bind read].
      rewrite (get_prop_found key _ (VObj ∅)) by apply lookup_insert_eq.
      cbn [mbind run_bind ret].
      assert (Hsame : match c0 with VNull => VNull | VObj m' => VObj m' | _ => VObj ∅ end
                      = VObj ∅).
      { unfold below in Hb. by rewrite Hc0 in Hb. }
      rewrite Hsame. split.
      * intros (child' & Hrec & Hr)%bind_Ok_inv. apply ret_Ok_inv in Hr as <-.
        destruct (set_loop_data _ _ _ _ Hrec) as [c' ->].
        exists c'. split; [done|]. split; [eauto|].
        cbn [store_reached store obj_store].
        rewrite bool_decide_eq_true_2 by (rewrite lookup_insert_eq; eauto).
        by rewrite insert_insert_eq.
      * intros (c' & -> & _ & ->). cbn [mbind run_bind ret store_reached store obj_store].
        rewrite bool_decide_eq_true_2 by (rewrite lookup_insert_eq; eauto).
        by rewrite insert_insert_eq.
  - rewrite bool_decide_eq_false_2 by (by intros [? ?]). cbn [orb read get_prop].
    rewrite Hc0.
    destruct (inherited_cases key) as [[Hown Hinh]|[(Hown & Hne & Hinh)|(Hown & -> & Hinh)]];
      rewrite Hown, Hinh; cbn [negb mbind run_bind ret typeof_reached].
    + cbn [write put_prop]. rewrite obj_put_insert by (left; by apply own_only_proto).
      cbn [fmap run_fmap mbind run_bind read].
      rewrite (get_prop_found key _ (VObj ∅)) by apply lookup_insert_eq.
      cbn [mbind run_bind ret]. split.
      * intros (child' & Hrec & Hr)%bind_Ok_inv. apply ret_Ok_inv in Hr as <-.
        destruct (set_loop_data _ _ _ _ Hrec) as [c' ->].
        exists c'. split; [done|]. split; [left; by apply own_only_proto|].
        cbn [store_reached store obj_store].
        rewrite bool_decide_eq_true_2 by (rewrite lookup_insert_eq; eauto).
        by rewrite insert_insert_eq.
      * intros (c' & -> & _ & ->). cbn [mbind run_bind ret store_reached store obj_store].
        rewrite bool_decide_eq_true_2 by (rewrite lookup_insert_eq; eauto).
        by rewrite insert_insert_eq.
    + rewrite bool_decide_eq_false_2 by done. cbn [mbind run_bind ret write put_prop].
      rewrite obj_put_insert by eauto.
      cbn [fmap run_fmap mbind run_bind read].
      rewrite (get_prop_found key _ (VObj ∅)) by apply lookup_insert_eq.
      cbn [mbind run_bind ret]. split.
      * intros (child' & Hrec & Hr)%bind_Ok_inv. apply ret_Ok_inv in Hr as <-.
        destruct (set_loop_data _ _ _ _ Hrec) as [c' ->].
        exists c'. split; [done|]. split; [eauto|].
        cbn [store_reached store obj_store].
        rewrite bool_decide_eq_true_2 by (rewrite lookup_insert_eq; eauto).
        by rewrite insert_insert_eq.
      * intros (c' & -> & _ & ->). cbn [mbind run_bind ret store_reached store obj_store].
        rewrite bool_decide_eq_true_2 by (rewrite lookup_insert_eq; eauto).
        by rewrite insert_insert_eq.
    + rewrite bool_decide_eq_true_2 by done. cbn [mbind run_bind ret read get_prop].
      rewrite Hc0, Hinh. cbn [mbind run_bind ret]. split.
      * intros (child' & Hrec & _)%bind_Ok_inv.
        by apply set_loop_off_tree in Hrec.
      * intros (c' & _ & [?|[? ?]] & _); done.
Qed.

(** The final assignment on an object, under a key that is not
    [__proto__]. *)
Lemma write_object (m : gmap string value) (key : string) (x : value) :
  key ≠ "__proto__" \/ is_Some (m !! key) ->
  write (Data (VObj m)) key x = Ok (Data (VObj (<[key := x]> m))).
Proof. intros Hk. cbn [write put_prop]. by rewrite obj_put_insert. Qed.

Lemma write_data_inv (current x : value) (key : string) (r : reached) :
  key ≠ "__proto__" ->
  write (Data current) key x = Ok r ->
  exists m, current = VObj m /\ r = Data (VObj (<[key := x]> m)).
Proof.
  intros Hk. destruct current as [| |b|n|s|m]; cbn [write put_prop];
    rewrite ?(bool_decide_eq_false_2 (key = "__proto__")) by done; try done.
  rewrite obj_put_insert by eauto. intros [= <-]. eauto.
Qed.

(** The walk returns only from an object, when it has more than one
    key. *)
Lemma set_loop_from_object (key key' : string) (keys : list string) (current x : value)
    (r : reached) :
  StateManager.set_loop (key :: key' :: keys) (Data current) x = Ok r ->
  exists m, current = VObj m.
Proof.
  rewrite set_loop_cons. destruct current as [| |b|n|s|m]; try done. eauto.
Qed.

Lemma get_loop_found (key : string) (keys : list string) (m : gmap string value)
    (x d : value) :
  m !! key = Some x ->
  StateManager.get_loop (key :: keys) (Data (VObj m)) d
  = StateManager.get_loop keys (Data x) d.
Proof.
  intros Hx. cbn [StateManager.get_loop truthy_reached truthy typeof_reached typeof].
  rewrite bool_decide_eq_true_2 by done. rewrite has_object.
  rewrite bool_decide_eq_true_2 by eauto. cbn [orb mbind run_bind read].
  by rewrite (get_prop_found key m x Hx).
Qed.

(** Whenever the walk of [set] returns, [get] finds the value at the end of
    the same keys, unless the last key is [__proto__]. *)
Lemma set_loop_get_loop (keys : list string) (current v d : value) (r : reached) :
  keys ≠ [] ->
  last keys ≠ Some "__proto__" ->
  StateManager.set_loop keys (Data current) v = Ok r ->
  StateManager.get_loop keys r d = Ok (Data v).
Proof.
  revert current r.
  induction keys as [|key keys IH]; intros current r Hne Hlast Hset; [done|].
  destruct keys as [|key' keys].
  - assert (Hk : key ≠ "__proto__") by (intros ->; by apply Hlast).
    apply write_data_inv in Hset as (m & -> & ->); [|done].
    by rewrite (get_loop_found key [] _ v) by apply lookup_insert_eq.
  - destruct (set_loop_from_object _ _ _ _ _ _ Hset) as [m ->].
    apply set_loop_step in Hset as (child' & Hrec & _ & ->).
    rewrite (get_loop_found key _ _ child') by apply lookup_insert_eq.
    by eapply IH.
Qed.

(** [set] completes on a tree that has no [null] where it descends, for a
    path that has no key [__proto__]. *)
Lemma set_loop_succeeds (keys : list string) (m : gmap string value) (v : value) :
  no_null_inside keys (VObj m) ->
  "__proto__" ∉ keys ->
  exists m', StateManager.set_loop keys (Data (VObj m)) v = Ok (Data (VObj m')).
Proof.
  revert m.
  induction keys as [|key keys IH]; intros m Hnn Hp.
  - eexists. by apply write_object; left.
  - apply not_elem_of_cons in Hp as [Hkey Hp].
    destruct keys as [|key' keys].
    + eexists. apply write_object. left. congruence.
    + cbn [no_null_inside] in Hnn.
      assert (Hempty : no_null_inside (key' :: keys) (VObj ∅))
        by (by destruct keys).
      assert (Hb : exists mb, below m key = VObj mb /\ no_null_inside (key' :: keys) (VObj mb)).
      { unfold below. destruct (m !! key) as [[| |b|n|s|m0]|]; try done; eauto. }
      destruct Hb as (mb & Hb & Hnb).
      destruct (IH mb Hnb Hp) as [m' Hrec].
      eexists. apply set_loop_step. exists (VObj m').
      rewrite Hb. split; [done|]. split; [left; congruence|done].
Qed.

(** A [null] where [set] descends makes it throw. *)
Lemma set_loop_null (key key' : string) (keys : list string) (m : gmap string value)
    (v : value) :
  m !! key = Some VNull ->
  StateManager.set_loop (key :: key' :: keys) (Data (VObj m)) v = Throw TypeError.
Proof.
  intros Hk. rewrite set_loop_cons, has_object.
  rewrite bool_decide_eq_true_2 by eauto. cbn [orb mbind run_bind ret read].
  rewrite (get_prop_found key m VNull Hk). cbn [mbind run_bind ret typeof_reached typeof].
  rewrite bool_decide_eq_true_2 by done. cbn [mbind run_bind ret read].
  rewrite (get_prop_found key m VNull Hk). cbn [mbind run_bind ret].
  by destruct keys.
Qed.

Section StoreEffects.

Variable stringify : value -> string.

Lemma saveState_state (w : StateManager.World) :
  StateManager.state (StateManager.saveState stringify w) = StateManager.state w.
Proof.
  unfold StateManager.saveState.
  by destruct (StateManager.setItem _ _ _).
Qed.

Lemma saveState_listeners (w : StateManager.World) :
  StateManager.listeners (StateManager.saveState stringify w) = StateManager.listeners w.
Proof.
  unfold StateManager.saveState.
  by destruct (StateManager.setItem _ _ _).
Qed.

Lemma saveState_called (w : StateManager.World) :
  StateManager.called (StateManager.saveState stringify w) = StateManager.called w.
Proof.
  unfold StateManager.saveState.
  by destruct (StateManager.setItem _ _ _).
Qed.

(** A refused write leaves the storage as it was and logs one warning. *)
Lemma saveState_refused (w : StateManager.World) :
  StateManager.refuses (StateManager.localStorage w) = true ->
  StateManager.saveState stringify w =
  StateManager.log w (StateManager.Warn "Could not save state:" QuotaExceededError).
Proof.
  intros Href. unfold StateManager.saveState, StateManager.setItem.
  by rewrite Href.
Qed.

Lemma call_listeners_state (path : string) (v : value) (ls : list StateManager.Listener)
    (w : StateManager.World) :
  StateManager.state (foldl (StateManager.call_listener path v) w ls) = StateManager.state w
  /\ StateManager.localStorage (foldl (StateManager.call_listener path v) w ls)
     = StateManager.localStorage w
  /\ StateManager.called (foldl (StateManager.call_listener path v) w ls)
     = StateManager.called w ++ map (fun l => (StateManager.lid l, path, v)) ls.
Proof.
  revert w.
  induction ls as [|l ls IH]; intros w; simpl.
  - by rewrite app_nil_r.
  - destruct (IH (StateManager.call_listener path v w l)) as (-> & -> & ->).
    unfold StateManager.call_listener.
    destruct (StateManager.callback l path v); simpl;
      by rewrite <- app_assoc.
Qed.

Lemma call_listeners_console (path : string) (v : value) (ls : list StateManager.Listener)
    (w : StateManager.World) :
  exists errors,
    StateManager.console (foldl (StateManager.call_listener path v) w ls)
    = StateManager.console w ++ errors.
Proof.
  revert w.
  induction ls as [|l ls IH]; intros w; simpl.
  - exists []. by rewrite app_nil_r.
  - destruct (IH (StateManager.call_listener path v w l)) as [errors ->].
    unfold StateManager.call_listener.
    destruct (StateManager.callback l path v); simpl.
    + by exists errors.
    + eexists. by rewrite <- app_assoc.
Qed.

Lemma notifyListeners_console (path : string) (v : value) (w : StateManager.World) :
  exists errors,
    StateManager.console (StateManager.notifyListeners path v w)
    = StateManager.console w ++ errors.
Proof.
  unfold StateManager.notifyListeners.
  destruct (StateManager.listeners w !! path) as [ls|].
  - apply call_listeners_console.
  - exists []. by rewrite app_nil_r.
Qed.

Lemma notifyListeners_state (path : string) (v : value) (w : StateManager.World) :
  StateManager.state (StateManager.notifyListeners path v w) = StateManager.state w.
Proof.
  unfold StateManager.notifyListeners.
  destruct (StateManager.listeners w !! path) as [ls|]; [|done].
  apply call_listeners_state.
Qed.

Lemma notifyListeners_storage (path : string) (v : value) (w : StateManager.World) :
  StateManager.localStorage (StateManager.notifyListeners path v w)
  = StateManager.localStorage w.
Proof.
  unfold StateManager.notifyListeners.
  destruct (StateManager.listeners w !! path) as [ls|]; [|done].
  apply call_listeners_state.
Qed.

Lemma notifyListeners_called (path : string) (v : value) (w : StateManager.World) :
  StateManager.called (StateManager.notifyListeners path v w) =
  StateManager.called w ++
  map (fun l => (StateManager.lid l, path, v))
      (default [] (StateManager.listeners w !! path)).
Proof.
  unfold StateManager.notifyListeners.
  destruct (StateManager.listeners w !! path) as [ls|]; simpl.
  - apply call_listeners_state.
  - by rewrite app_nil_r.
Qed.

(** [set] returns exactly when its walk does, with the state the walk
    gives. *)
Lemma set_inv (path : string) (v : value) (w w' : StateManager.World) :
  StateManager.set stringify path v w = Ok w' ->
  exists s,
    StateManager.set_loop (split "." path) (Data (StateManager.state w)) v = Ok (Data s)
    /\ w' = StateManager.notifyListeners path v
              (StateManager.saveState stringify (StateManager.with_state w s)).
Proof.
  unfold StateManager.set.
  intros (r & Hloop & Hw)%bind_Ok_inv. apply ret_Ok_inv in Hw as <-.
  destruct (set_loop_data _ _ _ _ Hloop) as [s ->]. eauto.
Qed.

Lemma set_of_loop (path : string) (v s : value) (w : StateManager.World) :
  StateManager.set_loop (split "." path) (Data (StateManager.state w)) v = Ok (Data s) ->
  StateManager.set stringify path v w =
  Ok (StateManager.notifyListeners path v
        (StateManager.saveState stringify (StateManager.with_state w s))).
Proof. intros Hloop. unfold StateManager.set. by rewrite Hloop. Qed.

Lemma set_state (path : string) (v : value) (w w' : StateManager.World) :
  StateManager.set stringify path v w = Ok w' ->
  StateManager.set_loop (split "." path) (Data (StateManager.state w)) v
  = Ok (Data (StateManager.state w')).
Proof.
  intros (s & Hloop & ->)%set_inv.
  by rewrite notifyListeners_state, saveState_state.
Qed.

(** Whenever [set] returns, the value is at the path, unless the last key
    of the path is [__proto__]. *)
Lemma set_get_roundtrip (path : string) (v d : value) (w w' : StateManager.World) :
  last (split "." path) ≠ Some "__proto__" ->
  StateManager.set stringify path v w = Ok w' ->
  StateManager.get path d w' = Ok (Data v).
Proof.
  intros Hlast Hset%set_state. unfold StateManager.get.
  eapply set_loop_get_loop; [apply split_not_nil|done|done].
Qed.

(** [set] returns on an object tree that has no [null] where the path
    descends, for a path that has no key [__proto__]. *)
Lemma set_returns (path : string) (v : value) (w : StateManager.World)
    (m : gmap string value) :
  StateManager.state w = VObj m ->
  no_null_inside (split "." path) (VObj m) ->
  "__proto__" ∉ split "." path ->
  exists w', StateManager.set stringify path v w = Ok w'.
Proof.
  intros Hst Hnn Hp.
  destruct (set_loop_succeeds _ _ v Hnn Hp) as [m' Hloop].
  eexists. apply set_of_loop. rewrite Hst. exact Hloop.
Qed.

End StoreEffects.

(** C5.  The round trip [set(path, v)]; [get(path)] is claimed for every
    state tree, trees with [null] at an intermediate position included.  On
    the tree [{a: null}] the call [set("a.b", 1)] throws a TypeError:
    [typeof null] is ['object'], so the [null] is not overwritten and the
    assignment [current[finalKey] = value] is made on it.  [get] has the
    guard ([current && ...]) that [set] lacks and returns its default on the
    same tree. *)
Theorem set_throws_on_null_intermediate (stringify : value -> string) :
  let w := {| StateManager.state := VObj {[ "a" := VNull ]};
              StateManager.listeners := ∅;
              StateManager.localStorage :=
                {| StateManager.items := ∅; StateManager.refuses := false |};
              StateManager.console := [];
              StateManager.called := [] |} in
  StateManager.set stringify "a.b" (VNum 1) w = Throw TypeError
  /\ StateManager.get "a.b" (VStr "fallback") w = Ok (Data (VStr "fallback")).
Proof. split; reflexivity. Qed.

(** C6, as the code has it.  [get(path, defaultValue)] never throws: on
    every state and for every path it returns.  When no key of the path is
    the name of a member of [Object.prototype], what it returns is
    [defaultValue] when a key along the path is absent or the value reached
    there is not an object ([stored_at] is [None]), and the value stored at
    the path otherwise. *)
Theorem get_never_throws (path : string) (defaultValue : value) (w : StateManager.World) :
  (exists r, StateManager.get path defaultValue w = Ok r)
  /\ (own_path path = true ->
      StateManager.get path defaultValue w =
      Ok (Data (match stored_at (split "." path) (StateManager.state w) with
                | Some v => v
                | None => defaultValue
                end))).
Proof.
  split; [apply get_loop_returns|].
  intros Hp. by rewrite get_stored.
Qed.

(** C6 as stated fails on a key that objects inherit: [constructor] is
    absent from the empty tree, yet [get("constructor", "fallback")] returns
    the function [Object], not the default; and below [__proto__] it returns
    the [null] that ends the prototype chain. *)
Lemma get_never_throws_counterexample :
  let w := {| StateManager.state := VObj ∅;
              StateManager.listeners := ∅;
              StateManager.localStorage :=
                {| StateManager.items := ∅; StateManager.refuses := false |};
              StateManager.console := [];
              StateManager.called := [] |} in
  stored_at (split "." "constructor") (StateManager.state w) = None
  /\ StateManager.get "constructor" (VStr "fallback") w
     = Ok (Host (Method ObjectPrototype "constructor"))
  /\ StateManager.get "constructor" (VStr "fallback") w ≠ Ok (Data (VStr "fallback"))
  /\ StateManager.get "__proto__.__proto__" (VStr "fallback") w = Ok (Data VNull).
Proof. repeat split; try reflexivity. discriminate. Qed.

(** C6, on the scenario of the specification and on a path that meets a
    number. *)
Lemma get_never_throws_witness :
  let w := {| StateManager.state := VObj {[ "a" := VObj {[ "b" := VNum 5 ]} ]};
              StateManager.listeners := ∅;
              StateManager.localStorage :=
                {| StateManager.items := ∅; StateManager.refuses := false |};
              StateManager.console := [];
              StateManager.called := [] |} in
  own_path "a.b" = true
  /\ own_path "a.b.c" = true
  /\ StateManager.get "a.b" (VStr "fallback") w = Ok (Data (VNum 5))
  /\ StateManager.get "a.b.c" (VStr "fallback") w = Ok (Data (VStr "fallback")).
Proof.
  intros w. split; [reflexivity|]. split; [reflexivity|]. split.
  - exact (proj2 (get_never_throws "a.b" (VStr "fallback") w) eq_refl).
  - exact (proj2 (get_never_throws "a.b.c" (VStr "fallback") w) eq_refl).
Defined.

(** C7, as the code has it.  A write to storage is attempted once the walk
    of [set] is done ([set_loop] returned).  When the storage then refuses
    the write, [set] still returns: the tree in memory is the updated one,
    the storage is untouched, the failure is logged as a warning, and every
    listener registered for [path] is called with [(path, value)], in order.
    The tree holds [value] at [path] unless the last key of the path is
    [__proto__]. *)
Theorem set_survives_storage_failure (stringify : value -> string) (path : string)
    (value d s : value) (w : StateManager.World) :
  StateManager.set_loop (split "." path) (Data (StateManager.state w)) value = Ok (Data s) ->
  StateManager.refuses (StateManager.localStorage w) = true ->
  exists w',
    StateManager.set stringify path value w = Ok w'
    /\ StateManager.state w' = s
    /\ (last (split "." path) ≠ Some "__proto__" ->
        StateManager.get path d w' = Ok (Data value))
    /\ StateManager.localStorage w' = StateManager.localStorage w
    /\ (exists errors,
          StateManager.console w' =
          StateManager.console w
          ++ StateManager.Warn "Could not save state:" QuotaExceededError :: errors)
    /\ StateManager.called w' =
       StateManager.called w ++
       map (fun l => (StateManager.lid l, path, value))
           (default [] (StateManager.listeners w !! path)).
Proof.
  intros Hset Href.
  pose proof (set_of_loop stringify path value s w Hset) as Hw.
  eexists. split; [exact Hw|].
  split; [by rewrite notifyListeners_state, saveState_state|].
  split; [intros Hlast; by eapply set_get_roundtrip|].
  split; [by rewrite notifyListeners_storage, saveState_refused|].
  split.
  - destruct (notifyListeners_console path value
                (StateManager.saveState stringify (StateManager.with_state w s)))
      as [errors ->].
    exists errors. rewrite saveState_refused by done. simpl.
    by rewrite <- app_assoc.
  - by rewrite notifyListeners_called, saveState_called, saveState_listeners.
Qed.

(** C7 as stated fails at the path [__proto__]: the storage refuses the
    write and [set("__proto__", true)] returns, but the assignment went to
    the setter of [Object.prototype], which ignores a boolean; the tree is
    unchanged and [get("__proto__")] gives [Object.prototype], not [true]. *)
Lemma set_survives_storage_failure_counterexample :
  let w := {| StateManager.state := VObj ∅;
              StateManager.listeners := ∅;
              StateManager.localStorage :=
                {| StateManager.items := ∅; StateManager.refuses := true |};
              StateManager.console := [];
              StateManager.called := [] |} in
  StateManager.refuses (StateManager.localStorage w) = true
  /\ exists w',
       StateManager.set (fun _ => "{}") "__proto__" (VBool true) w = Ok w'
       /\ StateManager.state w' = VObj ∅
       /\ StateManager.get "__proto__" VUndef w' = Ok (Host (Prototype ObjectPrototype))
       /\ StateManager.get "__proto__" VUndef w' ≠ Ok (Data (VBool true)).
Proof.
  intros w. split; [reflexivity|].
  eexists. split; [reflexivity|]. split; [reflexivity|]. split; [reflexivity|].
  discriminate.
Qed.

(** C7, at a concrete store: one listener on ["a.b"], which throws, and a
    storage that refuses every write. *)
Lemma set_survives_storage_failure_witness :
  let l := {| StateManager.lid := 7; StateManager.callback := fun _ _ => Throw CallbackError |} in
  let w := {| StateManager.state := VObj ∅;
              StateManager.listeners := {[ "a.b" := [l] ]};
              StateManager.localStorage :=
                {| StateManager.items := ∅; StateManager.refuses := true |};
              StateManager.console := [];
              StateManager.called := [] |} in
  let s := VObj {[ "a" := VObj {[ "b" := VNum 5 ]} ]} in
  StateManager.set_loop (split "." "a.b") (Data (StateManager.state w)) (VNum 5) = Ok (Data s)
  /\ StateManager.refuses (StateManager.localStorage w) = true
  /\ exists w',
       StateManager.set (fun _ => "{}") "a.b" (VNum 5) w = Ok w'
       /\ StateManager.state w' = s
       /\ StateManager.get "a.b" VUndef w' = Ok (Data (VNum 5))
       /\ StateManager.localStorage w' = StateManager.localStorage w
       /\ (exists errors,
             StateManager.console w' =
             StateManager.console w
             ++ StateManager.Warn "Could not save state:" QuotaExceededError :: errors)
       /\ StateManager.called w' = [(7%nat, "a.b", VNum 5)].
Proof.
  intros l w s.
  split; [reflexivity|]. split; [reflexivity|].
  destruct (set_survives_storage_failure (fun _ => "{}") "a.b" (VNum 5) VUndef s w
              eq_refl eq_refl) as (w' & Hw' & Hs & Hget & Hls & Hlog & Hcalled).
  exists w'. split; [exact Hw'|]. split; [exact Hs|].
  split; [apply Hget; discriminate|]. split; [exact Hls|]. split; [exact Hlog|exact Hcalled].
Defined.

(** C10, as the code has it.  [clearState] always returns; afterwards the
    collapsed mapping is empty, both storage keys are removed, and the theme
    in memory is the string that was stored under the theme key when that
    string is not empty, and ["light"] when the key was absent or held the
    empty string. *)
Theorem clearState_theme (w : StateManager.World) :
  exists w',
    StateManager.clearState w = Ok w'
    /\ stored_at ["collapsed"] (StateManager.state w') = Some (VObj ∅)
    /\ StateManager.getItem StateManager.state_key (StateManager.localStorage w') = None
    /\ StateManager.getItem StateManager.theme_key (StateManager.localStorage w') = None
    /\ stored_at ["theme"] (StateManager.state w') =
       Some (VStr (match StateManager.getItem StateManager.theme_key
                           (StateManager.localStorage w) with
                   | Some t => if bool_decide (t = "") then "light" else t
                   | None => "light"
                   end)).
Proof.
  unfold StateManager.clearState, StateManager.initializeStateStructure. simpl.
  eexists. split; [reflexivity|]. simpl.
  split; [done|].
  unfold StateManager.getItem, StateManager.removeItem. simpl.
  split; [by rewrite lookup_delete_ne, lookup_delete_eq|].
  split; [apply lookup_delete_eq|].
  destruct (StateManager.items (StateManager.localStorage w) !! StateManager.theme_key)
    as [t|]; simpl; [|done].
  by case_bool_decide.
Qed.

(** C10 as stated fails when the theme key holds the empty string: the key
    is present, yet the theme in memory is ["light"], not the stored value. *)
Lemma clearState_theme_counterexample :
  let w := {| StateManager.state := VObj ∅;
              StateManager.listeners := ∅;
              StateManager.localStorage :=
                {| StateManager.items := {[ StateManager.theme_key := "" ]};
                   StateManager.refuses := false |};
              StateManager.console := [];
              StateManager.called := [] |} in
  StateManager.getItem StateManager.theme_key (StateManager.localStorage w) = Some ""
  /\ exists w',
       StateManager.clearState w = Ok w'
       /\ stored_at ["theme"] (StateManager.state w') = Some (VStr "light")
       /\ stored_at ["theme"] (StateManager.state w') ≠ Some (VStr "").
Proof.
  intros w. split; [reflexivity|].
  eexists. split; [reflexivity|]. split; [reflexivity|]. discriminate.
Qed.

(** ** Quantities *)

Lemma digit_val_nonneg (c : ascii) (d : Z) : digit_val c = Some d -> 0 <= d.
Proof.
  unfold digit_val, is_digit, is_lower, is_upper.
  repeat case_match; intros [= <-];
    repeat match goal with
           | H : (_ && _)%bool = true |- _ => apply andb_true_iff in H as [? ?]
           | H : (_ <=? _)%nat = true |- _ => apply Nat.leb_le in H
           end; lia.
Qed.

Lemma digits_prefix_nonneg (R : Z) (s : string) : Forall (fun d => 0 <= d) (digits_prefix R s).
Proof.
  induction s as [|c s IH]; simpl; [constructor|].
  destruct (digit_val c) as [d|] eqn:Hd; [|constructor].
  destruct (d <? R); constructor; [by eapply digit_val_nonneg|done].
Qed.

Lemma math_int_nonneg (R : Z) (ds : list Z) :
  0 <= R -> Forall (fun d => 0 <= d) ds -> 0 <= math_int R ds.
Proof.
  intros HR. unfold math_int.
  assert (Hgen : forall acc, 0 <= acc -> Forall (fun d => 0 <= d) ds ->
                 0 <= foldl (fun acc d => acc * R + d) acc ds).
  { induction ds as [|d ds IH]; intros acc Hacc Hds; simpl; [done|].
    apply Forall_cons in Hds as [Hd Hds]. simpl in Hd.
    apply IH; [|done]. apply Z.add_nonneg_nonneg; [|done].
    by apply Z.mul_nonneg_nonneg. }
  by apply Hgen.
Qed.

(** A number parsed from a string that has no minus sign after its leading
    white space is not negative. *)
Lemma parseInt_nonneg (v : value) (radix : option Z) (n : Z) :
  parseInt v radix = Some n -> leading_minus v = false -> 0 <= n.
Proof.
  unfold parseInt, leading_minus. intros Hp Hminus.
  destruct (negb (default 0 radix =? 0) && _) eqn:Hbad in Hp; [done|].
  match type of Hp with
  | match digits_prefix ?R ?S2 with _ => _ end = _ =>
      assert (HR : 0 <= R);
      [|pose proof (math_int_nonneg R _ HR (digits_prefix_nonneg R S2)) as Hm;
        destruct (digits_prefix R S2) as [|d ds]; [done|]]
  end.
  - destruct (_ && starts_with_0x _); [lia|].
    destruct (default 0 radix =? 0) eqn:H0; [lia|]. simpl in Hbad.
    apply orb_false_iff in Hbad as [H2 _]. apply Z.ltb_ge in H2. lia.
  - injection Hp as <-.
    match goal with
    | |- 0 <= _ * ?M => revert Hm; generalize M
    end.
    intros M HM.
    destruct (trimStart (ToString v)) as [|c r]; [lia|].
    rewrite Hminus. lia.
Qed.




Lemma parse_quantity_pos (radix : option Z) (item : Item) :
  leading_minus (quantity item) = false -> 1 <= parse_quantity radix item.
Proof.
  intros Hm. unfold parse_quantity.
  destruct (parseInt (quantity item) radix) as [n|] eqn:Hp; [|lia].
  pose proof (parseInt_nonneg _ _ _ Hp Hm).
  destruct (n =? 0) eqn:Hn; lia.
Qed.




(** ** Loops *)

Lemma foldM_app {A B : Type} (f : A -> B -> run A) (a : A) (l1 l2 : list B) :
  foldM f a (l1 ++ l2) = (a' ← foldM f a l1; foldM f a' l2).
Proof.
  revert a. induction l1 as [|x l1 IH]; intros a; simpl; [done|].
  destruct (f a x) as [[a'|e]|d]; simpl; [apply IH|done|done].
Qed.

(** The two nested loops visit the pairs (project, item) in order. *)
Lemma foldM_item_pairs {A : Type} (f : string -> A -> Item -> run A) (a : A)
    (ps : list (string * list Item)) :
  foldM (fun acc '(projectName, items) => foldM (f projectName) acc items) a ps
  = foldM (fun acc pi => f pi.1 acc pi.2) a (item_pairs ps).
Proof.
  revert a. induction ps as [|[p items] ps IH]; intros a; [done|].
  unfold item_pairs. rewrite bind_cons, foldM_app. simpl.
  assert (Hin : foldM (fun acc pi => f pi.1 acc pi.2) a (map (pair p) items)
                = foldM (f p) a items).
  { clear IH. revert a. induction items as [|item items IHi]; intros a; simpl; [done|].
    destruct (f p a item) as [[a'|e]|d]; simpl; [apply IHi|done|done]. }
  rewrite Hin. destruct (foldM (f p) a items) as [[a'|e]|d]; simpl; [apply IH|done|done].
Qed.

(** A loop whose steps all return is a fold. *)
Lemma foldM_pure {A B : Type} (f : A -> B -> run A) (g : A -> B -> A) (P : B -> Prop)
    (a : A) (l : list B) :
  (forall a x, P x -> f a x = Ok (g a x)) ->
  Forall P l ->
  foldM f a l = Ok (foldl g a l).
Proof.
  intros Hf. revert a.
  induction l as [|x l IH]; intros a Hl; [done|].
  apply Forall_cons in Hl as [Hx Hl].
  cbn [foldM foldl]. rewrite (Hf a x Hx). cbn [mbind run_bind]. by apply IH.
Qed.

(** A loop stops at the first step that does not return. *)
Lemma foldM_leaves {A B : Type} (f : A -> B -> run A) (g : A -> B -> A) (P : B -> Prop)
    (a : A) (l1 l2 : list B) (x : B) (d : departure) :
  (forall a x, P x -> f a x = Ok (g a x)) ->
  Forall P l1 ->
  (forall a, f a x = Leaves d) ->
  foldM f a (l1 ++ x :: l2) = Leaves d.
Proof.
  intros Hf Hl1 Hx. rewrite foldM_app, (foldM_pure f g P a l1 Hf Hl1).
  cbn [mbind run_bind foldM]. by rewrite Hx.
Qed.

(** ** Tables of the program *)

Lemma lookup_slot_own {A : Type} (table : gmap string A) (key : string) :
  own_only key = true ->
  lookup_slot table key = match table !! key with Some a => Own a | None => Missing end.
Proof.
  intros Hk. unfold lookup_slot. by rewrite (own_only_inherited key Hk).
Qed.

Lemma lookup_slot_found {A : Type} (table : gmap string A) (key : string) (a : A) :
  table !! key = Some a -> lookup_slot table key = Own a.
Proof. intros Ha. unfold lookup_slot. by rewrite Ha. Qed.

Lemma lookup_slot_inherits {A : Type} (table : gmap string A) (key : string) :
  own_only key = false -> table !! key = None ->
  exists h, lookup_slot table key = Inherits h.
Proof.
  intros Hk Hnone. unfold lookup_slot. rewrite Hnone.
  destruct (inherited_own_only key Hk) as [h ->]. eauto.
Qed.

(** ** The Item Total Registry *)

Lemma sumZ_app (l1 l2 : list Z) : sumZ (l1 ++ l2) = sumZ l1 + sumZ l2.
Proof. unfold sumZ. induction l1 as [|x l1 IH]; simpl; lia. Qed.

Lemma register_sums (radix : option Z) (projectName : string)
    (totals : gmap string ItemTotal) (item : Item) :
  registry_sums totals -> registry_sums (register radix projectName totals item).
Proof.
  intros Hinv k e. unfold register.
  destruct (decide (k = id item)) as [->|Hne].
  - rewrite !lookup_alter_eq.
    destruct (totals !! id item) as [e0|] eqn:He0.
    + rewrite He0. simpl. intros [= <-]. simpl.
      rewrite map_app, sumZ_app, (Hinv _ _ He0). unfold sumZ. simpl. lia.
    + rewrite lookup_insert_eq. simpl. intros [= <-]. simpl. unfold sumZ. simpl. lia.
  - rewrite !lookup_alter_ne by done.
    destruct (totals !! id item); [|rewrite lookup_insert_ne by done];
      intros He; by apply (Hinv k e).
Qed.








(** ** Reading the completion state *)

Lemma plain_string_prop (s key : string) :
  plain key = true ->
  get_prop (VStr s) key = Ok (Data (string_prop s key)).
Proof.
  intros Hk. unfold get_prop. rewrite (plain_inherited key StringPrototype Hk).
  by destruct (string_prop s key).
Qed.

(** Under names that are not inherited, app.js reads the flag of the state
    object. *)
Lemma app_completion_flag (projectName itemId : string) (state : gmap string value) :
  app_lookup projectName itemId = true ->
  exists r, App.completion projectName itemId state = Ok r
            /\ truthy_reached r = app_flag state projectName itemId.
Proof.
  unfold app_lookup. intros [Hp Hi]%andb_true_iff.
  unfold App.completion, app_flag. rewrite get_prop_own by done.
  cbn [mbind run_bind].
  destruct (state !! projectName) as [[| |b|n|s|m]|];
    cbn [default from_option Datatypes.id read_opt read].
  - by eexists.
  - by eexists.
  - unfold get_prop. rewrite (plain_inherited itemId BooleanPrototype Hi). by eexists.
  - unfold get_prop. rewrite (plain_inherited itemId NumberPrototype Hi). by eexists.
  - rewrite plain_string_prop by done. by eexists.
  - rewrite get_prop_own by (by apply plain_own_only). by eexists.
  - by eexists.
Qed.

Lemma store_completion_flag (projectName itemId : string) (w : StateManager.World) :
  store_lookup projectName itemId = true ->
  exists r, DataLoader.completion projectName itemId w = Ok r
            /\ truthy_reached r = store_flag w projectName itemId.
Proof.
  unfold store_lookup. intros Hp.
  unfold DataLoader.completion, StateManager.isItemCompleted, store_flag.
  rewrite get_stored by done. eexists. split; [done|].
  by destruct (stored_at _ _).
Qed.

(** In the state store a lookup returns whatever the names are. *)
Lemma store_completion_returns (projectName itemId : string) (w : StateManager.World) :
  exists r, DataLoader.completion projectName itemId w = Ok r.
Proof. apply get_loop_returns. Qed.

Section EngineLoops.

Variable St : Type.
Variable isItemCompleted : string -> string -> St -> run reached.
Variable flag : St -> string -> string -> bool.
Variable lookup : string -> string -> bool.
Hypothesis isItemCompleted_flag : forall projectName itemId st,
  lookup projectName itemId = true ->
  exists r, isItemCompleted projectName itemId st = Ok r
            /\ truthy_reached r = flag st projectName itemId.

Lemma remaining_loop (itemId : string) (st : St) (l : list Instance) (remaining : Z) :
  Forall (fun i => lookup (i_projectName i) itemId = true) l ->
  foldM (fun remaining instance =>
           c ← isItemCompleted (i_projectName instance) itemId st;
           if truthy_reached c then ret (remaining - i_quantity instance) else ret remaining)
        remaining l
  = Ok (remaining -
        sumZ (map i_quantity
                  (List.filter (fun i => flag st (i_projectName i) itemId) l))).
Proof.
  revert remaining.
  induction l as [|i l IH]; intros remaining Hl.
  - simpl. unfold ret. do 2 f_equal. unfold sumZ. simpl. lia.
  - apply Forall_cons in Hl as [Hi Hl]. cbn [foldM].
    destruct (isItemCompleted_flag (i_projectName i) itemId st Hi) as (v & -> & Hv).
    cbn [mbind run_bind]. rewrite Hv. cbn [List.filter].
    destruct (flag st (i_projectName i) itemId); cbn [mbind run_bind ret];
      rewrite IH by done; do 2 f_equal; unfold sumZ; simpl; lia.
Qed.

Lemma getRemainingTotal_formula (itemId : string) (e : ItemTotal) (st : St) (this : Engine) :
  itemTotals this !! itemId = Some e ->
  Forall (fun i => lookup (i_projectName i) itemId = true) (instances e) ->
  Catalog.getRemainingTotal St isItemCompleted itemId st this =
  Ok (Z.max 0 (totalNeeded e - completed_quantity (flag st) itemId e)).
Proof.
  intros He Hl. unfold Catalog.getRemainingTotal.
  rewrite (lookup_slot_found _ _ _ He).
  by rewrite remaining_loop.
Qed.

Lemma count_all_step (projectName : string) (st : St) (item : Item) (count : Z) :
  lookup (lookup_project projectName item) (id item) = true ->
  count_all St isItemCompleted projectName st count item =
  Ok (count + (if flag st (lookup_project projectName item) (id item) then 1 else 0)).
Proof.
  intros Hl. unfold count_all.
  assert (Hp : match Catalog.projectName item with
               | Some p => if truthy (VStr p) then p else projectName
               | None => projectName
               end = lookup_project projectName item).
  { unfold lookup_project. destruct (Catalog.projectName item) as [p|]; [|done].
    simpl. by case_bool_decide. }
  rewrite Hp.
  destruct (isItemCompleted_flag (lookup_project projectName item) (id item) st Hl)
    as (v & -> & Hv).
  cbn [mbind run_bind]. by rewrite Hv.
Qed.

Lemma count_all_loop (projectName : string) (st : St) (items : list Item) (count : Z) :
  Forall (fun item => lookup (lookup_project projectName item) (id item) = true) items ->
  foldM (count_all St isItemCompleted projectName st) count items =
  Ok (count + count_if (fun item => flag st (lookup_project projectName item) (id item))
                       items).
Proof.
  revert count.
  induction items as [|item items IH]; intros count Hl.
  - simpl. unfold ret. do 2 f_equal. unfold count_if. simpl. lia.
  - apply Forall_cons in Hl as [Hi Hl].
    cbn [foldM]. rewrite count_all_step by done. cbn [mbind run_bind].
    rewrite IH by done. do 2 f_equal.
    unfold count_if. simpl.
    destruct (flag st _ _); simpl; lia.
Qed.

End EngineLoops.

(** C3, as the code has it.  For an identity that the registry holds,
    [getRemainingTotal] returns [max(0, totalNeeded - q)], [q] being the sum
    of the quantities of the instances whose completion flag under
    [(instance.projectName, itemId)] is true, and the result is never
    negative provided that the lookups of these flags meet own properties
    only: in app.js, that no project name of an instance is the name of a
    member of [Object.prototype] and the identity is not the name of a member
    that values inherit; in [DataLoader], that no key of the path
    [projectName.itemId] is the name of a member of [Object.prototype]. *)
Theorem getRemainingTotal_clamped (itemId : string) (e : ItemTotal) (this : Engine)
    (state : gmap string value) (stateManager : StateManager.World) :
  itemTotals this !! itemId = Some e ->
  (Forall (fun i => app_lookup (i_projectName i) itemId = true) (instances e) ->
   App.getRemainingTotal itemId state this
   = Ok (Z.max 0 (totalNeeded e - completed_quantity (app_flag state) itemId e)))
  /\ (Forall (fun i => store_lookup (i_projectName i) itemId = true) (instances e) ->
      DataLoader.getRemainingTotal itemId stateManager this
      = Ok (Z.max 0 (totalNeeded e - completed_quantity (store_flag stateManager) itemId e)))
  /\ 0 <= Z.max 0 (totalNeeded e - completed_quantity (app_flag state) itemId e)
  /\ 0 <= Z.max 0 (totalNeeded e - completed_quantity (store_flag stateManager) itemId e).
Proof.
  intros He.
  split.
  { intros Hl. unfold App.getRemainingTotal.
    by apply (getRemainingTotal_formula _ _ app_flag app_lookup app_completion_flag). }
  split.
  { intros Hl. unfold DataLoader.getRemainingTotal.
    by apply (getRemainingTotal_formula _ _ store_flag store_lookup store_completion_flag). }
  split; lia.
Qed.

(** C3 as stated fails when a lookup meets an inherited member.  With a
    registry that holds the identity [constructor]: the entry of the project
    is an empty object, no flag is set, yet the lookup finds the function
    [Object] that the object inherits and reads it as a completed flag; the
    result is [0] where the claim gives [2].  With a registry that
    [buildItemTotals] builds, for an item named "Link", and a state object
    whose entry of the project is a string (as a stored blob can hold): app.js
    finds the method [link] of the string. *)
Lemma getRemainingTotal_clamped_counterexample :
  let e := {| totalNeeded := 2;
              instances := [{| i_projectName := "Workshop items"; i_quantity := 2;
                               i_requirement := "" |}] |} in
  let this := {| e_projects := []; itemTotals := {[ "constructor" := e ]} |} in
  let state : gmap string value := {[ "Workshop items" := VObj ∅ ]} in
  let stateManager :=
    {| StateManager.state := VObj state;
       StateManager.listeners := ∅;
       StateManager.localStorage :=
         {| StateManager.items := ∅; StateManager.refuses := false |};
       StateManager.console := [];
       StateManager.called := [] |} in
  let link := {| name := "Link"; quantity := VStr "2"; requirement := "";
                 id := "link"; projectName := None |} in
  let catalog := {| e_projects := [("Workshop items", [link])]; itemTotals := ∅ |} in
  let blob : gmap string value := {[ "Workshop items" := VStr "x" ]} in
  (itemTotals this !! "constructor" = Some e
   /\ app_flag state "Workshop items" "constructor" = false
   /\ store_flag stateManager "Workshop items" "constructor" = false
   /\ Z.max 0 (totalNeeded e - completed_quantity (app_flag state) "constructor" e) = 2
   /\ App.getRemainingTotal "constructor" state this = Ok 0
   /\ DataLoader.getRemainingTotal "constructor" stateManager this = Ok 0)
  /\ (App.buildItemTotals catalog
      = Ok {| e_projects := e_projects catalog; itemTotals := {[ "link" := e ]} |}
      /\ app_flag blob "Workshop items" "link" = false
      /\ Z.max 0 (totalNeeded e - completed_quantity (app_flag blob) "link" e) = 2
      /\ App.getRemainingTotal "link" blob
           {| e_projects := e_projects catalog; itemTotals := {[ "link" := e ]} |} = Ok 0).
Proof. repeat split; reflexivity. Qed.

(** C3, on an entry whose completed quantity exceeds what is needed. *)
Lemma getRemainingTotal_clamped_witness :
  let e := {| totalNeeded := 2;
              instances := [{| i_projectName := "Workshop items"; i_quantity := 5;
                               i_requirement := "Gear Bench" |}] |} in
  let this := {| e_projects := []; itemTotals := {[ "wires" := e ]} |} in
  let state : gmap string value :=
    {[ "Workshop items" := VObj {[ "wires" := VBool true ]} ]} in
  let stateManager :=
    {| StateManager.state := VObj state;
       StateManager.listeners := ∅;
       StateManager.localStorage :=
         {| StateManager.items := ∅; StateManager.refuses := false |};
       StateManager.console := [];
       StateManager.called := [] |} in
  itemTotals this !! "wires" = Some e
  /\ Forall (fun i => app_lookup (i_projectName i) "wires" = true) (instances e)
  /\ Forall (fun i => store_lookup (i_projectName i) "wires" = true) (instances e)
  /\ App.getRemainingTotal "wires" state this = Ok 0
  /\ DataLoader.getRemainingTotal "wires" stateManager this = Ok 0.
Proof.
  intros e this state stateManager.
  assert (He : itemTotals this !! "wires" = Some e) by reflexivity.
  assert (Happ : Forall (fun i => app_lookup (i_projectName i) "wires" = true) (instances e))
    by (repeat constructor).
  assert (Hstore : Forall (fun i => store_lookup (i_projectName i) "wires" = true)
                          (instances e))
    by (repeat constructor).
  destruct (getRemainingTotal_clamped "wires" e this state stateManager He)
    as (Ha & Hs & _).
  split; [exact He|]. split; [exact Happ|]. split; [exact Hstore|].
  split; [exact (Ha Happ)|exact (Hs Hstore)].
Defined.

(** ** The combined count *)

(** C8, as the code has it.  [getCompletedCount("all", items, state)] is the
    number of items whose completion flag under [(p, item.id)] is true, [p]
    being the project the item carries when it carries a non-empty one, and
    ["all"] (the name passed in) when [projectName] is missing or empty,
    provided that the lookups of these flags meet own properties only: in
    app.js, that no [p] is the name of a member of [Object.prototype] and no
    identity the name of a member that values inherit; in [DataLoader], that
    no key of a path [p.id] is the name of a member of [Object.prototype]. *)
Theorem getCompletedCount_all (items : list Item) (state : gmap string value)
    (stateManager : StateManager.World) :
  (Forall (fun item => app_lookup (lookup_project "all" item) (id item) = true) items ->
   App.getCompletedCount "all" items state
   = Ok (count_if (fun item => app_flag state (lookup_project "all" item) (id item)) items))
  /\ (Forall (fun item => store_lookup (lookup_project "all" item) (id item) = true) items ->
      DataLoader.getCompletedCount "all" items stateManager
      = Ok (count_if (fun item => store_flag stateManager (lookup_project "all" item) (id item))
                     items))
  /\ (forall item p, projectName item = Some p -> p ≠ "" ->
        lookup_project "all" item = p).
Proof.
  unfold App.getCompletedCount, DataLoader.getCompletedCount.
  rewrite !bool_decide_eq_true_2 by done.
  split.
  { intros Hl.
    by rewrite (count_all_loop _ _ app_flag app_lookup app_completion_flag). }
  split.
  { intros Hl.
    by rewrite (count_all_loop _ _ store_flag store_lookup store_completion_flag). }
  intros item p Hp Hne. unfold lookup_project. rewrite Hp.
  by case_bool_decide.
Qed.

(** C8 as stated fails on an item whose identity is [constructor]: the
    item carries its project, whose entry in the state is an empty object, so
    its flag under [(item.projectName, item.id)] is not true; yet both engines
    count it, the lookup finding the function [Object] that the entry
    inherits.  It also fails on an item that carries the empty string as its
    project: its flag under [("", id)] is true, yet it is looked up under
    ["all"] and not counted. *)
Lemma getCompletedCount_all_counterexample :
  let item p i := {| name := "Wires"; quantity := VStr "1"; requirement := "";
                     id := i; projectName := Some p |} in
  let world state :=
    {| StateManager.state := VObj state;
       StateManager.listeners := ∅;
       StateManager.localStorage :=
         {| StateManager.items := ∅; StateManager.refuses := false |};
       StateManager.console := [];
       StateManager.called := [] |} in
  let items1 := [item "Workshop items" "constructor"] in
  let state1 : gmap string value := {[ "Workshop items" := VObj ∅ ]} in
  let items2 := [item "Workshop items" "wires"; item "" "wires"] in
  let state2 : gmap string value :=
    {[ "Workshop items" := VObj {[ "wires" := VBool true ]};
       "" := VObj {[ "wires" := VBool true ]} ]} in
  (count_if (fun item => app_flag state1 (default "" (projectName item)) (id item)) items1 = 0
   /\ count_if (fun item => store_flag (world state1) (default "" (projectName item)) (id item))
               items1 = 0
   /\ App.getCompletedCount "all" items1 state1 = Ok 1
   /\ DataLoader.getCompletedCount "all" items1 (world state1) = Ok 1)
  /\ (count_if (fun item => app_flag state2 (default "" (projectName item)) (id item)) items2 = 2
      /\ count_if (fun item => store_flag (world state2) (default "" (projectName item))
                                          (id item)) items2 = 2
      /\ App.getCompletedCount "all" items2 state2 = Ok 1
      /\ DataLoader.getCompletedCount "all" items2 (world state2) = Ok 1).
Proof. repeat split; reflexivity. Qed.

(** C8, on a list that mixes two projects. *)
Lemma getCompletedCount_all_witness :
  let item p i := {| name := "Wires"; quantity := VStr "1"; requirement := "";
                     id := i; projectName := Some p |} in
  let items := [item "Quest items" "wires"; item "Workshop items" "wires"] in
  let state : gmap string value :=
    {[ "Workshop items" := VObj {[ "wires" := VBool true ]} ]} in
  let stateManager :=
    {| StateManager.state := VObj state;
       StateManager.listeners := ∅;
       StateManager.localStorage :=
         {| StateManager.items := ∅; StateManager.refuses := false |};
       StateManager.console := [];
       StateManager.called := [] |} in
  Forall (fun item => app_lookup (lookup_project "all" item) (id item) = true) items
  /\ Forall (fun item => store_lookup (lookup_project "all" item) (id item) = true) items
  /\ lookup_project "all" (item "Workshop items" "wires") = "Workshop items"
  /\ App.getCompletedCount "all" items state = Ok 1
  /\ DataLoader.getCompletedCount "all" items stateManager = Ok 1.
Proof.
  intros item items state stateManager.
  assert (Happ : Forall (fun item => app_lookup (lookup_project "all" item) (id item) = true)
                        items) by (repeat constructor).
  assert (Hstore : Forall (fun item => store_lookup (lookup_project "all" item) (id item)
                                       = true) items) by (repeat constructor).
  destruct (getCompletedCount_all items state stateManager) as (Ha & Hs & Hown).
  split; [exact Happ|]. split; [exact Hstore|].
  split; [apply Hown; [reflexivity|discriminate]|].
  split; [exact (Ha Happ)|exact (Hs Hstore)].
Defined.

(** ** Requirement groups *)

Lemma requirements_of_tokens (item : Item) :
  requirements_of item = tokens (requirement item).
Proof. reflexivity. Qed.

Lemma bucket_entry_snoc {A : Type} (l : list A) (x : A) :
  bucket_entry (l ++ [x]) = Some (l ++ [x]).
Proof. by destruct l. Qed.

Lemma bucket_entry_default {A : Type} (l : list A) :
  default [] (bucket_entry l) = l.
Proof. by destruct l. Qed.

Lemma place_lookup (item : Item) (groups : gmap string (list Item)) (t0 t : string) :
  place item groups t0 !! t =
  if decide (t = t0) then Some (default [] (groups !! t0) ++ [copy_of item t0])
  else groups !! t.
Proof.
  unfold place. fold (copy_of item t0).
  destruct (decide (t = t0)) as [->|Hne].
  - rewrite lookup_alter_eq.
    destruct (groups !! t0) as [l|] eqn:Hl.
    + by rewrite Hl.
    + by rewrite lookup_insert_eq.
  - rewrite lookup_alter_ne by done.
    destruct (groups !! t0); [done|]. by rewrite lookup_insert_ne.
Qed.

(** Under a token that is not inherited, the copy is put into the bucket of
    the token. *)
Lemma push_copy_own (item : Item) (groups : gmap string (list Item)) (t : string) :
  own_only t = true -> push_copy item groups t = Ok (place item groups t).
Proof.
  intros Ht. unfold push_copy. rewrite lookup_slot_own by done.
  by destruct (groups !! t).
Qed.

(** The copies of one item that carry the token [t]. *)
Lemma split_item_lookup (item : Item) (rs : list string)
    (groups : gmap string (list Item)) (B : string -> list Item) :
  Forall (fun r => own_only r = true) rs ->
  (forall t, groups !! t = bucket_entry (B t)) ->
  exists groups',
    foldM (push_copy item) groups rs = Ok groups'
    /\ forall t, groups' !! t =
                 bucket_entry (B t ++ map (copy_of item) (filter (fun r => r = t) rs)).
Proof.
  revert groups B.
  induction rs as [|r rs IH]; intros groups B Hrs Hinv.
  - exists groups. split; [done|]. intros t. by rewrite app_nil_r.
  - apply Forall_cons in Hrs as [Hr Hrs]. cbn [foldM].
    rewrite push_copy_own by done. cbn [mbind run_bind].
    destruct (IH (place item groups r)
                 (fun t => B t ++ if decide (t = r) then [copy_of item r] else []) Hrs)
      as (groups' & Hrun & Hl).
    + intros t'. rewrite place_lookup.
      destruct (decide (t' = r)) as [->|Hne].
      * by rewrite Hinv, bucket_entry_default, bucket_entry_snoc.
      * by rewrite app_nil_r.
    + exists groups'. split; [done|]. intros t. rewrite Hl.
      rewrite <- app_assoc. f_equal. f_equal.
      destruct (decide (t = r)) as [->|Hne].
      * by rewrite filter_cons_True.
      * by rewrite filter_cons_False by congruence.
Qed.

Lemma token_pairs_cons (item : Item) (items : list Item) :
  token_pairs (item :: items) = map (pair item) (tokens (requirement item)) ++ token_pairs items.
Proof. unfold token_pairs. by rewrite bind_cons. Qed.

Lemma bucket_cons (item : Item) (items : list Item) (t : string) :
  bucket (item :: items) t =
  map (copy_of item) (filter (fun r => r = t) (tokens (requirement item))) ++ bucket items t.
Proof.
  unfold bucket. rewrite token_pairs_cons, filter_app, map_app. f_equal.
  induction (tokens (requirement item)) as [|r rs IH]; [done|]. simpl.
  destruct (decide (r = t)) as [->|Hne].
  - rewrite !filter_cons_True by done. simpl. by rewrite IH.
  - by rewrite !filter_cons_False by done.
Qed.

Lemma group_copies_lookup (items : list Item) :
  own_tokens items ->
  exists groups,
    group_copies items = Ok groups
    /\ forall t, groups !! t = bucket_entry (bucket items t).
Proof.
  unfold group_copies, own_tokens.
  assert (Hgen : forall (groups : gmap string (list Item)) B,
            Forall (fun ir => own_only ir.2 = true) (token_pairs items) ->
            (forall t, groups !! t = bucket_entry (B t)) ->
            exists groups',
              foldM split_item groups items = Ok groups'
              /\ forall t, groups' !! t = bucket_entry (B t ++ bucket items t)).
  { induction items as [|item items IH]; intros groups B Hown Hinv.
    - exists groups. split; [done|]. intros t. by rewrite app_nil_r.
    - rewrite token_pairs_cons in Hown. apply Forall_app in Hown as [Hitem Hown].
      assert (Hrs : Forall (fun r => own_only r = true) (requirements_of item)).
      { rewrite requirements_of_tokens. apply Forall_forall. intros r Hr.
        apply (proj1 (Forall_forall _ _) Hitem (item, r)).
        apply list_elem_of_fmap. by exists r. }
      destruct (split_item_lookup item (requirements_of item) groups B Hrs Hinv)
        as (groups1 & Hrun1 & Hl1).
      destruct (IH groups1 _ Hown Hl1) as (groups' & Hrun & Hl).
      exists groups'. split.
      + cbn [foldM].
        change (split_item groups item)
          with (foldM (push_copy item) groups (requirements_of item)).
        rewrite Hrun1. exact Hrun.
      + intros t. by rewrite Hl, bucket_cons, requirements_of_tokens, app_assoc. }
  intros Hown. apply (Hgen ∅ (fun _ => []) Hown). intros t. apply lookup_empty.
Qed.

Lemma hasKeepableItems_all (nonKeepable : gset string) (l : list Item) :
  hasKeepableItems nonKeepable l = negb (all_non_keepable nonKeepable l).
Proof.
  unfold hasKeepableItems, all_non_keepable.
  induction l as [|item l IH]; [done|]. simpl. rewrite IH.
  by destruct (bool_decide _), (forallb _ l).
Qed.

Lemma keepable_groups_lookup (nonKeepable : gset string)
    (groups : gmap string (list Item)) (t : string) :
  keepable_groups nonKeepable groups !! t =
  match groups !! t with
  | Some l => if all_non_keepable nonKeepable l then None else Some l
  | None => None
  end.
Proof.
  unfold keepable_groups. rewrite map_lookup_filter.
  destruct (groups !! t) as [l|]; [|done]. simpl.
  rewrite hasKeepableItems_all.
  by destruct (all_non_keepable nonKeepable l).
Qed.

Lemma dataloader_groups_lookup (items : list Item) (projectName : string) :
  own_tokens items ->
  exists groups,
    DataLoader.groupItemsByRequirement items projectName = Ok groups
    /\ forall t, groups !! t =
         match bucket items t with
         | [] => None
         | l =>
             if bool_decide (projectName = "Quest items")
                && all_non_keepable DataLoader.nonKeepableQuestItems l
             then None else Some l
         end.
Proof.
  intros Hown. destruct (group_copies_lookup items Hown) as (groups & Hrun & Hl).
  unfold DataLoader.groupItemsByRequirement. rewrite Hrun. cbn [mbind run_bind].
  case_bool_decide; eexists; (split; [done|]); intros t.
  - rewrite keepable_groups_lookup, Hl. by destruct (bucket items t).
  - rewrite Hl. by destruct (bucket items t).
Qed.

(** The groups of app.js: the same buckets, but a bucket whose members are
    all in the exclusion set is dropped whatever the project. *)
Lemma app_groups_lookup (items : list Item) :
  own_tokens items ->
  exists groups,
    App.groupItemsByRequirement items = Ok groups
    /\ forall t, groups !! t =
         match bucket items t with
         | [] => None
         | l => if all_non_keepable App.nonKeepableQuestItems l then None else Some l
         end.
Proof.
  intros Hown. destruct (group_copies_lookup items Hown) as (groups & Hrun & Hl).
  unfold App.groupItemsByRequirement. rewrite Hrun. cbn [mbind run_bind].
  eexists. split; [done|]. intros t.
  rewrite keepable_groups_lookup, Hl. by destruct (bucket items t).
Qed.

(** The groups of [DataLoader.groupItemsByRequirement], on a list in which
    no requirement token is the name of a member of [Object.prototype]: the
    bucket of a token holds one copy per occurrence of the token among the
    trimmed comma-separated requirements of the items, in order, each copy
    with that requirement and the identity of [(name, token)]; a bucket is
    dropped exactly when the project is ["Quest items"] and all its members
    are in the exclusion set. *)
Theorem groupItemsByRequirement_groups (items : list Item) (projectName : string) :
  own_tokens items ->
  exists groups,
    DataLoader.groupItemsByRequirement items projectName = Ok groups
    /\ forall t, groups !! t =
         match bucket items t with
         | [] => None
         | l =>
             if bool_decide (projectName = "Quest items")
                && all_non_keepable DataLoader.nonKeepableQuestItems l
             then None else Some l
         end.
Proof. apply dataloader_groups_lookup. Qed.

(** The groups of the scenario of the specification: "Battery Cell",
    required by "Station X, Station Y", and "Wires", required by
    "Station X". *)
Lemma groupItemsByRequirement_groups_witness :
  let cell := {| name := "Battery Cell"; quantity := VStr "3";
                 requirement := "Station X, Station Y";
                 id := "battery-cell-station-x--station-y"; projectName := None |} in
  let wires := {| name := "Wires"; quantity := VStr "2"; requirement := "Station X";
                  id := "wires-station-x"; projectName := None |} in
  let copy n q r i := {| name := n; quantity := VStr q; requirement := r; id := i;
                         projectName := None |} in
  own_tokens [cell; wires]
  /\ exists groups,
       DataLoader.groupItemsByRequirement [cell; wires] "Workshop items" = Ok groups
       /\ groups !! "Station X"
          = Some [copy "Battery Cell" "3" "Station X" "battery-cell-station-x";
                  copy "Wires" "2" "Station X" "wires-station-x"]
       /\ groups !! "Station Y"
          = Some [copy "Battery Cell" "3" "Station Y" "battery-cell-station-y"]
       /\ groups !! "Station X, Station Y" = None.
Proof.
  intros cell wires copy.
  assert (Hown : own_tokens [cell; wires]) by (repeat constructor).
  split; [exact Hown|].
  destruct (groupItemsByRequirement_groups [cell; wires] "Workshop items" Hown)
    as (groups & Hrun & Hl).
  exists groups. split; [exact Hrun|].
  split; [rewrite Hl; reflexivity|]. split; [rewrite Hl; reflexivity|].
  rewrite Hl. reflexivity.
Defined.

(** C2.  The claim holds of [DataLoader.groupItemsByRequirement]
    ([groupItemsByRequirement_groups]).  The copy of the function in app.js
    takes no project name and filters the groups of every project, although
    its comment speaks of quest groups: called for the project
    ["Workshop items"] on a list whose only item is "Duct Tape", required by
    "Gear Bench", it returns no group, where [DataLoader] keeps the group. *)
Theorem app_groupItemsByRequirement_drops_workshop_group :
  let items := [{| name := "Duct Tape"; quantity := VStr "2"; requirement := "Gear Bench";
                   id := "duct-tape"; projectName := None |}] in
  let copy := {| name := "Duct Tape"; quantity := VStr "2"; requirement := "Gear Bench";
                 id := "duct-tape-gear-bench"; projectName := None |} in
  (exists groups,
      DataLoader.groupItemsByRequirement items "Workshop items" = Ok groups
      /\ groups !! "Gear Bench" = Some [copy])
  /\ (exists groups,
      App.groupItemsByRequirement items = Ok groups
      /\ groups !! "Gear Bench" = None)
  /\ App.groupItemsByRequirement items = Ok ∅.
Proof.
  intros items copy.
  split; [eexists; split; reflexivity|].
  split; [eexists; split; reflexivity|].
  reflexivity.
Qed.

(** ** The combined view *)

Lemma total_of_snoc (cs : list Contribution) (c : Contribution) :
  total_of (cs ++ [c]) = total_of cs + c_quantity c.
Proof. unfold total_of. rewrite map_app, sumZ_app. unfold sumZ. simpl. lia. Qed.

Lemma completed_of_snoc (cs : list Contribution) (c : Contribution) :
  completed_of (cs ++ [c]) =
  completed_of cs + (if c_completed c then c_quantity c else 0).
Proof.
  unfold completed_of. rewrite filter_app, map_app, sumZ_app. f_equal.
  destruct (c_completed c) eqn:Hc.
  - rewrite filter_cons_True by done. unfold sumZ. simpl. lia.
  - rewrite filter_cons_False by (by rewrite Hc). done.
Qed.

Lemma pending_summary_snoc (cs : list Contribution) (c : Contribution) :
  pending_summary (cs ++ [c]) =
  {| totalQuantity := totalQuantity (pending_summary cs) + c_quantity c;
     completedQuantity := completedQuantity (pending_summary cs)
                          + (if c_completed c then c_quantity c else 0);
     projects := projects (pending_summary cs) ++ [c];
     remainingQuantity := None |}.
Proof.
  unfold pending_summary. simpl. by rewrite total_of_snoc, completed_of_snoc.
Qed.

Section CombinedView.

Variable radix : option Z.
Variable nonKeepable : gset string.
Variable St : Type.
Variable isItemCompleted : string -> string -> St -> run reached.

(** One step of the first pass on an instance that is counted, once the
    loop over its requirements has returned: its contribution goes to the
    end of the entry of its name, and nothing else changes. *)
Lemma collect_lookup (projectName : string) (st : St)
    (remainingItems : gmap string Summary) (item : Item)
    (B : string -> list Contribution) (completed : bool) :
  (forall n, remainingItems !! n = pending_summary <$> bucket_entry (B n)) ->
  requirements_completed St isItemCompleted projectName (name item) (requirements_of item) st
  = Ok completed ->
  exists r,
    collect radix St isItemCompleted projectName st remainingItems item = Ok r
    /\ forall n, r !! n =
        pending_summary <$>
        bucket_entry (B n ++ if decide (name item = n)
                             then [recorded radix projectName item completed] else []).
Proof.
  intros Hinv Hreq. unfold collect. rewrite Hreq. cbn [mbind run_bind].
  eexists. split; [done|]. intros n.
  destruct (decide (name item = n)) as [<-|Hne].
  - rewrite bucket_entry_snoc. simpl. rewrite pending_summary_snoc.
    rewrite lookup_alter_eq.
    set (r1 := match remainingItems !! name item with
               | Some _ => remainingItems
               | None => _
               end).
    assert (Hr1 : r1 !! name item = Some (pending_summary (B (name item)))).
    { subst r1. rewrite (Hinv (name item)).
      destruct (B (name item)) as [|c cs] eqn:HB; simpl.
      - by rewrite lookup_insert_eq.
      - by rewrite (Hinv (name item)), HB. }
    destruct completed; simpl;
      rewrite ?lookup_alter_eq, Hr1; simpl; f_equal; f_equal; lia.
  - rewrite app_nil_r, lookup_alter_ne by done.
    destruct completed;
      rewrite ?lookup_alter_ne by done;
      (destruct (remainingItems !! name item);
       [|rewrite lookup_insert_ne by done]); apply Hinv.
Qed.

(** A step of the first pass that returns has skipped the instance or
    recorded its contribution. *)
Lemma collect_item_inv (projectName : string) (st : St)
    (remainingItems r : gmap string Summary) (item : Item)
    (B : string -> list Contribution) :
  (forall n, remainingItems !! n = pending_summary <$> bucket_entry (B n)) ->
  collect_item radix nonKeepable St isItemCompleted projectName st remainingItems item
  = Ok r ->
  exists cs,
    (cs = [] \/ exists completed, cs = [recorded radix projectName item completed])
    /\ forall n, r !! n =
         pending_summary <$>
         bucket_entry (B n ++ if decide (name item = n) then cs else []).
Proof.
  intros Hinv. unfold collect_item.
  destruct (bool_decide (projectName = "Quest items")
            && bool_decide (name item ∈ nonKeepable)).
  - intros [= <-]. exists []. split; [by left|]. intros n.
    destruct (decide _); by rewrite app_nil_r.
  - destruct (lookup_slot remainingItems (name item)) as [s|h|] eqn:Hslot.
    + intros Hrun.
      destruct (requirements_completed St isItemCompleted projectName (name item)
                  (requirements_of item) st) as [[completed|e]|d] eqn:Hreq;
        try (unfold collect in Hrun; by rewrite Hreq in Hrun).
      destruct (collect_lookup projectName st remainingItems item B completed Hinv Hreq)
        as (r' & Hr' & Hl).
      rewrite Hr' in Hrun. injection Hrun as <-.
      exists [recorded radix projectName item completed]. split; [eauto|done].
    + intros Hrun. exfalso. destruct h as [p|p m]; cbn in Hrun.
      * by destruct p.
      * by destruct (bool_decide _) in Hrun.
    + intros Hrun.
      destruct (requirements_completed St isItemCompleted projectName (name item)
                  (requirements_of item) st) as [[completed|e]|d] eqn:Hreq;
        try (unfold collect in Hrun; by rewrite Hreq in Hrun).
      destruct (collect_lookup projectName st remainingItems item B completed Hinv Hreq)
        as (r' & Hr' & Hl).
      rewrite Hr' in Hrun. injection Hrun as <-.
      exists [recorded radix projectName item completed]. split; [eauto|done].
Qed.

(** Whenever the first pass returns, every entry is the summary of a list
    of contributions, each with the quantity of an item of the catalog. *)
Lemma collect_pairs_inv (st : St) (pairs : list (string * Item))
    (remainingItems r : gmap string Summary) (B : string -> list Contribution)
    (Q : Contribution -> Prop) :
  (forall pi completed, pi ∈ pairs -> Q (recorded radix pi.1 pi.2 completed)) ->
  (forall n, remainingItems !! n = pending_summary <$> bucket_entry (B n)) ->
  (forall n, Forall Q (B n)) ->
  foldM (fun acc pi =>
           collect_item radix nonKeepable St isItemCompleted pi.1 st acc pi.2)
        remainingItems pairs = Ok r ->
  exists B', (forall n, r !! n = pending_summary <$> bucket_entry (B' n))
             /\ forall n, Forall Q (B' n).
Proof.
  revert remainingItems B.
  induction pairs as [|[p item] pairs IH]; intros remainingItems B HQ Hinv HB Hrun.
  - injection Hrun as <-. eauto.
  - cbn [foldM fst snd] in Hrun. apply bind_Ok_inv in Hrun as (r1 & Hstep & Hrun).
    destruct (collect_item_inv p st remainingItems r1 item B Hinv Hstep)
      as (cs & Hcs & Hl1).
    eapply (IH r1 _ _ Hl1); [|exact Hrun].
    Unshelve.
    + intros n. apply Forall_app. split; [apply HB|].
      destruct (decide (name item = n)); [|constructor].
      destruct Hcs as [->|[completed ->]]; [constructor|].
      constructor; [|constructor]. apply (HQ (p, item)). by left.
    + intros pi completed Hin. apply HQ. by right.
Qed.

Variable flag : St -> string -> string -> bool.
Variable lookup : string -> string -> bool.
Hypothesis isItemCompleted_flag : forall projectName itemId st,
  lookup projectName itemId = true ->
  exists r, isItemCompleted projectName itemId st = Ok r
            /\ truthy_reached r = flag st projectName itemId.





(** Whenever the combined view returns, every entry is the summary of a
    list of contributions that carry quantities of the catalog. *)
Lemma getAllItemsRemaining_inv (st : St) (this : Engine) (r : gmap string Summary)
    (Q : Z -> Prop) :
  Forall (fun pi => Q (parse_quantity radix pi.2)) (item_pairs (e_projects this)) ->
  Catalog.getAllItemsRemaining radix nonKeepable St isItemCompleted st this = Ok r ->
  forall n s, r !! n = Some s ->
    exists cs, cs ≠ [] /\ s = summary_of cs /\ Forall (fun c => Q (c_quantity c)) cs.
Proof.
  intros HQ. unfold Catalog.getAllItemsRemaining.
  rewrite (foldM_item_pairs
             (fun projectName =>
                collect_item radix nonKeepable St isItemCompleted projectName st)).
  intros (r1 & Hrun & Hr)%bind_Ok_inv. apply ret_Ok_inv in Hr as <-.
  destruct (collect_pairs_inv st (item_pairs (e_projects this)) ∅ r1 (fun _ => [])
              (fun c => Q (c_quantity c))) as (B' & Hl & HB'); try done.
  { intros pi completed Hin. simpl.
    by apply (proj1 (Forall_forall _ _) HQ pi). }
  intros n s. rewrite lookup_fmap, Hl.
  destruct (B' n) as [|c cs] eqn:HBn; [done|].
  simpl. intros [= <-]. exists (c :: cs). split; [done|]. split; [done|].
  rewrite <- HBn. apply HB'.
Qed.

End CombinedView.

(** An instance counts as completed exactly when every one of its split
    identities, one per trimmed comma-separated token of its requirement, is
    flagged in its project. *)
Lemma instance_completed_iff (flag : string -> string -> bool) (projectName : string)
    (item : Item) :
  instance_completed flag projectName item = true <->
  forall token, In token (map trim (split "," (requirement item))) ->
    flag projectName (generateItemId (name item) token) = true.
Proof. unfold instance_completed. apply forallb_forall. Qed.

(** The quest instances of an excluded name contribute nothing. *)
Lemma contributions_skip_quest (radix : option Z) (nonKeepable : gset string)
    (flag : string -> string -> bool) (ps : list (string * list Item)) (n : string) :
  n ∈ nonKeepable ->
  Forall (fun c => c_projectName c ≠ "Quest items")
         (contributions radix nonKeepable flag ps n).
Proof.
  intros Hn. unfold contributions. apply Forall_fmap, Forall_forall.
  intros [p item] Hin. apply list_elem_of_filter in Hin as [[Hname Hc] _].
  simpl in *. unfold counted in Hc. intros ->.
  rewrite Hname in Hc. rewrite !bool_decide_eq_true_2 in Hc by done. done.
Qed.




(** ** Further properties of the state store *)

Lemma split_no_sep (sep : ascii) (s : string) :
  has_char sep s = false -> split sep s = [s].
Proof.
  induction s as [|c s IH]; simpl; [done|].
  case_bool_decide; simpl; [done|].
  intros Hs. by rewrite IH.
Qed.

Lemma split_app_sep (sep : ascii) (p s : string) :
  has_char sep p = false ->
  split sep (p ++ String sep s) = p :: split sep s.
Proof.
  induction p as [|c p IH]; simpl.
  - intros _. by rewrite bool_decide_eq_true_2.
  - case_bool_decide; simpl; [done|].
    intros Hp. by rewrite IH.
Qed.

Lemma item_path_keys (projectName itemId : string) :
  has_char "." projectName = false ->
  has_char "." itemId = false ->
  split "." (projectName ++ "." ++ itemId) = [projectName; itemId].
Proof.
  intros Hp Hi.
  change (projectName ++ "." ++ itemId)%string
    with (projectName ++ String "." itemId)%string.
  by rewrite split_app_sep, split_no_sep.
Qed.

Lemma simple_name_inv (s : string) :
  simple_name s = true -> has_char "." s = false /\ own_only s = true.
Proof.
  unfold simple_name. intros [Hd Ho]%andb_true_iff.
  by apply negb_true_iff in Hd.
Qed.

Lemma store_lookup_simple (projectName itemId : string) :
  simple_name projectName = true -> simple_name itemId = true ->
  store_lookup projectName itemId = true.
Proof.
  intros [Hp Hpo]%simple_name_inv [Hi Hio]%simple_name_inv.
  unfold store_lookup, own_path. rewrite item_path_keys by done.
  simpl. by rewrite Hpo, Hio.
Qed.

(** The round trip of the specification, on the trees where [set] does not
    meet a [null], for a path that has no key [__proto__]: [set(path, v)]
    returns, and [get(path)] then returns [v], whatever the default.  Missing
    intermediate nodes are created and intermediate numbers, strings and
    booleans are overwritten. *)
Theorem set_then_get (stringify : value -> string) (path : string) (v d : value)
    (w : StateManager.World) (m : gmap string value) :
  StateManager.state w = VObj m ->
  no_null_inside (split "." path) (VObj m) ->
  "__proto__" ∉ split "." path ->
  exists w',
    StateManager.set stringify path v w = Ok w'
    /\ StateManager.get path d w' = Ok (Data v).
Proof.
  intros Hst Hnn Hp.
  destruct (set_returns stringify path v w m Hst Hnn Hp) as [w' Hw'].
  exists w'. split; [done|]. eapply set_get_roundtrip; [|done].
  intros Hlast. apply Hp. apply last_Some in Hlast as [l' ->].
  apply elem_of_app. right. by left.
Qed.

(** The scenario of the specification: [get("a.b.c", "fallback")] on an
    empty state, then [set("a.b.c", 5)]. *)
Lemma set_then_get_witness :
  let w := {| StateManager.state := VObj ∅;
              StateManager.listeners := ∅;
              StateManager.localStorage :=
                {| StateManager.items := ∅; StateManager.refuses := false |};
              StateManager.console := [];
              StateManager.called := [] |} in
  StateManager.get "a.b.c" (VStr "fallback") w = Ok (Data (VStr "fallback"))
  /\ StateManager.state w = VObj ∅
  /\ no_null_inside (split "." "a.b.c") (VObj ∅)
  /\ ("__proto__" ∉ split "." "a.b.c")
  /\ exists w',
       StateManager.set (fun _ => "{}") "a.b.c" (VNum 5) w = Ok w'
       /\ StateManager.get "a.b.c" (VStr "fallback") w' = Ok (Data (VNum 5)).
Proof.
  intros w.
  assert (Hp : "__proto__" ∉ split "." "a.b.c").
  { apply (bool_decide_unpack _). by vm_compute. }
  split; [reflexivity|]. split; [reflexivity|]. split; [exact I|]. split; [exact Hp|].
  apply (set_then_get (fun _ => "{}") "a.b.c" (VNum 5) (VStr "fallback") w ∅);
    [reflexivity|exact I|exact Hp].
Defined.

(** [toggle] twice: when both calls return, the value at the path is the
    original value as a boolean (an absent or falsy value reads [false]),
    unless the last key of the path is [__proto__]. *)
Theorem toggle_twice (stringify : value -> string) (path : string) (v0 : reached)
    (w w1 w2 : StateManager.World) :
  last (split "." path) ≠ Some "__proto__" ->
  StateManager.get path (VBool false) w = Ok v0 ->
  StateManager.toggle stringify path w = Ok w1 ->
  StateManager.toggle stringify path w1 = Ok w2 ->
  StateManager.get path (VBool false) w2 = Ok (Data (VBool (truthy_reached v0))).
Proof.
  unfold StateManager.toggle. intros Hlast Hget H1 H2.
  rewrite Hget in H1. cbn [mbind run_bind] in H1.
  pose proof (set_get_roundtrip _ _ _ (VBool false) _ _ Hlast H1) as Hget1.
  rewrite Hget1 in H2. cbn [mbind run_bind truthy_reached truthy] in H2.
  pose proof (set_get_roundtrip _ _ _ (VBool false) _ _ Hlast H2) as Hget2.
  rewrite Hget2. by rewrite negb_involutive.
Qed.

Lemma toggle_twice_witness :
  let w s := {| StateManager.state := VObj s;
                StateManager.listeners := ∅;
                StateManager.localStorage :=
                  {| StateManager.items := ∅; StateManager.refuses := true |};
                StateManager.console := [];
                StateManager.called := [] |} in
  let log1 := [StateManager.Warn "Could not save state:" QuotaExceededError] in
  let w1 := {| StateManager.state := VObj {[ "collapsed" := VObj {[ "g" := VBool true ]} ]};
               StateManager.listeners := ∅;
               StateManager.localStorage :=
                 {| StateManager.items := ∅; StateManager.refuses := true |};
               StateManager.console := log1;
               StateManager.called := [] |} in
  let w2 := {| StateManager.state := VObj {[ "collapsed" := VObj {[ "g" := VBool false ]} ]};
               StateManager.listeners := ∅;
               StateManager.localStorage :=
                 {| StateManager.items := ∅; StateManager.refuses := true |};
               StateManager.console := log1 ++ log1;
               StateManager.called := [] |} in
  last (split "." "collapsed.g") ≠ Some "__proto__"
  /\ StateManager.get "collapsed.g" (VBool false) (w ∅) = Ok (Data (VBool false))
  /\ StateManager.toggle (fun _ => "{}") "collapsed.g" (w ∅) = Ok w1
  /\ StateManager.toggle (fun _ => "{}") "collapsed.g" w1 = Ok w2
  /\ StateManager.get "collapsed.g" (VBool false) w2 = Ok (Data (VBool false)).
Proof.
  intros w log1 w1 w2.
  split; [discriminate|].
  split; [reflexivity|]. split; [reflexivity|]. split; [reflexivity|].
  apply (toggle_twice (fun _ => "{}") "collapsed.g" (Data (VBool false)) (w ∅) w1 w2);
    [discriminate|reflexivity|reflexivity|reflexivity].
Defined.

(** ** Identities *)

Lemma append_inj_l (p s1 s2 : string) : (p ++ s1 = p ++ s2)%string -> s1 = s2.
Proof.
  induction p as [|c p IH]; simpl; [done|].
  intros [= Heq]. by apply IH.
Qed.

(** Two copies of one item get the same identity exactly when their
    requirement tokens have the same slug. *)
Theorem generateItemId_same_name (itemName r1 r2 : string) :
  r1 ≠ "" -> r2 ≠ "" ->
  generateItemId itemName r1 = generateItemId itemName r2 <->
  generateGroupId r1 = generateGroupId r2.
Proof.
  intros H1 H2. unfold generateItemId, generateGroupId. simpl.
  rewrite !bool_decide_eq_false_2 by done. simpl.
  split.
  - intros Heq. apply append_inj_l in Heq. by injection Heq.
  - by intros ->.
Qed.

Lemma generateItemId_same_name_witness :
  "Station X" ≠ "" /\ "station x" ≠ "" /\
  (generateItemId "Battery Cell" "Station X" = generateItemId "Battery Cell" "station x" <->
   generateGroupId "Station X" = generateGroupId "station x")
  /\ generateItemId "Battery Cell" "Station X" = "battery-cell-station-x".
Proof.
  split; [discriminate|]. split; [discriminate|].
  split; [apply generateItemId_same_name; discriminate|reflexivity].
Defined.

(** * Further properties of the code *)

(** ** The state store: paths that part ways *)

Lemma diverge_cons_inv (keys1 keys2 : list string) :
  diverge keys1 keys2 = true ->
  exists k1 r1 k2 r2, keys1 = k1 :: r1 /\ keys2 = k2 :: r2.
Proof. destruct keys1, keys2; try done. eauto 6. Qed.

Lemma stored_at_empty (keys : list string) :
  keys ≠ [] -> stored_at keys (VObj ∅) = None.
Proof. by destruct keys. Qed.

(** What the final assignment of [set] gives back. *)
Lemma write_data_cases (current x : value) (key : string) (r : reached) :
  write (Data current) key x = Ok r ->
  r = Data current \/ exists m, current = VObj m /\ r = Data (VObj (<[key := x]> m)).
Proof.
  destruct current as [| |b|n|s|m]; cbn [write put_prop]; try done.
  - case_bool_decide; [|done]. intros [= <-]. by left.
  - case_bool_decide; [|done]. intros [= <-]. by left.
  - case_bool_decide; [|done]. intros [= <-]. by left.
  - unfold obj_put. destruct (_ && _).
    + destruct x; try done; intros [= <-]; by left.
    + intros [= <-]. right. eauto.
Qed.

(** The walk of [set] changes nothing but what its first key holds. *)
Lemma set_loop_first_key (key : string) (keys : list string) (current v : value)
    (r : reached) :
  StateManager.set_loop (key :: keys) (Data current) v = Ok r ->
  r = Data current
  \/ exists m x, current = VObj m /\ r = Data (VObj (<[key := x]> m)).
Proof.
  destruct keys as [|key' keys].
  - intros [->|(m & -> & ->)]%write_data_cases; eauto.
  - intros Hset. destruct (set_loop_from_object _ _ _ _ _ _ Hset) as [m ->].
    apply set_loop_step in Hset as (child' & _ & _ & ->). eauto.
Qed.

(** The walk of [set] leaves what is stored along a diverging key sequence
    as it was. *)
Lemma set_loop_frame (keys1 keys2 : list string) (current v s : value) :
  diverge keys1 keys2 = true ->
  StateManager.set_loop keys1 (Data current) v = Ok (Data s) ->
  stored_at keys2 s = stored_at keys2 current.
Proof.
  revert keys2 current s.
  induction keys1 as [|k1 r1 IH]; intros keys2 current s Hdiv Hset; [done|].
  destruct keys2 as [|k2 r2]; [done|].
  simpl in Hdiv. case_bool_decide as Hk.
  - subst k2.
    destruct (diverge_cons_inv _ _ Hdiv) as (k1' & r1' & k2' & r2' & -> & ->).
    destruct (set_loop_from_object _ _ _ _ _ _ Hset) as [m ->].
    apply set_loop_step in Hset as (child' & Hchild & _ & [= ->]).
    change (stored_at (k1 :: k2' :: r2') (VObj (<[k1:=child']> m)))
      with (<[k1:=child']> m !! k1 ≫= stored_at (k2' :: r2')).
    change (stored_at (k1 :: k2' :: r2') (VObj m))
      with (m !! k1 ≫= stored_at (k2' :: r2')).
    rewrite lookup_insert_eq.
    change (Some child' ≫= stored_at (k2' :: r2')) with (stored_at (k2' :: r2') child').
    rewrite (IH _ _ _ Hdiv Hchild). unfold below.
    by destruct (m !! k1) as [[| |b|n|str|m0]|] eqn:Hm.
  - apply set_loop_first_key in Hset as [[= ->]|(m & x & -> & [= ->])]; [done|].
    simpl. by rewrite lookup_insert_ne.
Qed.

(** It leaves what [get] finds under another first key as it was, whatever
    the keys are. *)
Lemma set_loop_other_key (k1 k2 : string) (r1 r2 : list string) (current v d : value)
    (r : reached) :
  k1 ≠ k2 ->
  StateManager.set_loop (k1 :: r1) (Data current) v = Ok r ->
  StateManager.get_loop (k2 :: r2) r d = StateManager.get_loop (k2 :: r2) (Data current) d.
Proof.
  intros Hne [->|(m & x & -> & ->)]%set_loop_first_key; [done|].
  cbn [StateManager.get_loop truthy_reached truthy typeof_reached typeof].
  rewrite !has_object. rewrite lookup_insert_ne by done.
  destruct (_ || _); [|done]. cbn [mbind run_bind read get_prop].
  by rewrite lookup_insert_ne.
Qed.

Lemma set_get_frame (stringify : value -> string) (path1 path2 : string) (v d : value)
    (w w' : StateManager.World) :
  diverge (split "." path1) (split "." path2) = true ->
  own_path path2 = true ->
  StateManager.set stringify path1 v w = Ok w' ->
  StateManager.get path2 d w' = StateManager.get path2 d w.
Proof.
  intros Hdiv Hown Hset%set_state.
  rewrite !get_stored by done. by rewrite (set_loop_frame _ _ _ _ _ Hdiv Hset).
Qed.

(** [set(path1, v)], when it returns, does not change what [get(path2, d)]
    returns when the two paths part ways at some key and no key of [path2] is
    the name of a member of [Object.prototype]. *)
Theorem set_frame (stringify : value -> string) (path1 path2 : string) (v d : value)
    (w w' : StateManager.World) :
  diverge (split "." path1) (split "." path2) = true ->
  own_path path2 = true ->
  StateManager.set stringify path1 v w = Ok w' ->
  StateManager.get path2 d w' = StateManager.get path2 d w.
Proof. apply set_get_frame. Qed.

Lemma set_frame_witness :
  let w := {| StateManager.state :=
                VObj {[ "Quest items" := VObj {[ "wires" := VBool true ]};
                        "Workshop items" := VNum 3 ]};
              StateManager.listeners := ∅;
              StateManager.localStorage :=
                {| StateManager.items := ∅; StateManager.refuses := false |};
              StateManager.console := [];
              StateManager.called := [] |} in
  diverge (split "." "Workshop items.wires") (split "." "Quest items.wires") = true
  /\ own_path "Quest items.wires" = true
  /\ StateManager.set (fun _ => "{}") "__proto__.wires" (VBool true) w = Leaves WritesHost
  /\ exists w',
       StateManager.set (fun _ => "{}") "Workshop items.wires" (VBool true) w = Ok w'
       /\ StateManager.get "Quest items.wires" (VBool false) w'
          = StateManager.get "Quest items.wires" (VBool false) w
       /\ StateManager.get "Quest items.wires" (VBool false) w' = Ok (Data (VBool true)).
Proof.
  intros w. split; [reflexivity|]. split; [reflexivity|]. split; [reflexivity|].
  eexists. split; [reflexivity|].
  split; [|reflexivity].
  apply (set_frame (fun _ => "{}") "Workshop items.wires" "Quest items.wires"
           (VBool true) (VBool false) w); reflexivity.
Defined.

(** ** The state store: completion flags *)

Lemma store_flag_get (projectName itemId : string) (w : StateManager.World) (r : reached) :
  store_lookup projectName itemId = true ->
  StateManager.get (projectName ++ "." ++ itemId) (VBool false) w = Ok r ->
  store_flag w projectName itemId = truthy_reached r.
Proof.
  intros Hl. unfold store_flag. rewrite get_stored by done.
  intros [= <-]. by destruct (stored_at _ _).
Qed.

Lemma store_flag_frame (stringify : value -> string) (path : string) (v : value)
    (projectName itemId : string) (w w' : StateManager.World) :
  diverge (split "." path) (split "." (projectName ++ "." ++ itemId)) = true ->
  StateManager.set stringify path v w = Ok w' ->
  store_flag w' projectName itemId = store_flag w projectName itemId.
Proof.
  intros Hdiv Hset%set_state. unfold store_flag.
  by rewrite (set_loop_frame _ _ _ _ _ Hdiv Hset).
Qed.

(** [toggleItem(projectName, itemId)], when it returns, negates the flag of
    [(projectName, itemId)], for names without a dot that are not names of
    members of [Object.prototype], and leaves the flag of every other pair of
    names without a dot as it was. *)
Theorem toggleItem_flips_one_flag (stringify : value -> string)
    (projectName itemId otherProject otherId : string) (w w' : StateManager.World) :
  simple_name projectName = true -> simple_name itemId = true ->
  has_char "." otherProject = false -> has_char "." otherId = false ->
  StateManager.toggleItem stringify projectName itemId w = Ok w' ->
  store_flag w' projectName itemId = negb (store_flag w projectName itemId)
  /\ ((otherProject, otherId) ≠ (projectName, itemId) ->
      store_flag w' otherProject otherId = store_flag w otherProject otherId).
Proof.
  intros Hp Hi Hp' Hi'.
  pose proof (store_lookup_simple _ _ Hp Hi) as Hl.
  destruct (simple_name_inv _ Hp) as [Hpd Hpo].
  destruct (simple_name_inv _ Hi) as [Hid Hio].
  unfold StateManager.toggleItem, StateManager.toggle.
  intros (v0 & Hget & Hset)%bind_Ok_inv. split.
  - rewrite (store_flag_get _ _ _ _ Hl Hget).
    apply (store_flag_get _ _ _ (Data (VBool (negb (truthy_reached v0)))) Hl).
    eapply set_get_roundtrip; [|exact Hset].
    rewrite item_path_keys by done. simpl. intros [= ->]. by vm_compute in Hio.
  - intros Hne. eapply store_flag_frame; [|exact Hset].
    rewrite !item_path_keys by done. simpl.
    case_bool_decide; [|done]. case_bool_decide; [|done]. congruence.
Qed.

Lemma toggleItem_flips_one_flag_witness :
  let w := {| StateManager.state :=
                VObj {[ "Quest items" := VObj {[ "wires" := VBool true ]} ]};
              StateManager.listeners := ∅;
              StateManager.localStorage :=
                {| StateManager.items := ∅; StateManager.refuses := false |};
              StateManager.console := [];
              StateManager.called := [] |} in
  simple_name "Quest items" = true /\ simple_name "flag" = true
  /\ exists w',
       StateManager.toggleItem (fun _ => "{}") "Quest items" "flag" w = Ok w'
       /\ store_flag w' "Quest items" "flag" = true
       /\ store_flag w' "Quest items" "wires" = true.
Proof.
  intros w. split; [reflexivity|]. split; [reflexivity|].
  set (w1 :=
    {| StateManager.state :=
         VObj {[ "Quest items" := VObj (<[ "flag" := VBool true ]>
                                          {[ "wires" := VBool true ]}) ]};
       StateManager.listeners := ∅;
       StateManager.localStorage :=
         {| StateManager.items := {[ StateManager.state_key := "{}" ]};
            StateManager.refuses := false |};
       StateManager.console := [];
       StateManager.called := [] |}).
  assert (Hw : StateManager.toggleItem (fun _ => "{}") "Quest items" "flag" w = Ok w1)
    by reflexivity.
  exists w1. split; [exact Hw|].
  destruct (toggleItem_flips_one_flag (fun _ => "{}") "Quest items" "flag"
              "Quest items" "wires" w w1 eq_refl eq_refl eq_refl eq_refl Hw)
    as [Hflip Hframe].
  split; [exact Hflip|]. rewrite Hframe; [reflexivity|discriminate].
Defined.

(** ** The state store: group flags and item flags *)

Lemma collapsed_path_diverges (groupId projectName itemId : string) :
  has_char "." projectName = false -> projectName ≠ "collapsed" ->
  exists r1 r2,
    split "." ("collapsed." ++ groupId) = "collapsed" :: r1
    /\ split "." (projectName ++ "." ++ itemId) = projectName :: r2
    /\ diverge (split "." ("collapsed." ++ groupId))
               (split "." (projectName ++ "." ++ itemId)) = true.
Proof.
  intros Hp Hne.
  change ("collapsed." ++ groupId)%string
    with ("collapsed" ++ String "." groupId)%string.
  change (projectName ++ "." ++ itemId)%string
    with (projectName ++ String "." itemId)%string.
  rewrite !split_app_sep by done. do 2 eexists. split; [done|]. split; [done|].
  simpl. by rewrite bool_decide_eq_false_2.
Qed.

(** The collapse flags of the groups and the completion flags of the items
    do not interfere, for a project whose name has no dot and is not
    [collapsed]: when [setGroupCollapsed] or [toggleGroupCollapse] returns,
    every completion flag of the project is as before, and when
    [setItemCompleted] returns, [isGroupCollapsed] gives for every group what
    it gave before. *)
Theorem group_flags_and_item_flags (stringify : value -> string)
    (groupId projectName itemId : string) (v : value) (w w' : StateManager.World) :
  has_char "." projectName = false -> projectName ≠ "collapsed" ->
  (StateManager.setGroupCollapsed stringify groupId v w = Ok w' ->
   store_flag w' projectName itemId = store_flag w projectName itemId)
  /\ (StateManager.toggleGroupCollapse stringify groupId w = Ok w' ->
      store_flag w' projectName itemId = store_flag w projectName itemId)
  /\ (StateManager.setItemCompleted stringify projectName itemId v w = Ok w' ->
      StateManager.isGroupCollapsed groupId w' = StateManager.isGroupCollapsed groupId w).
Proof.
  intros Hp Hne.
  destruct (collapsed_path_diverges groupId projectName itemId Hp Hne)
    as (r1 & r2 & Hk1 & Hk2 & Hdiv).
  split; [|split].
  - unfold StateManager.setGroupCollapsed. intros Hset.
    by eapply store_flag_frame.
  - unfold StateManager.toggleGroupCollapse, StateManager.toggle.
    intros (v0 & _ & Hset)%bind_Ok_inv.
    by eapply store_flag_frame.
  - unfold StateManager.setItemCompleted, StateManager.isGroupCollapsed, StateManager.get.
    intros Hset%set_state. rewrite Hk2 in Hset. rewrite Hk1.
    by eapply set_loop_other_key.
Qed.

Lemma group_flags_and_item_flags_witness :
  let w := {| StateManager.state :=
                VObj {[ "Quest items" := VObj {[ "wires" := VBool true ]};
                        "collapsed" := VObj ∅ ]};
              StateManager.listeners := ∅;
              StateManager.localStorage :=
                {| StateManager.items := ∅; StateManager.refuses := false |};
              StateManager.console := [];
              StateManager.called := [] |} in
  has_char "." "Quest items" = false
  /\ StateManager.setItemCompleted (fun _ => "{}") "__proto__" "gear-bench" (VBool true) w
     = Leaves WritesHost
  /\ exists w',
       StateManager.toggleGroupCollapse (fun _ => "{}") "gear-bench" w = Ok w'
       /\ StateManager.isGroupCollapsed "gear-bench" w' = Ok (Data (VBool true))
       /\ store_flag w' "Quest items" "wires" = store_flag w "Quest items" "wires".
Proof.
  intros w. split; [reflexivity|]. split; [reflexivity|].
  destruct (StateManager.toggleGroupCollapse (fun _ => "{}") "gear-bench" w)
    as [[w1|e]|d] eqn:Hw; [|by vm_compute in Hw|by vm_compute in Hw].
  exists w1. split; [reflexivity|].
  split; [vm_compute in Hw; by injection Hw as <-|].
  apply (group_flags_and_item_flags (fun _ => "{}") "gear-bench" "Quest items" "wires"
           VUndef w w1); [reflexivity|discriminate|exact Hw].
Defined.

(** ** The state store: listeners *)

Lemma set_called (stringify : value -> string) (path : string) (v : value)
    (w w' : StateManager.World) :
  StateManager.set stringify path v w = Ok w' ->
  StateManager.called w' =
  StateManager.called w ++
  map (fun l => (StateManager.lid l, path, v))
      (default [] (StateManager.listeners w !! path)).
Proof.
  intros (s & _ & ->)%set_inv.
  by rewrite notifyListeners_called, saveState_called, saveState_listeners.
Qed.

Lemma addListener_lookup (path : string) (l : StateManager.Listener)
    (w : StateManager.World) :
  StateManager.listeners (StateManager.addListener path l w) !! path =
  Some (let old := default [] (StateManager.listeners w !! path) in
        if bool_decide (StateManager.lid l ∈ map StateManager.lid old)
        then old else old ++ [l]).
Proof. unfold StateManager.addListener. simpl. by rewrite lookup_insert_eq. Qed.

Lemma addListener_distinct (path : string) (l : StateManager.Listener)
    (w : StateManager.World) :
  distinct_listeners w -> distinct_listeners (StateManager.addListener path l w).
Proof.
  intros Hd path' ls. unfold StateManager.addListener. simpl.
  destruct (decide (path' = path)) as [->|Hne].
  - rewrite lookup_insert_eq. intros [= <-].
    assert (Hold : NoDup (map StateManager.lid
                            (default [] (StateManager.listeners w !! path)))).
    { destruct (StateManager.listeners w !! path) as [old|] eqn:Hold; simpl.
      - by eapply Hd.
      - constructor. }
    case_bool_decide as Hin; [done|].
    rewrite map_app. simpl. apply NoDup_app. split; [done|].
    split; [|apply NoDup_singleton].
    intros x Hx Hx'. apply list_elem_of_singleton in Hx'. by subst x.
  - rewrite lookup_insert_ne by done. apply Hd.
Qed.

Lemma addListener_lid_in (path : string) (l : StateManager.Listener)
    (w : StateManager.World) :
  StateManager.lid l ∈
  map StateManager.lid
      (default [] (StateManager.listeners (StateManager.addListener path l w) !! path)).
Proof.
  rewrite addListener_lookup. simpl.
  case_bool_decide; [done|]. rewrite map_app. set_solver.
Qed.

(** A callback added twice for a path is called once by a [set] on that
    path: the set of the path holds each function object once. *)
Theorem addListener_called_once (stringify : value -> string) (path : string)
    (l : StateManager.Listener) (v : value) (w w' : StateManager.World) :
  distinct_listeners w ->
  StateManager.set stringify path v
    (StateManager.addListener path l (StateManager.addListener path l w)) = Ok w' ->
  exists calls,
    StateManager.called w' = StateManager.called w ++ calls
    /\ NoDup calls
    /\ (StateManager.lid l, path, v) ∈ calls.
Proof.
  intros Hd Hset. apply set_called in Hset.
  set (w1 := StateManager.addListener path l w) in *.
  pose proof (addListener_lid_in path l w1) as Hin.
  assert (Hd2 : distinct_listeners (StateManager.addListener path l w1))
    by (by do 2 apply addListener_distinct).
  eexists. split; [exact Hset|].
  destruct (StateManager.listeners (StateManager.addListener path l w1) !! path)
    as [ls|] eqn:Hls; simpl in *.
  - split.
    + apply (NoDup_fmap_1 (fun c : nat * string * value => c.1.1)).
      rewrite <- list_fmap_compose. by apply (Hd2 path).
    + apply list_elem_of_fmap in Hin as (l0 & Hid & Hl0).
      apply list_elem_of_fmap. exists l0. by rewrite Hid.
  - by apply not_elem_of_nil in Hin.
Qed.

Lemma addListener_called_once_witness :
  let l := {| StateManager.lid := 7; StateManager.callback := fun _ _ => Ok tt |} in
  let w := {| StateManager.state := VObj ∅;
              StateManager.listeners := ∅;
              StateManager.localStorage :=
                {| StateManager.items := ∅; StateManager.refuses := false |};
              StateManager.console := [];
              StateManager.called := [] |} in
  distinct_listeners w
  /\ exists w',
       StateManager.set (fun _ => "{}") "theme" (VStr "dark")
         (StateManager.addListener "theme" l (StateManager.addListener "theme" l w)) = Ok w'
       /\ exists calls,
            StateManager.called w' = StateManager.called w ++ calls
            /\ NoDup calls
            /\ (StateManager.lid l, "theme", VStr "dark") ∈ calls.
Proof.
  intros l w.
  assert (Hd : distinct_listeners w).
  { intros path ls Hls. simpl in Hls. by rewrite lookup_empty in Hls. }
  split; [exact Hd|].
  eexists. split; [reflexivity|].
  apply (addListener_called_once (fun _ => "{}") "theme" l (VStr "dark") w _ Hd).
  reflexivity.
Defined.

(** After [removeListener(path, callback)] a [set] on the path no longer
    calls the callback. *)
Theorem removeListener_not_called (stringify : value -> string) (path : string)
    (l : StateManager.Listener) (v : value) (w w' : StateManager.World) :
  StateManager.set stringify path v (StateManager.removeListener path l w) = Ok w' ->
  exists calls,
    StateManager.called w' = StateManager.called w ++ calls
    /\ forall p x, (StateManager.lid l, p, x) ∉ calls.
Proof.
  intros Hset. apply set_called in Hset.
  assert (Hc : StateManager.called (StateManager.removeListener path l w)
               = StateManager.called w).
  { unfold StateManager.removeListener. by destruct (StateManager.listeners w !! path). }
  rewrite Hc in Hset. eexists. split; [exact Hset|].
  intros p x Hin. apply list_elem_of_fmap in Hin as (l' & Heq & Hl').
  injection Heq as Hid _ _.
  unfold StateManager.removeListener in Hl'.
  destruct (StateManager.listeners w !! path) as [ls|] eqn:Hls.
  - simpl in Hl'. rewrite lookup_insert_eq in Hl'. simpl in Hl'.
    apply list_elem_of_filter in Hl' as [Hne _]. by apply Hne.
  - rewrite Hls in Hl'. simpl in Hl'. by apply not_elem_of_nil in Hl'.
Qed.

Lemma removeListener_not_called_witness :
  let l := {| StateManager.lid := 7; StateManager.callback := fun _ _ => Ok tt |} in
  let l' := {| StateManager.lid := 8; StateManager.callback := fun _ _ => Ok tt |} in
  let w := {| StateManager.state := VObj ∅;
              StateManager.listeners := {[ "theme" := [l; l'] ]};
              StateManager.localStorage :=
                {| StateManager.items := ∅; StateManager.refuses := false |};
              StateManager.console := [];
              StateManager.called := [] |} in
  exists w',
    StateManager.set (fun _ => "{}") "theme" (VStr "dark")
      (StateManager.removeListener "theme" l w) = Ok w'
    /\ StateManager.called w' = [(8%nat, "theme", VStr "dark")]
    /\ exists calls,
         StateManager.called w' = StateManager.called w ++ calls
         /\ forall p x, (StateManager.lid l, p, x) ∉ calls.
Proof.
  intros l l' w. eexists. split; [reflexivity|]. split; [reflexivity|].
  apply (removeListener_not_called (fun _ => "{}") "theme" l (VStr "dark") w).
  reflexivity.
Defined.

(** ** The state store: theme and reload *)

(** [setTheme] writes the theme twice, to the state (and its blob) and to
    the theme key.  When the storage takes writes both copies agree
    afterwards; when it refuses them [setTheme] throws, the second write
    being outside any [try]. *)
Theorem setTheme_two_writes (stringify : value -> string) (theme : string)
    (w : StateManager.World) (m : gmap string value) :
  StateManager.state w = VObj m ->
  if StateManager.refuses (StateManager.localStorage w)
  then StateManager.setTheme stringify theme w = Throw QuotaExceededError
  else exists w',
      StateManager.setTheme stringify theme w = Ok w'
      /\ StateManager.getTheme w' = Ok (Data (VStr theme))
      /\ StateManager.getItem StateManager.theme_key (StateManager.localStorage w')
         = Some theme
      /\ StateManager.getItem StateManager.state_key (StateManager.localStorage w')
         = Some (stringify (VObj (<["theme" := VStr theme]> m))).
Proof.
  intros Hst. unfold StateManager.setTheme.
  assert (Hloop : StateManager.set_loop (split "." "theme") (Data (StateManager.state w))
                    (VStr theme) = Ok (Data (VObj (<["theme" := VStr theme]> m)))).
  { rewrite Hst. apply write_object. by left. }
  rewrite (set_of_loop stringify "theme" (VStr theme) _ w Hloop).
  cbn [mbind run_bind]. rewrite notifyListeners_storage.
  unfold StateManager.saveState, StateManager.setItem. simpl.
  destruct (StateManager.refuses (StateManager.localStorage w)) eqn:Href; simpl.
  - by rewrite ?Href.
  - rewrite ?Href. simpl. eexists. split; [done|].
    split.
    { unfold StateManager.getTheme, StateManager.get.
      cbn [StateManager.state StateManager.with_storage]. rewrite notifyListeners_state.
      change (split "." "theme") with ["theme"].
      cbn [StateManager.state StateManager.with_state StateManager.with_storage].
      by rewrite (get_loop_found "theme" [] _ (VStr theme)) by apply lookup_insert_eq. }
    unfold StateManager.getItem. simpl.
    rewrite !lookup_insert_eq. split; [done|].
    by rewrite lookup_insert_ne, lookup_insert_eq.
Qed.

Lemma setTheme_two_writes_witness :
  let w r := {| StateManager.state := VObj {[ "theme" := VStr "light" ]};
                StateManager.listeners := ∅;
                StateManager.localStorage :=
                  {| StateManager.items := ∅; StateManager.refuses := r |};
                StateManager.console := [];
                StateManager.called := [] |} in
  StateManager.state (w true) = VObj {[ "theme" := VStr "light" ]}
  /\ StateManager.setTheme (fun _ => "{}") "dark" (w true) = Throw QuotaExceededError
  /\ exists w',
       StateManager.setTheme (fun _ => "{}") "dark" (w false) = Ok w'
       /\ StateManager.getTheme w' = Ok (Data (VStr "dark")).
Proof.
  intros w. split; [reflexivity|]. split.
  - exact (setTheme_two_writes (fun _ => "{}") "dark" (w true) _ eq_refl).
  - destruct (setTheme_two_writes (fun _ => "{}") "dark" (w false) _ eq_refl)
      as (w' & Hw' & Hth & _).
    exists w'. by split.
Defined.

Lemma pretty_N_go_digit_first (x : N) (s : string) :
  (forall c, first_char s = Some c -> is_digit c = true) ->
  forall c, first_char (pretty_N_go x s) = Some c -> is_digit c = true.
Proof.
  revert s. induction (N.lt_wf_0 x) as [x _ IH]; intros s Hs.
  assert (x = 0 \/ 0 < x)%N as [->|Hx] by lia.
  - by rewrite pretty_N_go_0.
  - rewrite pretty_N_go_step by done. apply IH.
    { by apply N.div_lt. }
    simpl. intros c [= <-]. unfold pretty_N_char. by repeat case_match.
Qed.

Lemma pretty_nat_digit_first (i : nat) (c : ascii) :
  first_char (pretty i) = Some c -> is_digit c = true.
Proof.
  unfold pretty, pretty_nat, pretty, pretty_N.
  case_decide.
  - by intros [= <-].
  - by apply pretty_N_go_digit_first.
Qed.

(** A string has no property of its own named by a word that starts with a
    letter, [length] apart. *)
Lemma string_prop_word (s key : string) (c : ascii) :
  key ≠ "length" -> first_char key = Some c -> is_digit c = false ->
  string_prop s key = VUndef.
Proof.
  intros Hlen Hc Hd. unfold string_prop.
  rewrite bool_decide_eq_false_2 by done.
  destruct (List.find _ _) as [i|] eqn:Hfind; [|done].
  apply find_some in Hfind as [_ Hi]. apply bool_decide_eq_true_1 in Hi.
  rewrite <- Hi in Hc. apply pretty_nat_digit_first in Hc. congruence.
Qed.

Lemma put_prop_insert (key : string) (m : gmap string value) (x : value) :
  key ≠ "__proto__" -> put_prop (VObj m) key x = Ok (VObj (<[key := x]> m)).
Proof. intros Hk. cbn [put_prop]. by rewrite obj_put_insert by (by left). Qed.

(** No primitive has a member named [collapsed]. *)
Lemma collapsed_of_primitive (v : value) :
  (forall m, v ≠ VObj m) ->
  get_prop v "collapsed" = Throw TypeError
  \/ get_prop v "collapsed" = Ok (Data VUndef) /\ put_prop v "collapsed" (VObj ∅) = Throw TypeError.
Proof.
  intros Hv. destruct v as [| |b|n|s|m]; try (by left); try (by right).
  - right. split; [|done]. unfold get_prop.
    by rewrite (string_prop_word s "collapsed" "c").
  - by destruct (Hv m).
Qed.

(** [initializeStateStructure] returns exactly on objects, and leaves a
    truthy [collapsed] and a truthy [theme]. *)
Lemma initializeStateStructure_object (w : StateManager.World) :
  match StateManager.state w with
  | VObj _ =>
      exists w', StateManager.initializeStateStructure w = Ok w'
                 /\ has_structure (StateManager.state w') = true
                 /\ StateManager.console w' = StateManager.console w
                 /\ StateManager.localStorage w' = StateManager.localStorage w
  | _ => StateManager.initializeStateStructure w = Throw TypeError
  end.
Proof.
  unfold StateManager.initializeStateStructure.
  destruct (StateManager.state w) as [| |b|n|s|m] eqn:Hst; try done.
  - destruct (collapsed_of_primitive (VStr s)) as [Hc|[Hc Hp]]; [done| |];
      rewrite Hc; [done|]. cbn [mbind run_bind truthy_reached truthy negb].
    by rewrite Hp.
  - rewrite (get_prop_own "collapsed") by done.
    rewrite (put_prop_insert "collapsed") by done.
    cbn [mbind run_bind truthy_reached].
    destruct (truthy (default VUndef (m !! "collapsed"))) eqn:Hc;
      cbn [negb mbind run_bind ret].
    + rewrite (get_prop_own "theme") by done. cbn [mbind run_bind truthy_reached].
      destruct (truthy (default VUndef (m !! "theme"))) eqn:Ht; cbn [negb mbind run_bind ret].
      * eexists. split; [done|]. simpl. by rewrite Hc, Ht.
      * rewrite (put_prop_insert "theme") by done. cbn [mbind run_bind].
        eexists. split; [done|]. simpl.
        rewrite lookup_insert_eq, lookup_insert_ne, Hc by done. simpl.
        destruct (StateManager.getItem _ _) as [t|]; simpl; [|done].
        by destruct (negb (bool_decide (t = ""))) eqn:Hne; simpl; rewrite ?Hne.
    + rewrite (get_prop_own "theme") by done. cbn [mbind run_bind truthy_reached].
      rewrite lookup_insert_ne by done.
      destruct (truthy (default VUndef (m !! "theme"))) eqn:Ht; cbn [negb mbind run_bind ret].
      * eexists. split; [done|]. simpl.
        by rewrite lookup_insert_eq, lookup_insert_ne, Ht.
      * rewrite (put_prop_insert "theme") by done. cbn [mbind run_bind].
        eexists. split; [done|]. simpl.
        rewrite lookup_insert_eq, lookup_insert_ne by done.
        rewrite lookup_insert_eq. simpl.
        destruct (StateManager.getItem _ _) as [t|]; simpl; [|done].
        by destruct (negb (bool_decide (t = ""))) eqn:Hne; simpl; rewrite ?Hne.
Qed.

(** Whenever [loadState] returns, the state is an object with a truthy
    [collapsed] and a truthy [theme]. *)
Theorem loadState_structure (parse : string -> result value) (w w' : StateManager.World) :
  StateManager.loadState parse w = Ok w' ->
  has_structure (StateManager.state w') = true.
Proof.
  unfold StateManager.loadState.
  set (w1 := match StateManager.getItem _ _ with Some _ => _ | None => _ end).
  pose proof (initializeStateStructure_object w1) as Hinit.
  destruct (StateManager.state w1); try (rewrite Hinit; done).
  destruct Hinit as (w2 & -> & Hs & _). by intros [= <-].
Qed.

Lemma loadState_structure_witness :
  let w := {| StateManager.state := VObj ∅;
              StateManager.listeners := ∅;
              StateManager.localStorage :=
                {| StateManager.items := {[ StateManager.theme_key := "dark" ]};
                   StateManager.refuses := false |};
              StateManager.console := [];
              StateManager.called := [] |} in
  exists w',
    StateManager.loadState (fun _ => Throw TypeError) w = Ok w'
    /\ StateManager.state w' = VObj {[ "collapsed" := VObj ∅; "theme" := VStr "dark" ]}
    /\ has_structure (StateManager.state w') = true.
Proof.
  intros w. eexists. split; [reflexivity|]. split; [reflexivity|].
  apply (loadState_structure (fun _ => Throw TypeError) w). reflexivity.
Defined.

(** A stored blob that does not parse never makes [loadState] throw: the
    failure is logged and the state restarts from the defaults. *)
Theorem loadState_corrupt_blob (parse : string -> result value) (saved : string) (e : exn)
    (w : StateManager.World) :
  StateManager.getItem StateManager.state_key (StateManager.localStorage w) = Some saved ->
  saved ≠ "" ->
  parse saved = Throw e ->
  exists w',
    StateManager.loadState parse w = Ok w'
    /\ StateManager.state w' =
       VObj {[ "collapsed" := VObj ∅;
               "theme" := VStr (match StateManager.getItem StateManager.theme_key
                                        (StateManager.localStorage w) with
                                | Some t => if bool_decide (t = "") then "light" else t
                                | None => "light"
                                end) ]}
    /\ StateManager.console w' =
       StateManager.console w ++ [StateManager.Warn "Could not load saved state:" e].
Proof.
  intros Hsaved Hne Hparse. unfold StateManager.loadState.
  rewrite Hsaved. simpl. rewrite bool_decide_eq_false_2 by done. simpl.
  rewrite Hparse. unfold StateManager.initializeStateStructure. simpl.
  eexists. split; [done|]. simpl. split; [|done].
  f_equal. rewrite <- insert_empty, (insert_insert_ne _ "collapsed" "theme") by done.
  f_equal. f_equal.
  destruct (StateManager.getItem StateManager.theme_key (StateManager.localStorage w))
    as [t|]; simpl; [|done].
  by destruct (bool_decide (t = "")).
Qed.

Lemma loadState_corrupt_blob_witness :
  let w := {| StateManager.state := VObj ∅;
              StateManager.listeners := ∅;
              StateManager.localStorage :=
                {| StateManager.items := {[ StateManager.state_key := "{oops" ]};
                   StateManager.refuses := false |};
              StateManager.console := [];
              StateManager.called := [] |} in
  StateManager.getItem StateManager.state_key (StateManager.localStorage w) = Some "{oops"
  /\ "{oops" ≠ ""
  /\ exists w',
       StateManager.loadState (fun _ => Throw TypeError) w = Ok w'
       /\ StateManager.state w' = VObj {[ "collapsed" := VObj ∅; "theme" := VStr "light" ]}
       /\ StateManager.console w' =
          StateManager.console w
          ++ [StateManager.Warn "Could not load saved state:" TypeError].
Proof.
  intros w. split; [reflexivity|]. split; [discriminate|].
  apply (loadState_corrupt_blob (fun _ => Throw TypeError) "{oops" TypeError w);
    [reflexivity|discriminate|reflexivity].
Defined.

(** A stored blob that parses to something that is not an object ([null],
    a number, a string, a boolean) makes [loadState] throw a TypeError: the
    initialization of the structure is outside the [try]. *)
Theorem loadState_non_object_blob (parse : string -> result value) (saved : string)
    (v : value) (w : StateManager.World) :
  StateManager.getItem StateManager.state_key (StateManager.localStorage w) = Some saved ->
  saved ≠ "" ->
  parse saved = Ok v ->
  typeof v ≠ TObject \/ v = VNull ->
  StateManager.loadState parse w = Throw TypeError.
Proof.
  intros Hsaved Hne Hparse Hv. unfold StateManager.loadState.
  rewrite Hsaved. simpl. rewrite bool_decide_eq_false_2 by done. simpl.
  rewrite Hparse.
  pose proof (initializeStateStructure_object (StateManager.with_state w v)) as Hinit.
  simpl in Hinit. destruct v; try done. by destruct Hv.
Qed.

Lemma loadState_non_object_blob_witness :
  let w := {| StateManager.state := VObj ∅;
              StateManager.listeners := ∅;
              StateManager.localStorage :=
                {| StateManager.items := {[ StateManager.state_key := "null" ]};
                   StateManager.refuses := false |};
              StateManager.console := [];
              StateManager.called := [] |} in
  let parse s := if String.eqb s "null" then Ok VNull else Throw TypeError in
  StateManager.getItem StateManager.state_key (StateManager.localStorage w) = Some "null"
  /\ "null" ≠ ""
  /\ parse "null" = Ok VNull
  /\ StateManager.loadState parse w = Throw TypeError.
Proof.
  intros w parse. split; [reflexivity|]. split; [discriminate|]. split; [reflexivity|].
  apply (loadState_non_object_blob parse "null" VNull w);
    [reflexivity|discriminate|reflexivity|by right].
Defined.

(** What [saveState] wrote is what a fresh instance loads: on a storage
    that takes writes, for a state that has its structure and that
    [JSON.parse] reads back from its [JSON.stringify]. *)
Theorem saveState_loadState (stringify : value -> string)
    (parse : string -> result value) (w : StateManager.World) :
  StateManager.refuses (StateManager.localStorage w) = false ->
  has_structure (StateManager.state w) = true ->
  stringify (StateManager.state w) ≠ "" ->
  parse (stringify (StateManager.state w)) = Ok (StateManager.state w) ->
  exists w',
    StateManager.loadState parse
      (StateManager.with_state (StateManager.saveState stringify w) (VObj ∅)) = Ok w'
    /\ StateManager.state w' = StateManager.state w.
Proof.
  intros Href Hs Hne Hparse.
  unfold StateManager.loadState, StateManager.saveState, StateManager.setItem.
  rewrite Href. unfold StateManager.getItem. simpl. rewrite lookup_insert_eq. simpl.
  rewrite bool_decide_eq_false_2 by done. simpl. rewrite Hparse.
  unfold StateManager.initializeStateStructure. cbn [StateManager.state StateManager.with_state].
  destruct (StateManager.state w) as [| |b|n|s|m]; try done.
  simpl in Hs. apply andb_true_iff in Hs as [Hc Ht].
  rewrite (get_prop_own "collapsed") by done. cbn [mbind run_bind truthy_reached].
  rewrite Hc. cbn [negb mbind run_bind ret].
  rewrite (get_prop_own "theme") by done. cbn [mbind run_bind truthy_reached].
  rewrite Ht. cbn [negb mbind run_bind ret]. eauto.
Qed.

Lemma saveState_loadState_witness :
  let s := VObj {[ "collapsed" := VObj ∅; "theme" := VStr "dark";
                   "Quest items" := VObj {[ "wires" := VBool true ]} ]} in
  let w := {| StateManager.state := s;
              StateManager.listeners := ∅;
              StateManager.localStorage :=
                {| StateManager.items := ∅; StateManager.refuses := false |};
              StateManager.console := [];
              StateManager.called := [] |} in
  let stringify := fun _ : value => "blob"%string in
  let parse := fun t : string => if String.eqb t "blob" then Ok s else Throw TypeError in
  has_structure (StateManager.state w) = true
  /\ parse (stringify (StateManager.state w)) = Ok (StateManager.state w)
  /\ exists w',
       StateManager.loadState parse
         (StateManager.with_state (StateManager.saveState stringify w) (VObj ∅)) = Ok w'
       /\ StateManager.state w' = StateManager.state w.
Proof.
  intros s w stringify parse. split; [reflexivity|]. split; [reflexivity|].
  apply (saveState_loadState stringify parse w);
    [reflexivity|reflexivity|discriminate|reflexivity].
Defined.

(** ** The registry, entry by entry *)

(** A step of the rebuild that returns has registered the instance. *)
Lemma add_instance_inv (radix : option Z) (projectName : string)
    (totals totals' : gmap string ItemTotal) (item : Item) :
  add_instance radix projectName totals item = Ok totals' ->
  totals' = register radix projectName totals item.
Proof.
  unfold add_instance. destruct (lookup_slot totals (id item)) as [e|h|].
  - by intros [= <-].
  - intros Hrun. exfalso. destruct h as [p|p m]; cbn in Hrun.
    + by destruct p.
    + by destruct (bool_decide _) in Hrun.
  - by intros [= <-].
Qed.

(** Whenever the rebuild returns, the catalog is kept and every total is
    the sum of its instances. *)
Lemma build_returns_sums (radix : option Z) (this built : Engine) :
  Catalog.buildItemTotals radix this = Ok built ->
  e_projects built = e_projects this /\ registry_sums (itemTotals built).
Proof.
  unfold Catalog.buildItemTotals. cbn [e_projects itemTotals].
  rewrite (foldM_item_pairs (add_instance radix)).
  intros (totals & Hrun & Hb)%bind_Ok_inv. apply ret_Ok_inv in Hb as <-.
  split; [done|]. cbn [itemTotals].
  assert (Hgen : forall pairs t0,
            registry_sums t0 ->
            foldM (fun acc pi => add_instance radix pi.1 acc pi.2) t0 pairs = Ok totals ->
            registry_sums totals).
  { induction pairs as [|pi pairs IH]; intros t0 Hinv Hfold.
    - by injection Hfold as <-.
    - cbn [foldM] in Hfold. apply bind_Ok_inv in Hfold as (t1 & Hstep & Hfold).
      apply add_instance_inv in Hstep as ->.
      eapply IH; [|exact Hfold]. by apply register_sums. }
  eapply Hgen; [|exact Hrun]. intros k e. by rewrite lookup_empty.
Qed.













(** ** The combined view on a catalog without negative quantities *)

Lemma filter_bool {A : Type} (f : A -> bool) (l : list A) :
  filter (fun x => f x = true) l = List.filter f l.
Proof.
  induction l as [|x l IH]; [done|]. simpl.
  destruct (f x) eqn:Hf.
  - rewrite filter_cons_True by done. by rewrite IH.
  - rewrite filter_cons_False by congruence. done.
Qed.

Lemma sum_filter_bounds {A : Type} (q : A -> Z) (f : A -> bool) (l : list A) :
  Forall (fun x => 1 <= q x) l ->
  0 <= sumZ (map q (List.filter f l)) <= sumZ (map q l)
  /\ Z.of_nat (List.length l) <= sumZ (map q l)
  /\ (sumZ (map q (List.filter f l)) = sumZ (map q l) <-> Forall (fun x => f x = true) l).
Proof.
  induction l as [|x l IH]; intros Hpos.
  - unfold sumZ. simpl. split; [lia|]. split; [lia|]. split; [constructor|done].
  - apply Forall_cons in Hpos as [Hx Hpos]. destruct (IH Hpos) as (Hb & Hlen & Hiff).
    simpl. destruct (f x) eqn:Hf; unfold sumZ in *; simpl.
    + split; [lia|]. split; [lia|]. split.
      * intros H. constructor; [done|]. apply Hiff. lia.
      * intros H. apply Forall_cons in H as [_ H]. apply Hiff in H. lia.
    + split; [lia|]. split; [lia|]. split; [lia|].
      intros H. apply Forall_cons in H as [H _]. congruence.
Qed.

Lemma summary_bounds (cs : list Contribution) :
  cs ≠ [] ->
  Forall (fun c => 1 <= c_quantity c) cs ->
  let s := summary_of cs in
  0 <= completedQuantity s <= totalQuantity s
  /\ 1 <= totalQuantity s
  /\ remainingQuantity s = Some (totalQuantity s - completedQuantity s)
  /\ (remainingQuantity s = Some 0 <-> Forall (fun c => c_completed c = true) (projects s)).
Proof.
  intros Hne Hpos. simpl. unfold completed_of, total_of. rewrite filter_bool.
  destruct (sum_filter_bounds c_quantity c_completed cs Hpos) as (Hb & Hlen & Hiff).
  assert (1 <= Z.of_nat (List.length cs)) by (destruct cs; [done|simpl; lia]).
  split; [exact Hb|]. split; [lia|].
  split; [f_equal; lia|].
  rewrite <- Hiff. split.
  - intros [= H0]. lia.
  - intros H0. f_equal. lia.
Qed.

(** On a catalog in which no raw quantity, as a string and past its leading
    white space, starts with a minus sign: every entry of the map that
    [getAllItemsRemaining] returns, in either engine, has at least one
    contribution, a total of at least [1], a completed quantity between [0]
    and the total, a remaining quantity equal to their difference (nothing is
    clamped), and the remaining quantity is [0] exactly when all its
    contributions are completed. *)
Theorem combined_view_bounds (this : Engine) (state : gmap string value)
    (stateManager : StateManager.World) (r : gmap string Summary) (n : string)
    (s : Summary) :
  no_minus (e_projects this) ->
  App.getAllItemsRemaining state this = Ok r
  \/ DataLoader.getAllItemsRemaining stateManager this = Ok r ->
  r !! n = Some s ->
  projects s ≠ []
  /\ 0 <= completedQuantity s <= totalQuantity s
  /\ 1 <= totalQuantity s
  /\ remainingQuantity s = Some (totalQuantity s - completedQuantity s)
  /\ (remainingQuantity s = Some 0 <-> Forall (fun c => c_completed c = true) (projects s)).
Proof.
  intros Hm Hr Hs.
  assert (Hcs : exists cs, cs ≠ [] /\ s = summary_of cs
                           /\ Forall (fun c => 1 <= c_quantity c) cs).
  { destruct Hr as [Hr|Hr].
    - eapply (getAllItemsRemaining_inv None App.nonKeepableQuestItems _ _ state this r
                (fun q => 1 <= q)); [|exact Hr|exact Hs].
      eapply Forall_impl; [exact Hm|]. intros pi. apply parse_quantity_pos.
    - eapply (getAllItemsRemaining_inv (Some 10) DataLoader.nonKeepableQuestItems _ _
                stateManager this r (fun q => 1 <= q)); [|exact Hr|exact Hs].
      eapply Forall_impl; [exact Hm|]. intros pi. apply parse_quantity_pos. }
  destruct Hcs as (cs & Hne & -> & Hpos).
  split; [done|]. by apply summary_bounds.
Qed.

Lemma combined_view_bounds_witness :
  let wires q := {| name := "Wires"; quantity := q; requirement := "Gear Bench";
                    id := "wires-gear-bench"; projectName := None |} in
  let this := {| e_projects := [("Workshop items", [wires (VStr "2")]);
                                ("Scrappy items", [wires (VStr "4")])];
                 itemTotals := ∅ |} in
  let state : gmap string value :=
    {[ "Workshop items" := VObj {[ "wires-gear-bench" := VBool true ]} ]} in
  exists r s,
    no_minus (e_projects this)
    /\ App.getAllItemsRemaining state this = Ok r
    /\ r !! "Wires" = Some s
    /\ totalQuantity s = 6 /\ completedQuantity s = 2
    /\ remainingQuantity s = Some (totalQuantity s - completedQuantity s).
Proof.
  intros wires this state.
  assert (Hm : no_minus (e_projects this)) by (repeat constructor).
  destruct (App.getAllItemsRemaining state this) as [[r|e]|d] eqn:Hr;
    [|discriminate Hr|discriminate Hr].
  destruct (r !! "Wires") as [s|] eqn:Hs;
    [|injection Hr as <-; vm_compute in Hs; discriminate Hs].
  exists r, s.
  destruct (combined_view_bounds this state
              {| StateManager.state := VObj state;
                 StateManager.listeners := ∅;
                 StateManager.localStorage :=
                   {| StateManager.items := ∅; StateManager.refuses := false |};
                 StateManager.console := [];
                 StateManager.called := [] |} r "Wires" s Hm (or_introl Hr) Hs)
    as (_ & _ & _ & Hrem & _).
  split; [exact Hm|]. split; [reflexivity|]. split; [exact Hs|].
  injection Hr as <-. vm_compute in Hs. injection Hs as <-.
  split; [reflexivity|]. split; [reflexivity|]. exact Hrem.
Defined.

(** ** app.js: toggling an item *)

Lemma app_flag_falsy (state : gmap string value) (projectName k : string) :
  truthy (default VUndef (state !! projectName)) = false ->
  app_flag state projectName k = false.
Proof.
  unfold app_flag. destruct (state !! projectName) as [[| |b|n|s|m]|]; simpl; try done.
  intros Hs. apply negb_false_iff, bool_decide_eq_true_1 in Hs as ->.
  unfold string_prop. simpl. by case_bool_decide.
Qed.

(** The two statements of [toggleItem] on the state, when they return,
    for an identity that is not the name of a member of
    [Object.prototype]: the entry of the project is an object, a new one when
    there was none, and the flag in it is negated. *)
Lemma toggle_flag_result (projectName itemId : string) (state state' : gmap string value) :
  own_only itemId = true ->
  App.toggle_flag projectName itemId state = Ok state' ->
  exists m,
    state' = <[projectName :=
                 VObj (<[itemId := VBool (negb (truthy (default VUndef (m !! itemId))))]> m)]>
               state
    /\ forall k, app_flag state projectName k = truthy (default VUndef (m !! k)).
Proof.
  intros Hid. unfold App.toggle_flag.
  assert (Hfresh : forall st : gmap string value,
            st !! projectName = Some (VObj ∅) ->
            mbind (M := run)
              (fun target =>
                 current ← read target itemId;
                 target' ← write target itemId (VBool (negb (truthy_reached current)));
                 ret (obj_store st projectName target'))
              (get_prop (VObj st) projectName)
            = Ok (<[projectName := VObj (<[itemId := VBool true]> ∅)]> st)).
  { intros st Hst. rewrite (get_prop_found _ _ _ Hst). cbn [mbind run_bind read].
    rewrite get_prop_own by done. rewrite lookup_empty. cbn [mbind run_bind default].
    rewrite write_object by (left; by apply own_only_proto).
    cbn [mbind run_bind ret obj_store truthy_reached truthy negb].
    by rewrite bool_decide_eq_true_2 by eauto. }
  destruct (state !! projectName) as [x|] eqn:Hp.
  - rewrite (get_prop_found _ _ _ Hp). cbn [mbind run_bind truthy_reached].
    destruct (truthy x) eqn:Hx; cbn [negb].
    + cbn [mbind run_bind ret]. rewrite (get_prop_found _ _ _ Hp). cbn [mbind run_bind read].
      destruct x as [| |b|n|s|m]; try done.
      * intros (current & _ & Hw)%bind_Ok_inv.
        apply bind_Ok_inv in Hw as (target' & Hw & _).
        apply write_data_inv in Hw as (m & ? & _); [done|by apply own_only_proto].
      * intros (current & _ & Hw)%bind_Ok_inv.
        apply bind_Ok_inv in Hw as (target' & Hw & _).
        apply write_data_inv in Hw as (m & ? & _); [done|by apply own_only_proto].
      * intros (current & _ & Hw)%bind_Ok_inv.
        apply bind_Ok_inv in Hw as (target' & Hw & _).
        apply write_data_inv in Hw as (m & ? & _); [done|by apply own_only_proto].
      * rewrite get_prop_own by done. cbn [mbind run_bind].
        rewrite write_object by (left; by apply own_only_proto).
        cbn [mbind run_bind ret obj_store truthy_reached].
        rewrite bool_decide_eq_true_2 by eauto. intros [= <-].
        exists m. split; [done|]. intros k. unfold app_flag. by rewrite Hp.
    + rewrite obj_put_insert by eauto. cbn [mbind run_bind].
      rewrite Hfresh by apply lookup_insert_eq. intros [= <-].
      exists ∅. rewrite insert_insert_eq. split; [done|].
      intros k. rewrite lookup_empty. apply app_flag_falsy. by rewrite Hp.
  - assert (Hget : get_prop (VObj state) projectName
                   = Ok (inherited ObjectPrototype projectName))
      by (unfold get_prop; by rewrite Hp).
    rewrite Hget.
    destruct (inherited_cases projectName)
      as [[Hown Hinh]|[(Hown & Hne & Hinh)|(Hown & Heq & Hinh)]]; rewrite Hinh.
    + cbn [mbind run_bind truthy_reached truthy negb].
      rewrite obj_put_insert by (left; by apply own_only_proto). cbn [mbind run_bind].
      rewrite Hfresh by apply lookup_insert_eq. intros [= <-].
      exists ∅. rewrite insert_insert_eq. split; [done|].
      intros k. rewrite lookup_empty. apply app_flag_falsy. by rewrite Hp.
    + cbn [mbind run_bind truthy_reached negb ret]. rewrite Hget, Hinh.
      cbn [mbind run_bind read write host_put].
      by destruct (host_get _ _) as [[?|?]|?].
    + cbn [mbind run_bind truthy_reached negb ret]. rewrite Hget, Hinh.
      cbn [mbind run_bind read write host_put].
      by destruct (host_get _ _) as [[?|?]|?].
Qed.

Lemma app_saveState_fields (stringify : value -> string) (a : App.Instance) :
  App.state (App.saveState stringify a) = App.state a
  /\ App.engine (App.saveState stringify a) = App.engine a.
Proof. unfold App.saveState. by destruct (StateManager.setItem _ _ _). Qed.

(** [toggleItem] of app.js, when it returns, for an identity that is not
    the name of a member of [Object.prototype]: it negates the flag of
    [(projectName, itemId)] in the state object, leaves every other flag as
    it was, keeps the catalog, and leaves a registry whose totals are the
    sums of their instances. *)
Theorem app_toggleItem_flips_one_flag (stringify : value -> string)
    (projectName itemId otherProject otherId : string) (this this' : App.Instance) :
  own_only itemId = true ->
  App.toggleItem stringify projectName itemId this = Ok this' ->
  app_flag (App.state this') projectName itemId
    = negb (app_flag (App.state this) projectName itemId)
  /\ ((otherProject, otherId) ≠ (projectName, itemId) ->
      app_flag (App.state this') otherProject otherId
      = app_flag (App.state this) otherProject otherId)
  /\ e_projects (App.engine this') = e_projects (App.engine this)
  /\ registry_sums (itemTotals (App.engine this')).
Proof.
  intros Hid. unfold App.toggleItem.
  intros (state' & Ht & Hrun)%bind_Ok_inv.
  apply bind_Ok_inv in Hrun as (rebuilt & Hbuild & Hrun).
  apply ret_Ok_inv in Hrun as <-.
  rewrite (proj2 (app_saveState_fields _ _)) in Hbuild.
  cbn [App.engine App.state] in *. rewrite (proj1 (app_saveState_fields _ _)).
  cbn [App.state].
  apply build_returns_sums in Hbuild as [Hcat Hsums].
  destruct (toggle_flag_result _ _ _ _ Hid Ht) as (m & -> & Hflag).
  split; [|split; [|split; [done|done]]].
  - rewrite Hflag. unfold app_flag. by rewrite !lookup_insert_eq.
  - intros Hne. destruct (decide (otherProject = projectName)) as [->|Hp].
    + rewrite Hflag. unfold app_flag. rewrite lookup_insert_eq.
      rewrite lookup_insert_ne by congruence. done.
    + unfold app_flag. by rewrite lookup_insert_ne.
Qed.

Lemma app_toggleItem_flips_one_flag_witness :
  let this := {| App.engine := {| e_projects := []; itemTotals := ∅ |};
                 App.state := {[ "Quest items" := VObj {[ "wires" := VBool true ]} ]};
                 App.localStorage :=
                   {| StateManager.items := ∅; StateManager.refuses := true |};
                 App.console := [] |} in
  own_only "wires" = true
  /\ App.toggleItem (fun _ => "{}") "__proto__" "wires" this = Leaves WritesHost
  /\ exists this',
       App.toggleItem (fun _ => "{}") "Workshop items" "wires" this = Ok this'
       /\ app_flag (App.state this') "Workshop items" "wires" = true
       /\ app_flag (App.state this') "Quest items" "wires" = true.
Proof.
  intros this. split; [reflexivity|]. split; [reflexivity|].
  destruct (App.toggleItem (fun _ => "{}") "Workshop items" "wires" this)
    as [[this'|e]|d] eqn:Ht; [|discriminate Ht|discriminate Ht].
  exists this'. split; [reflexivity|].
  destruct (app_toggleItem_flips_one_flag (fun _ => "{}") "Workshop items" "wires"
              "Quest items" "wires" this this' eq_refl Ht) as (Hflip & Hframe & _).
  split; [exact Hflip|]. rewrite Hframe; [reflexivity|discriminate].
Defined.

(** ** app.js: collapsing a group *)

(** [toggleGroupCollapse(groupId)] of app.js, when it returns, for a group
    identity that is not the name of a member of [Object.prototype]: it
    negates the flag [collapsed[groupId]], changes no flag of an entry of the
    state other than [collapsed], in particular no completion flag of a
    project, and leaves the catalog and the registry as they are. *)
Theorem app_toggleGroupCollapse_keeps_items (stringify : value -> string)
    (groupId projectName itemId : string) (this this' : App.Instance) :
  own_only groupId = true ->
  App.toggleGroupCollapse stringify groupId this = Ok this' ->
  app_flag (App.state this') "collapsed" groupId
    = negb (app_flag (App.state this) "collapsed" groupId)
  /\ (projectName ≠ "collapsed" ->
      app_flag (App.state this') projectName itemId
      = app_flag (App.state this) projectName itemId)
  /\ App.engine this' = App.engine this.
Proof.
  intros Hid. unfold App.toggleGroupCollapse.
  intros (state' & Ht & Hrun)%bind_Ok_inv. apply ret_Ok_inv in Hrun as <-.
  rewrite (proj1 (app_saveState_fields _ _)), (proj2 (app_saveState_fields _ _)).
  cbn [App.engine App.state].
  destruct (toggle_flag_result _ _ _ _ Hid Ht) as (m & -> & Hflag).
  split; [|split; [|done]].
  - rewrite Hflag. unfold app_flag. by rewrite !lookup_insert_eq.
  - intros Hne. unfold app_flag. by rewrite lookup_insert_ne.
Qed.

Lemma app_toggleGroupCollapse_keeps_items_witness :
  let this := {| App.engine := {| e_projects := []; itemTotals := ∅ |};
                 App.state := {[ "Quest items" := VObj {[ "wires" := VBool true ]} ]};
                 App.localStorage :=
                   {| StateManager.items := ∅; StateManager.refuses := true |};
                 App.console := [] |} in
  own_only "gear-bench" = true
  /\ exists this',
       App.toggleGroupCollapse (fun _ => "{}") "gear-bench" this = Ok this'
       /\ app_flag (App.state this') "collapsed" "gear-bench" = true
       /\ app_flag (App.state this') "Quest items" "wires" = true.
Proof.
  intros this. split; [reflexivity|].
  destruct (App.toggleGroupCollapse (fun _ => "{}") "gear-bench" this)
    as [[this'|e]|d] eqn:Hrun; [|by vm_compute in Hrun|by vm_compute in Hrun].
  exists this'. split; [reflexivity|].
  destruct (app_toggleGroupCollapse_keeps_items (fun _ => "{}") "gear-bench"
              "Quest items" "wires" this this' eq_refl Hrun) as (Hflip & Hkeep & _).
  split; [by rewrite Hflip|]. by rewrite Hkeep.
Defined.

(** ** Counting per project *)

Lemma count_loop {A : Type} (g : A -> run reached) (f : A -> bool) (l : list A) (count : Z) :
  Forall (fun x => exists r, g x = Ok r /\ truthy_reached r = f x) l ->
  foldM (fun count x => c ← g x; ret (count + (if truthy_reached c then 1 else 0))) count l
  = Ok (count + count_if f l).
Proof.
  revert count.
  induction l as [|x l IH]; intros count Hg.
  - simpl. unfold ret. do 2 f_equal. unfold count_if. simpl. lia.
  - apply Forall_cons in Hg as [(v & Hx & Hv) Hg].
    cbn [foldM]. rewrite Hx. cbn [mbind run_bind ret]. rewrite Hv, IH by done.
    do 2 f_equal. unfold count_if. simpl. destruct (f x); simpl; lia.
Qed.

(** A count that returns has added 0 or 1 for each item. *)
Lemma count_loop_bounded {A : Type} (g : A -> run reached) (l : list A) (count n : Z) :
  foldM (fun count x => c ← g x; ret (count + (if truthy_reached c then 1 else 0))) count l
  = Ok n ->
  count <= n <= count + Z.of_nat (List.length l).
Proof.
  revert count.
  induction l as [|x l IH]; intros count.
  - intros [= <-]. simpl. lia.
  - cbn [foldM]. intros (count' & Hstep & Hrun)%bind_Ok_inv.
    apply bind_Ok_inv in Hstep as (c & _ & Hc). apply ret_Ok_inv in Hc as <-.
    apply IH in Hrun. simpl List.length. destruct (truthy_reached c); lia.
Qed.

Lemma count_loop_returns {A : Type} (g : A -> run reached) (l : list A) (count : Z) :
  Forall (fun x => exists r, g x = Ok r) l ->
  exists n,
    foldM (fun count x => c ← g x; ret (count + (if truthy_reached c then 1 else 0))) count l
    = Ok n.
Proof.
  revert count.
  induction l as [|x l IH]; intros count Hg; [by eexists|].
  apply Forall_cons in Hg as [[r Hx] Hg].
  cbn [foldM]. rewrite Hx. cbn [mbind run_bind ret]. by apply IH.
Qed.

Lemma count_if_bounds {A : Type} (f : A -> bool) (l : list A) :
  0 <= count_if f l <= Z.of_nat (List.length l).
Proof.
  unfold count_if. pose proof (filter_length_le f l) as Hle.
  change (base.length (List.filter f l)) with (List.length (List.filter f l)) in Hle.
  change (base.length l) with (List.length l) in Hle. lia.
Qed.

Lemma count_if_false {A : Type} (f : A -> bool) (l : list A) :
  (forall x, f x = false) -> count_if f l = 0.
Proof.
  intros Hf. unfold count_if.
  induction l as [|x l IH]; [done|]. simpl. by rewrite Hf.
Qed.

(** The flag that app.js reads in an entry of the state that is there. *)
Lemma app_entry_flag (state : gmap string value) (projectName itemId : string) (x : value) :
  plain itemId = true ->
  state !! projectName = Some x ->
  truthy x = true ->
  exists r, read (Data x) itemId = Ok r
            /\ truthy_reached r = app_flag state projectName itemId.
Proof.
  intros Hi Hp Hx. unfold app_flag. rewrite Hp. cbn [read].
  destruct x as [| |b|n|s|m]; try done.
  - unfold get_prop. rewrite (plain_inherited itemId BooleanPrototype Hi). by eexists.
  - unfold get_prop. rewrite (plain_inherited itemId NumberPrototype Hi). by eexists.
  - rewrite plain_string_prop by done. by eexists.
  - rewrite get_prop_own by (by apply plain_own_only). by eexists.
Qed.

Lemma app_count_project (projectName : string) (items : list Item)
    (state : gmap string value) :
  projectName ≠ "all" ->
  Forall (fun item => app_lookup projectName (id item) = true) items ->
  App.getCompletedCount projectName items state
  = Ok (count_if (fun item => app_flag state projectName (id item)) items).
Proof.
  intros Hne Hl. unfold App.getCompletedCount.
  rewrite bool_decide_eq_false_2 by done.
  destruct (decide (items = [])) as [->|Hitems].
  { destruct (get_prop (VObj state) projectName) as [[target|e]|d] eqn:Ht; try done.
    cbn [mbind run_bind]. by destruct (negb (truthy_reached target)). }
  assert (Hp : own_only projectName = true).
  { destruct items as [|item items']; [done|].
    apply Forall_cons in Hl as [Hitem _].
    unfold app_lookup in Hitem. by apply andb_true_iff in Hitem as [? _]. }
  rewrite get_prop_own by done. cbn [mbind run_bind truthy_reached].
  destruct (truthy (default VUndef (state !! projectName))) eqn:Ht; cbn [negb].
  - destruct (state !! projectName) as [x|] eqn:Hx; [|done]. cbn [default from_option] in *.
    rewrite (count_loop _ (fun item => app_flag state projectName (id item))); [done|].
    eapply Forall_impl; [exact Hl|]. intros item Hitem. cbv beta.
    unfold app_lookup in Hitem. apply andb_true_iff in Hitem as [_ Hi].
    by apply (app_entry_flag state projectName (id item) x).
  - rewrite count_if_false; [done|].
    intros item. by apply app_flag_falsy.
Qed.

Lemma store_count_project (projectName : string) (items : list Item)
    (stateManager : StateManager.World) :
  projectName ≠ "all" ->
  Forall (fun item => store_lookup projectName (id item) = true) items ->
  DataLoader.getCompletedCount projectName items stateManager
  = Ok (count_if (fun item => store_flag stateManager projectName (id item)) items).
Proof.
  intros Hne Hl. unfold DataLoader.getCompletedCount.
  rewrite bool_decide_eq_false_2 by done.
  rewrite (count_loop _ (fun item => store_flag stateManager projectName (id item)));
    [done|].
  eapply Forall_impl; [exact Hl|]. intros item Hitem. by apply store_completion_flag.
Qed.

(** For a project name other than ["all"], under lookups that meet own
    properties only, [getCompletedCount] is the number of items of the list
    whose flag under [(projectName, item.id)] is true, in both engines; it
    lies between [0] and the number of items. *)
Theorem getCompletedCount_project (projectName : string) (items : list Item)
    (state : gmap string value) (stateManager : StateManager.World) :
  projectName ≠ "all" ->
  (Forall (fun item => app_lookup projectName (id item) = true) items ->
   App.getCompletedCount projectName items state
   = Ok (count_if (fun item => app_flag state projectName (id item)) items))
  /\ (Forall (fun item => store_lookup projectName (id item) = true) items ->
      DataLoader.getCompletedCount projectName items stateManager
      = Ok (count_if (fun item => store_flag stateManager projectName (id item)) items))
  /\ 0 <= count_if (fun item => app_flag state projectName (id item)) items
       <= Z.of_nat (List.length items)
  /\ 0 <= count_if (fun item => store_flag stateManager projectName (id item)) items
       <= Z.of_nat (List.length items).
Proof.
  intros Hne.
  split; [by apply app_count_project|].
  split; [by apply store_count_project|].
  split; apply count_if_bounds.
Qed.

Lemma getCompletedCount_project_witness :
  let item i := {| name := "Wires"; quantity := VStr "1"; requirement := "";
                   id := i; projectName := None |} in
  let items := [item "wires"; item "springs"] in
  let state : gmap string value :=
    {[ "Workshop items" := VObj {[ "wires" := VBool true; "springs" := VBool false ]} ]} in
  let stateManager :=
    {| StateManager.state := VObj state;
       StateManager.listeners := ∅;
       StateManager.localStorage :=
         {| StateManager.items := ∅; StateManager.refuses := false |};
       StateManager.console := [];
       StateManager.called := [] |} in
  "Workshop items" ≠ "all"
  /\ Forall (fun item => app_lookup "Workshop items" (id item) = true) items
  /\ Forall (fun item => store_lookup "Workshop items" (id item) = true) items
  /\ App.getCompletedCount "Workshop items" items state = Ok 1
  /\ DataLoader.getCompletedCount "Workshop items" items stateManager = Ok 1
  /\ App.getCompletedCount "Workshop items" [item "constructor"] state = Ok 1.
Proof.
  intros item items state stateManager.
  assert (Hne : "Workshop items" ≠ "all") by discriminate.
  assert (Ha : Forall (fun item => app_lookup "Workshop items" (id item) = true) items)
    by (repeat constructor).
  assert (Hs : Forall (fun item => store_lookup "Workshop items" (id item) = true) items)
    by (repeat constructor).
  destruct (getCompletedCount_project "Workshop items" items state stateManager Hne)
    as (Happ & Hstore & _).
  split; [exact Hne|]. split; [exact Ha|]. split; [exact Hs|].
  split; [exact (Happ Ha)|]. split; [exact (Hstore Hs)|reflexivity].
Defined.

(** Whenever a count returns, it lies between [0] and the number of
    items. *)
Lemma app_count_bounded (projectName : string) (items : list Item)
    (state : gmap string value) (n : Z) :
  App.getCompletedCount projectName items state = Ok n ->
  0 <= n <= Z.of_nat (List.length items).
Proof.
  unfold App.getCompletedCount. case_bool_decide.
  - intros Hrun.
    change (foldM (count_all (gmap string value) App.completion projectName state) 0 items)
      with (foldM (fun count item =>
                     c ← App.completion (match Catalog.projectName item with
                                         | Some p => if truthy (VStr p) then p else projectName
                                         | None => projectName
                                         end) (id item) state;
                     ret (count + (if truthy_reached c then 1 else 0))) 0 items) in Hrun.
    apply count_loop_bounded in Hrun. lia.
  - intros (target & _ & Hrun)%bind_Ok_inv.
    destruct (negb (truthy_reached target)).
    + apply ret_Ok_inv in Hrun as <-. lia.
    + apply count_loop_bounded in Hrun. lia.
Qed.

Lemma app_completion_returns (projectName itemId : string) (state : gmap string value) :
  own_only projectName = true ->
  exists r, App.completion projectName itemId state = Ok r.
Proof.
  intros Hp. unfold App.completion. rewrite get_prop_own by done. cbn [mbind run_bind].
  destruct (default VUndef (state !! projectName)); cbn [read_opt read get_prop]; by eexists.
Qed.

(** A count returns when the project names it looks the flags up under are
    not names of members of [Object.prototype]. *)
Lemma app_count_returns (projectName : string) (items : list Item)
    (state : gmap string value) :
  Forall (fun p => own_only p = true) (counted_under projectName items) ->
  exists n, App.getCompletedCount projectName items state = Ok n.
Proof.
  unfold counted_under, App.getCompletedCount. case_bool_decide as Hall.
  - intros Hl.
    change (foldM (count_all (gmap string value) App.completion projectName state) 0 items)
      with (foldM (fun count item =>
                     c ← App.completion (match Catalog.projectName item with
                                         | Some p => if truthy (VStr p) then p else projectName
                                         | None => projectName
                                         end) (id item) state;
                     ret (count + (if truthy_reached c then 1 else 0))) 0 items).
    apply count_loop_returns. apply Forall_forall. intros item Hin.
    apply app_completion_returns.
    assert (Hp : match Catalog.projectName item with
                 | Some p => if truthy (VStr p) then p else projectName
                 | None => projectName
                 end = lookup_project "all" item).
    { subst projectName. unfold lookup_project.
      destruct (Catalog.projectName item) as [p|]; [|done].
      simpl. by case_bool_decide. }
    rewrite Hp. apply (proj1 (Forall_forall _ _) Hl).
    apply list_elem_of_fmap. by exists item.
  - intros Hl. apply Forall_cons in Hl as [Hp _].
    rewrite get_prop_own by done. cbn [mbind run_bind truthy_reached].
    destruct (truthy (default VUndef (state !! projectName))) eqn:Ht; cbn [negb];
      [|by eexists].
    apply count_loop_returns. apply Forall_forall. intros item _.
    destruct (default VUndef (state !! projectName)); try done;
      cbn [read get_prop]; by eexists.
Qed.

(** In the state store a count returns whatever the names are. *)
Lemma store_count_bounded (projectName : string) (items : list Item)
    (stateManager : StateManager.World) :
  exists n, DataLoader.getCompletedCount projectName items stateManager = Ok n
            /\ 0 <= n <= Z.of_nat (List.length items).
Proof.
  assert (Hg : forall g : Item -> string,
            exists n,
              foldM (fun count item =>
                       c ← DataLoader.completion (g item) (id item) stateManager;
                       ret (count + (if truthy_reached c then 1 else 0))) 0 items = Ok n
              /\ 0 <= n <= Z.of_nat (List.length items)).
  { intros g.
    destruct (count_loop_returns
                (fun item => DataLoader.completion (g item) (id item) stateManager) items 0)
      as [n Hn].
    { apply Forall_forall. intros item _. apply store_completion_returns. }
    exists n. split; [exact Hn|]. apply count_loop_bounded in Hn. lia. }
  unfold DataLoader.getCompletedCount. case_bool_decide.
  - apply (Hg (fun item => match Catalog.projectName item with
                           | Some p => if truthy (VStr p) then p else projectName
                           | None => projectName
                           end)).
  - apply (Hg (fun _ => projectName)).
Qed.

Lemma item_pairs_cons (p : string) (items : list Item) (ps : list (string * list Item)) :
  List.length (item_pairs ((p, items) :: ps))
  = (List.length items + List.length (item_pairs ps))%nat.
Proof.
  unfold item_pairs. rewrite bind_cons. simpl.
  by rewrite length_app, length_map.
Qed.

Lemma progress_loop_bounded (count : string -> list Item -> run Z)
    (ps : list (string * list Item)) (c t c' t' : Z) :
  (forall p items n, count p items = Ok n -> 0 <= n <= Z.of_nat (List.length items)) ->
  0 <= c <= t ->
  foldM (fun '(totalCompleted, totalItems) '(projectName, items) =>
           n ← count projectName items;
           ret (totalCompleted + n, totalItems + Z.of_nat (List.length items)))
        (c, t) ps = Ok (c', t') ->
  t' = t + Z.of_nat (List.length (item_pairs ps)) /\ 0 <= c' <= t'.
Proof.
  intros Hcount. revert c t.
  induction ps as [|[p items] ps IH]; intros c t Hct.
  - intros [= <- <-]. simpl. lia.
  - cbn [foldM]. intros ([c1 t1] & Hstep & Hrun)%bind_Ok_inv.
    apply bind_Ok_inv in Hstep as (n & Hn & Hstep).
    apply ret_Ok_inv in Hstep. injection Hstep as <- <-.
    apply Hcount in Hn. apply IH in Hrun; [|lia].
    rewrite item_pairs_cons. lia.
Qed.

Lemma progress_loop_returns (count : string -> list Item -> run Z)
    (ps : list (string * list Item)) (c t : Z) :
  Forall (fun pi : string * list Item => exists n, count pi.1 pi.2 = Ok n) ps ->
  exists c' t',
    foldM (fun '(totalCompleted, totalItems) '(projectName, items) =>
             n ← count projectName items;
             ret (totalCompleted + n, totalItems + Z.of_nat (List.length items)))
          (c, t) ps = Ok (c', t').
Proof.
  revert c t.
  induction ps as [|[p items] ps IH]; intros c t Hret; [by do 2 eexists|].
  apply Forall_cons in Hret as [[n Hn] Hret]. cbn [fst snd] in Hn.
  cbn [foldM]. rewrite Hn. cbn [mbind run_bind ret]. by apply IH.
Qed.

(** The two counters of [updateAllItemsProgress], in both renderers: the
    second is the number of items of the catalog, and the first lies between
    [0] and the second (the progress is never above 100%).  In ui-renderer.js
    the counters are always obtained; in app.js they are whenever the project
    names under which the flags are looked up are not names of members of
    [Object.prototype] (under the project name [constructor] the lookup of
    the identity [caller] reads a member of the built-in function
    [Object]). *)
Theorem progress_counts_bounded (this : App.Instance) (projects : list (string * list Item))
    (stateManager : StateManager.World) :
  (forall completed total,
      App.progress_counts this = Ok (completed, total) ->
      total = Z.of_nat (List.length (item_pairs (e_projects (App.engine this))))
      /\ 0 <= completed <= total)
  /\ (Forall (fun pi : string * list Item =>
                Forall (fun p => own_only p = true) (counted_under pi.1 pi.2))
             (e_projects (App.engine this)) ->
      exists completed total, App.progress_counts this = Ok (completed, total))
  /\ (exists completed total,
      Renderer.progress_counts projects stateManager = Ok (completed, total)
      /\ total = Z.of_nat (List.length (item_pairs projects))
      /\ 0 <= completed <= total).
Proof.
  split; [|split].
  - intros completed total Hrun.
    apply (progress_loop_bounded
             (fun p items => App.getCompletedCount p items (App.state this))) in Hrun;
      [lia| |lia].
    intros p items n. apply app_count_bounded.
  - intros Hnames.
    apply (progress_loop_returns
             (fun p items => App.getCompletedCount p items (App.state this))).
    eapply Forall_impl; [exact Hnames|]. intros [p items] Hp. by apply app_count_returns.
  - destruct (progress_loop_returns
                (fun p items => DataLoader.getCompletedCount p items stateManager)
                projects 0 0) as (c & t & Hrun).
    { apply Forall_forall. intros [p items] _.
      destruct (store_count_bounded p items stateManager) as (n & Hn & _). eauto. }
    exists c, t. split; [exact Hrun|].
    apply (progress_loop_bounded
             (fun p items => DataLoader.getCompletedCount p items stateManager)) in Hrun;
      [lia| |lia].
    intros p items n Hn.
    destruct (store_count_bounded p items stateManager) as (n' & Hn' & Hb).
    rewrite Hn in Hn'. by injection Hn' as <-.
Qed.

Lemma progress_counts_bounded_witness :
  let item i := {| name := "Wires"; quantity := VStr "1"; requirement := "";
                   id := i; projectName := None |} in
  let projects := [("Workshop items", [item "wires"; item "springs"]);
                   ("Quest items", [item "tape"])] in
  let state : gmap string value :=
    {[ "Workshop items" := VObj {[ "wires" := VBool true ]} ]} in
  let this := {| App.engine := {| e_projects := projects; itemTotals := ∅ |};
                 App.state := state;
                 App.localStorage :=
                   {| StateManager.items := ∅; StateManager.refuses := false |};
                 App.console := [] |} in
  let other := {| App.engine := {| e_projects := [("constructor", [item "caller"])];
                                   itemTotals := ∅ |};
                  App.state := state;
                  App.localStorage :=
                    {| StateManager.items := ∅; StateManager.refuses := false |};
                  App.console := [] |} in
  Forall (fun pi : string * list Item =>
            Forall (fun p => own_only p = true) (counted_under pi.1 pi.2)) projects
  /\ App.progress_counts this = Ok (1, 3)
  /\ 0 <= 1 <= 3
  /\ App.progress_counts other = Leaves ReadsHost.
Proof.
  intros item projects state this other.
  assert (Hnames : Forall (fun pi : string * list Item =>
                     Forall (fun p => own_only p = true) (counted_under pi.1 pi.2)) projects)
    by (repeat constructor).
  destruct (progress_counts_bounded this projects
              {| StateManager.state := VObj state;
                 StateManager.listeners := ∅;
                 StateManager.localStorage :=
                   {| StateManager.items := ∅; StateManager.refuses := false |};
                 StateManager.console := [];
                 StateManager.called := [] |}) as (Hbounds & Hreturns & _).
  destruct (Hreturns Hnames) as (c & t & Hrun).
  assert (Hct : (c, t) = (1, 3)).
  { assert (Hrun' : App.progress_counts this = Ok (c, t)) by exact Hrun.
    vm_compute in Hrun'. by injection Hrun' as <- <-. }
  injection Hct as -> ->.
  split; [exact Hnames|]. split; [exact Hrun|].
  split; [exact (proj2 (Hbounds 1 3 Hrun))|reflexivity].
Defined.

(** ** app.js: loading the state *)















(** An assignment to a property of a primitive, when it returns, has
    changed nothing. *)
Lemma put_prop_primitive (v x v' : value) (key : string) :
  (forall m, v ≠ VObj m) ->
  put_prop v key x = Ok v' -> v' = v.
Proof.
  intros Hv. destruct v as [| |b|n|s|m]; cbn [put_prop]; try done;
    try (case_bool_decide; [by intros [= <-]|done]).
  by destruct (Hv m).
Qed.

Lemma store_primitive (v : value) (key : string) (child : reached) :
  (forall m, v ≠ VObj m) -> store v key child = v.
Proof. intros Hv. destruct v as [| |b|n|s|m]; try done. by destruct (Hv m). Qed.

Lemma init_flag_primitive (projectName : string) (v v' : value) (item : Item) :
  (forall m, v ≠ VObj m) ->
  App.init_flag projectName v item = Ok v' -> v' = v.
Proof.
  intros Hv. unfold App.init_flag.
  intros (target & _ & Hrun)%bind_Ok_inv.
  apply bind_Ok_inv in Hrun as (current & _ & Hrun).
  destruct current as [[| |b|n|s|m]|h]; try (by apply ret_Ok_inv in Hrun).
  apply bind_Ok_inv in Hrun as (target' & _ & Hrun).
  apply ret_Ok_inv in Hrun as <-. by apply store_primitive.
Qed.

Lemma init_items_primitive (projectName : string) (v v' : value) (items : list Item) :
  (forall m, v ≠ VObj m) ->
  foldM (App.init_flag projectName) v items = Ok v' -> v' = v.
Proof.
  intros Hv. induction items as [|item items IH]; [by intros [= <-]|].
  cbn [foldM]. intros (v1 & Hone & Hrun)%bind_Ok_inv.
  apply init_flag_primitive in Hone as ->; [|done]. by apply IH.
Qed.

Lemma init_project_primitive (v v' : value) (entry : string * list Item) :
  (forall m, v ≠ VObj m) ->
  App.init_project v entry = Ok v' -> v' = v.
Proof.
  intros Hv. unfold App.init_project.
  intros (target & _ & Hrun)%bind_Ok_inv.
  apply bind_Ok_inv in Hrun as (state1 & Hone & Hrun).
  assert (Hs : state1 = v).
  { destruct (negb (truthy_reached target)).
    - by apply put_prop_primitive in Hone.
    - by apply ret_Ok_inv in Hone. }
  subst state1. by apply init_items_primitive in Hrun.
Qed.

Lemma init_projects_primitive (v v' : value) (ps : list (string * list Item)) :
  (forall m, v ≠ VObj m) ->
  foldM App.init_project v ps = Ok v' -> v' = v.
Proof.
  intros Hv. induction ps as [|entry ps IH]; [by intros [= <-]|].
  cbn [foldM]. intros (v1 & Hone & Hrun)%bind_Ok_inv.
  apply init_project_primitive in Hone as ->; [|done]. by apply IH.
Qed.

(** On a primitive, under a project name that no prototype has a member
    of, the initialization of a project throws a TypeError or changes
    nothing. *)
Lemma init_flag_plain (projectName : string) (v : value) (item : Item) :
  plain projectName = true ->
  (forall m, v ≠ VObj m) ->
  App.init_flag projectName v item = Throw TypeError
  \/ App.init_flag projectName v item = Ok v.
Proof.
  intros Hp Hv. unfold App.init_flag.
  assert (Hget : get_prop v projectName = Throw TypeError
                 \/ exists x, get_prop v projectName = Ok (Data x)
                              /\ forall m, x ≠ VObj m).
  { destruct v as [| |b|n|s|m]; [by left|by left| | | |by destruct (Hv m)].
    - right. exists VUndef. unfold get_prop.
      by rewrite (plain_inherited projectName BooleanPrototype Hp).
    - right. exists VUndef. unfold get_prop.
      by rewrite (plain_inherited projectName NumberPrototype Hp).
    - right. exists (string_prop s projectName). split; [by apply plain_string_prop|].
      intros m. unfold string_prop. case_bool_decide; [done|].
      by destruct (List.find _ _) as [i|]. }
  destruct Hget as [->|(x & -> & Hx)]; [by left|]. cbn [mbind run_bind read].
  destruct x as [| |b|n|s|m]; [by left|by left| | | |by destruct (Hx m)].
  - unfold get_prop. cbn [mbind run_bind].
    destruct (inherited BooleanPrototype (id item)) as [[| |b'|n'|s'|m']|h]; auto.
    cbn [write put_prop]. case_bool_decide; [|by left].
    cbn [fmap run_fmap mbind run_bind ret]. right. by rewrite store_primitive.
  - unfold get_prop. cbn [mbind run_bind].
    destruct (inherited NumberPrototype (id item)) as [[| |b'|n'|s'|m']|h]; auto.
    cbn [write put_prop]. case_bool_decide; [|by left].
    cbn [fmap run_fmap mbind run_bind ret]. right. by rewrite store_primitive.
  - unfold get_prop. cbn [mbind run_bind].
    destruct (match string_prop s (id item) with
              | VUndef => inherited StringPrototype (id item)
              | x => Data x
              end) as [[| |b'|n'|s'|m']|h]; auto.
    cbn [write put_prop]. case_bool_decide; [|by left].
    cbn [fmap run_fmap mbind run_bind ret]. right. by rewrite store_primitive.
Qed.

Lemma init_items_plain (projectName : string) (v : value) (items : list Item) :
  plain projectName = true ->
  (forall m, v ≠ VObj m) ->
  foldM (App.init_flag projectName) v items = Throw TypeError
  \/ foldM (App.init_flag projectName) v items = Ok v.
Proof.
  intros Hp Hv. induction items as [|item items IH]; [by right|].
  cbn [foldM]. by destruct (init_flag_plain projectName v item Hp Hv) as [->| ->]; auto.
Qed.

Lemma init_projects_plain (v : value) (ps : list (string * list Item)) :
  Forall (fun entry : string * list Item => plain entry.1 = true) ps ->
  (forall m, v ≠ VObj m) ->
  foldM App.init_project v ps = Throw TypeError
  \/ foldM App.init_project v ps = Ok v.
Proof.
  intros Hps Hv. induction ps as [|[p items] ps IH]; [by right|].
  apply Forall_cons in Hps as [Hp Hps]. cbn [fst] in Hp.
  cbn [foldM].
  assert (Hone : App.init_project v (p, items) = Throw TypeError
                 \/ App.init_project v (p, items) = Ok v).
  { unfold App.init_project. cbn [fst snd].
    destruct (get_prop v p) as [[target|e]|d] eqn:Hget; cbn [mbind run_bind].
    - destruct (negb (truthy_reached target)).
      + left. pose proof (plain_own_only p Hp) as Hown%own_only_proto.
        destruct v as [| |b|n|s|m]; cbn [put_prop]; try done;
          try (by rewrite bool_decide_eq_false_2 by done).
        by destruct (Hv m).
      + cbn [mbind run_bind ret]. by apply init_items_plain.
    - left. destruct v as [| |b|n|s|m]; try done; by injection Hget as <-.
    - by destruct v. }
  destruct Hone as [->| ->]; cbn [mbind run_bind]; auto.
Qed.

(** A stored blob that parses to something that is not an object ([null],
    a number, a string, a boolean): [loadState] of app.js does not return,
    whatever the catalog, the initialization being outside the [try]; it
    throws a TypeError when no prototype has a member named as a project of
    the catalog. *)
Theorem app_loadState_non_object_blob (parse : string -> result value) (saved : string)
    (v : value) (this : App.Instance) :
  StateManager.getItem StateManager.state_key (App.localStorage this) = Some saved ->
  saved ≠ "" ->
  parse saved = Ok v ->
  typeof v ≠ TObject \/ v = VNull ->
  (forall this', App.loadState parse this ≠ Ok this')
  /\ (Forall (fun entry : string * list Item => plain entry.1 = true)
             (e_projects (App.engine this)) ->
      App.loadState parse this = Throw TypeError).
Proof.
  intros Hsaved Hne Hparse Hv.
  assert (Hread : (App.read_state parse this).1 = v).
  { unfold App.read_state. rewrite Hsaved. simpl.
    rewrite bool_decide_eq_false_2 by done. simpl. by rewrite Hparse. }
  assert (Hprim : forall m, v ≠ VObj m).
  { intros m ->. by destruct Hv. }
  split.
  - intros this'. unfold App.loadState. rewrite Hread.
    intros (state1 & Hinit & Hrun)%bind_Ok_inv.
    apply init_projects_primitive in Hinit as ->; [|done].
    apply bind_Ok_inv in Hrun as (collapsed & Hc & Hrun).
    apply bind_Ok_inv in Hrun as (state2 & Hput & _).
    destruct (collapsed_of_primitive v Hprim) as [Hthrow|[Hget Hthrow]].
    + by rewrite Hthrow in Hc.
    + rewrite Hget in Hc. injection Hc as <-.
      cbn [truthy_reached truthy negb] in Hput. by rewrite Hthrow in Hput.
  - intros Hplain. unfold App.loadState. rewrite Hread.
    destruct (init_projects_plain v (e_projects (App.engine this)) Hplain Hprim)
      as [->| ->]; [done|].
    cbn [mbind run_bind].
    destruct (collapsed_of_primitive v Hprim) as [->|[-> Hthrow]]; [done|].
    cbn [mbind run_bind truthy_reached truthy negb]. by rewrite Hthrow.
Qed.

Lemma app_loadState_non_object_blob_witness :
  let wires := {| name := "Wires"; quantity := VStr "2"; requirement := "Gear Bench";
                  id := "wires-gear-bench"; projectName := None |} in
  let parse := fun _ : string => Ok (VStr "done") in
  let this := {| App.engine := {| e_projects := [("Workshop items", [wires])];
                                  itemTotals := ∅ |};
                 App.state := ∅;
                 App.localStorage :=
                   {| StateManager.items := {[ StateManager.state_key := "blob" ]};
                      StateManager.refuses := false |};
                 App.console := [] |} in
  Forall (fun entry : string * list Item => plain entry.1 = true)
         (e_projects (App.engine this))
  /\ App.loadState parse this = Throw TypeError.
Proof.
  intros wires parse this.
  assert (Hplain : Forall (fun entry : string * list Item => plain entry.1 = true)
                          (e_projects (App.engine this))) by (repeat constructor).
  split; [exact Hplain|].
  apply (app_loadState_non_object_blob parse "blob" (VStr "done") this);
    [reflexivity|discriminate|reflexivity|by left|exact Hplain].
Defined.

(** ** The wiki pager *)

Lemma current_items_take_drop {A : Type} (l : list A) (p k : Z) :
  1 <= p -> 0 <= k ->
  Pager.current_items l {| Pager.currentPage := p; Pager.itemsPerPage := k |}
  = take (Z.to_nat k) (drop (Z.to_nat ((p - 1) * k)) l).
Proof.
  intros Hp Hk. unfold Pager.current_items, Pager.slice. simpl.
  set (start := (p - 1) * k). set (len := Z.of_nat (List.length l)).
  assert (Hstart : 0 <= start) by (subst start; nia).
  rewrite (proj2 (Z.ltb_ge start 0)) by done.
  rewrite (proj2 (Z.ltb_ge (start + k) 0)) by lia.
  destruct (Z.le_gt_cases len start) as [Hge|Hlt].
  - rewrite (Z.min_r start len), (Z.min_r (start + k) len) by lia.
    rewrite Z.sub_diag. simpl.
    rewrite (drop_ge l (Z.to_nat start)); [by rewrite take_nil|].
    subst len. change (base.length l) with (List.length l). lia.
  - rewrite (Z.min_l start len) by lia.
    destruct (Z.le_gt_cases (start + k) len) as [Hin|Hout].
    + rewrite Z.min_l by lia. f_equal. lia.
    + rewrite Z.min_r by lia.
      rewrite !take_ge; [done| |];
        rewrite length_drop; subst len;
        change (base.length l) with (List.length l); lia.
Qed.

Lemma pages_concat {A : Type} (l : list A) (k : Z) (count : nat) :
  1 <= k ->
  List.concat (pages l k count) = take (count * Z.to_nat k) l.
Proof.
  intros Hk. unfold pages.
  induction count as [|c IH]; [by rewrite take_0|].
  rewrite seq_S, map_app, concat_app, IH. simpl.
  rewrite current_items_take_drop by lia. rewrite app_nil_r.
  replace (Z.to_nat ((Z.of_nat (S c) - 1) * k)) with (c * Z.to_nat k)%nat by nia.
  rewrite take_take_drop. f_equal. lia.
Qed.

Lemma ceil_div_bounds (n k : Z) :
  0 <= n -> 1 <= k ->
  let c := - ((- n) / k) in
  0 <= c /\ n <= c * k /\ (c - 1) * k < n.
Proof.
  intros Hn Hk. simpl.
  pose proof (Z.div_mod (- n) k ltac:(lia)) as Hdm.
  pose proof (Z.mod_pos_bound (- n) k ltac:(lia)) as Hr.
  nia.
Qed.

(** The pages that [renderWikiTab] can show, for a page size of at least
    one and the page count it displays, are a partition of the filtered
    list: put one after the other they give the list back, and every page
    has at least one item and at most [itemsPerPage]. *)
Theorem pages_partition {A : Type} (l : list A) (itemsPerPage count : Z) :
  1 <= itemsPerPage ->
  Pager.total_pages (Z.of_nat (List.length l)) itemsPerPage = Pager.Finite count ->
  List.concat (pages l itemsPerPage (Z.to_nat count)) = l
  /\ Forall (fun page => page ≠ [] /\ Z.of_nat (List.length page) <= itemsPerPage)
            (pages l itemsPerPage (Z.to_nat count)).
Proof.
  intros Hk. unfold Pager.total_pages.
  rewrite (proj2 (Z.eqb_neq itemsPerPage 0)) by lia. intros [= <-].
  destruct (ceil_div_bounds (Z.of_nat (List.length l)) itemsPerPage) as (Hc & Hup & Hlow);
    [lia|lia|].
  set (c := - (- Z.of_nat (List.length l) / itemsPerPage)) in *.
  split.
  - rewrite pages_concat by done. apply take_ge.
    change (base.length l) with (List.length l). nia.
  - unfold pages. apply Forall_fmap, Forall_forall. intros i Hi.
    apply elem_of_seq in Hi. simpl.
    rewrite current_items_take_drop by lia.
    split.
    + intros Hnil. apply (f_equal List.length) in Hnil.
      change (@List.length A) with (@base.length A) in Hnil.
      rewrite length_take, length_drop in Hnil. simpl in Hnil.
      change (base.length l) with (List.length l) in Hnil. nia.
    + change (@List.length A) with (@base.length A).
      rewrite length_take. lia.
Qed.

Lemma pages_partition_witness :
  List.concat (pages [1; 2; 3; 4; 5] 2 3) = [1; 2; 3; 4; 5]
  /\ pages [1; 2; 3; 4; 5] 2 3 = [[1; 2]; [3; 4]; [5]]
  /\ Forall (fun page => page ≠ [] /\ Z.of_nat (List.length page) <= 2)
            (pages [1; 2; 3; 4; 5] 2 3).
Proof.
  destruct (pages_partition [1; 2; 3; 4; 5] 2 3 ltac:(lia) eq_refl) as [Hcat Hall].
  split; [exact Hcat|]. split; [reflexivity|exact Hall].
Defined.

(** Whenever [changePage] changes the pager, for a page size of at least
    one, the new page is the one asked for and shows at least one item of the
    filtered list. *)
Theorem changePage_shows_items {A : Type} (newPage : Z) (l : list A) (this : Pager.Pager) :
  1 <= Pager.itemsPerPage this ->
  Pager.changePage newPage (List.length l) this ≠ this ->
  Pager.currentPage (Pager.changePage newPage (List.length l) this) = newPage
  /\ Pager.itemsPerPage (Pager.changePage newPage (List.length l) this)
     = Pager.itemsPerPage this
  /\ Pager.current_items l (Pager.changePage newPage (List.length l) this) ≠ [].
Proof.
  intros Hk. unfold Pager.changePage, Pager.total_pages.
  rewrite (proj2 (Z.eqb_neq (Pager.itemsPerPage this) 0)) by lia. simpl.
  destruct (1 <=? newPage) eqn:H1; simpl; [|done].
  destruct (newPage <=? _) eqn:H2; [|done].
  intros _. simpl. split; [done|]. split; [done|].
  apply Z.leb_le in H1, H2.
  destruct (ceil_div_bounds (Z.of_nat (List.length l)) (Pager.itemsPerPage this))
    as (Hc & Hup & Hlow); [lia|lia|].
  rewrite current_items_take_drop by lia.
  intros Hnil. apply (f_equal List.length) in Hnil.
  change (@List.length A) with (@base.length A) in Hnil.
  rewrite length_take, length_drop in Hnil. simpl in Hnil.
  change (base.length l) with (List.length l) in Hnil. nia.
Qed.

Lemma changePage_shows_items_witness :
  let this := {| Pager.currentPage := 1; Pager.itemsPerPage := 2 |} in
  Pager.changePage 3 (List.length [1; 2; 3; 4; 5]) this ≠ this
  /\ Pager.changePage 4 (List.length [1; 2; 3; 4; 5]) this = this
  /\ Pager.current_items [1; 2; 3; 4; 5]
       (Pager.changePage 3 (List.length [1; 2; 3; 4; 5]) this) = [5]
  /\ Pager.current_items [1; 2; 3; 4; 5]
       (Pager.changePage 3 (List.length [1; 2; 3; 4; 5]) this) ≠ [].
Proof.
  intros this.
  assert (Hne : Pager.changePage 3 (List.length [1; 2; 3; 4; 5]) this ≠ this)
    by discriminate.
  split; [exact Hne|]. split; [reflexivity|]. split; [reflexivity|].
  apply (changePage_shows_items 3 [1; 2; 3; 4; 5] this); [simpl; lia|exact Hne].
Defined.

(** [changeItemsPerPage] keeps the page size between 1 and 100 whatever it
    is given; when it changes the pager it goes back to the first page. *)
Theorem changeItemsPerPage_keeps_bounds (newSize : value) (this : Pager.Pager) :
  1 <= Pager.itemsPerPage this <= 100 ->
  1 <= Pager.itemsPerPage (Pager.changeItemsPerPage newSize this) <= 100
  /\ (Pager.changeItemsPerPage newSize this = this
      \/ Pager.currentPage (Pager.changeItemsPerPage newSize this) = 1
         /\ parseInt newSize (Some 10)
            = Some (Pager.itemsPerPage (Pager.changeItemsPerPage newSize this))).
Proof.
  intros Hk. unfold Pager.changeItemsPerPage, Pager.validateItemsPerPage.
  destruct (parseInt newSize (Some 10)) as [num|]; [|by split; [|left]].
  destruct ((num <? 1) || (100 <? num)) eqn:Hout; [by split; [|left]|].
  apply orb_false_iff in Hout as [H1 H2].
  apply Z.ltb_ge in H1, H2. simpl. split; [lia|]. by right.
Qed.

Lemma changeItemsPerPage_keeps_bounds_witness :
  let this := {| Pager.currentPage := 3; Pager.itemsPerPage := 20 |} in
  1 <= Pager.itemsPerPage this <= 100
  /\ Pager.changeItemsPerPage (VStr "500") this = this
  /\ Pager.changeItemsPerPage (VStr "50") this
     = {| Pager.currentPage := 1; Pager.itemsPerPage := 50 |}
  /\ 1 <= Pager.itemsPerPage (Pager.changeItemsPerPage (VStr "abc") this) <= 100.
Proof.
  intros this.
  assert (Hk : 1 <= Pager.itemsPerPage this <= 100) by (simpl; lia).
  split; [exact Hk|]. split; [reflexivity|]. split; [reflexivity|].
  exact (proj1 (changeItemsPerPage_keeps_bounds (VStr "abc") this Hk)).
Defined.

(** ** Loading the catalog, and the tabs *)

(** [loadProjectFiles] tolerates the failure of some sources: on a fresh
    instance it throws exactly when no source could be fetched; otherwise
    the catalog holds the sources that could be fetched, in the order of the
    file list, and the console has one warning for each of the other
    sources. *)
Theorem loadProjectFiles_partial_failure (fetch : string -> result (list Item)) :
  match App.loadProjectFiles fetch with
  | inl message =>
      fetched fetch = [] /\ message = "No item files could be loaded"
  | inr (projects, console) =>
      projects = fetched fetch /\ projects ≠ []
      /\ (List.length projects + List.length console = List.length App.files)%nat
  end.
Proof.
  unfold App.loadProjectFiles, fetched, App.files, App.load_file. simpl.
  destruct (fetch "expedition_project.json"), (fetch "quest_items.json"),
    (fetch "scrappy_items.json"), (fetch "workshop_items.json"); simpl; done.
Qed.

(** The two tables of the tabs are inverse to each other:
    [getTabNameFromProject] gives a tab for a project exactly when
    [getProjectNameFromTab] gives that project for the tab; and every project
    of the file list has a tab. *)
Theorem tab_project_inverse (tabName projectName : string) :
  (App.getTabNameFromProject projectName = Some tabName
   <-> App.getProjectNameFromTab tabName = Some projectName)
  /\ Forall (fun fileInfo : string * string =>
               is_Some (App.getTabNameFromProject fileInfo.1)) App.files.
Proof.
  split.
  - unfold App.getTabNameFromProject, App.getProjectNameFromTab.
    split; intros H.
    + repeat (rewrite lookup_insert in H; case_decide; simplify_eq; [done|]).
      rewrite lookup_singleton in H. by case_decide; simplify_eq.
    + repeat (rewrite lookup_insert in H; case_decide; simplify_eq; [done|]).
      rewrite lookup_singleton in H. by case_decide; simplify_eq.
  - unfold App.files. repeat constructor; by eexists.
Qed.

(** ** The search box and the icon addresses *)

Lemma trimEnd_first (c : ascii) (s : string) :
  is_space c = false -> first_char (trimEnd (String c s)) = Some c.
Proof. intros Hc. simpl. rewrite Hc. by destruct (trimEnd s). Qed.

Lemma trimStart_first (s : string) (c : ascii) :
  first_char (trimStart s) = Some c ->
  is_space c = false /\ exists s', trimStart s = String c s'.
Proof.
  induction s as [|a s IH]; simpl; [done|].
  destruct (is_space a) eqn:Ha; [done|].
  simpl. intros [= <-]. eauto.
Qed.

Lemma trimEnd_empty (s : string) (c : ascii) :
  is_space c = false -> trimEnd (String c s) ≠ EmptyString.
Proof. intros Hc. simpl. rewrite Hc. by destruct (trimEnd s). Qed.

Lemma trim_first (s : string) (c : ascii) :
  first_char (trim s) = Some c -> is_space c = false.
Proof.
  unfold trim. destruct (first_char (trimStart s)) as [a|] eqn:Hfirst.
  - apply trimStart_first in Hfirst as (Ha & s' & ->).
    rewrite trimEnd_first by done. by intros [= <-].
  - destruct (trimStart s); done.
Qed.

Lemma trimEnd_last (s : string) (c : ascii) :
  last_char (trimEnd s) = Some c -> is_space c = false.
Proof.
  induction s as [|a s IH]; simpl; [done|].
  destruct (trimEnd s) as [|b t] eqn:Ht.
  - destruct (is_space a) eqn:Ha; simpl; [done|]. by intros [= <-].
  - by simpl.
Qed.

Lemma substring_length (n : nat) (s : string) :
  (String.length (String.substring 0 n s) <= n)%nat.
Proof.
  revert s. induction n as [|n IH]; intros [|c s]; simpl; try lia.
  specialize (IH s). lia.
Qed.

Lemma substring_first (n : nat) (s : string) (c : ascii) :
  first_char (String.substring 0 n s) = Some c -> first_char s = Some c.
Proof. destruct n, s; simpl; done. Qed.

(** [validateSearchTerm] gives, for every value, a string of at most 100
    characters that does not start with white space; a value that is not a
    string gives the empty string. *)
Theorem validateSearchTerm_bounded (v : value) :
  (String.length (Renderer.validateSearchTerm v) <= 100)%nat
  /\ (forall c, first_char (Renderer.validateSearchTerm v) = Some c -> is_space c = false)
  /\ (typeof v ≠ TString -> Renderer.validateSearchTerm v = "").
Proof.
  destruct v as [| |b|n|s|m]; simpl; try (split; [lia|by split]).
  split; [|split; [|done]].
  - destruct (100 <? String.length (trim s))%nat eqn:Hlong.
    + apply substring_length.
    + by apply Nat.ltb_ge in Hlong.
  - intros c. destruct (100 <? String.length (trim s))%nat.
    + intros Hc%substring_first. by apply trim_first in Hc.
    + apply trim_first.
Qed.

Lemma all_chars_trimStart (P : ascii -> bool) (s : string) :
  all_chars P s = true -> all_chars P (trimStart s) = true.
Proof.
  induction s as [|a s IH]; simpl; [done|].
  intros [Ha Hs]%andb_true_iff. destruct (is_space a); [by apply IH|].
  simpl. by rewrite Ha, Hs.
Qed.

Lemma all_chars_trimEnd (P : ascii -> bool) (s : string) :
  all_chars P s = true -> all_chars P (trimEnd s) = true.
Proof.
  induction s as [|a s IH]; simpl; [done|].
  intros [Ha Hs]%andb_true_iff. specialize (IH Hs).
  destruct (trimEnd s) as [|b t].
  - destruct (is_space a); simpl; [done|]. by rewrite Ha.
  - change (all_chars P (String a (String b t))) with (P a && all_chars P (String b t)).
    by rewrite Ha, IH.
Qed.

Lemma all_chars_remove_special (s : string) :
  all_chars (fun c => is_lower c || is_digit c || is_space c) (Renderer.remove_special s)
  = true.
Proof.
  induction s as [|a s IH]; simpl; [done|].
  destruct (is_lower a || is_digit a || is_space a) eqn:Ha; [|done].
  simpl. by rewrite Ha, IH.
Qed.

Lemma all_chars_first (P : ascii -> bool) (s : string) (c : ascii) :
  all_chars P s = true -> first_char s = Some c -> P c = true.
Proof.
  destruct s as [|a s]; simpl; [done|].
  intros [Ha _]%andb_true_iff [= <-]. done.
Qed.

Lemma all_chars_last (P : ascii -> bool) (s : string) (c : ascii) :
  all_chars P s = true -> last_char s = Some c -> P c = true.
Proof.
  induction s as [|a s IH]; [done|].
  change (all_chars P (String a s)) with (P a && all_chars P s).
  intros [Ha Hs]%andb_true_iff. destruct s as [|b t].
  - simpl. by intros [= <-].
  - change (last_char (String a (String b t))) with (last_char (String b t)).
    by apply IH.
Qed.

Lemma word_char_not_hyphen (c : ascii) :
  is_lower c || is_digit c || is_space c = true -> Ascii.eqb c "-" = false.
Proof.
  intros Hc. destruct (Ascii.eqb c "-") eqn:Heq; [|done].
  apply Ascii.eqb_eq in Heq as ->. by vm_compute in Hc.
Qed.

Lemma hyphenate_first (s : string) (c : ascii) :
  first_char s = Some c -> is_space c = false ->
  first_char (Renderer.hyphenate s) = Some c.
Proof.
  destruct s as [|a s]; simpl; [done|]. intros [= ->] Hc. by rewrite Hc.
Qed.

Lemma last_char_cons (a c : ascii) (s : string) :
  last_char s = Some c -> last_char (String a s) = Some c.
Proof. destruct s; simpl; done. Qed.

Lemma last_char_none (s : string) : last_char s = None -> s = EmptyString.
Proof.
  induction s as [|a s IH]; [done|]. destruct s as [|b t]; [done|].
  change (last_char (String a (String b t))) with (last_char (String b t)).
  intros H. by specialize (IH H).
Qed.

Lemma hyphenate_last (s : string) (c : ascii) :
  last_char s = Some c -> is_space c = false ->
  last_char (Renderer.hyphenate s) = Some c.
Proof.
  induction s as [|a s IH]; [done|]. intros Hlast Hc.
  destruct s as [|b t].
  - simpl in Hlast. injection Hlast as ->. simpl. by rewrite Hc.
  - change (last_char (String a (String b t))) with (last_char (String b t)) in Hlast.
    specialize (IH Hlast Hc).
    change (Renderer.hyphenate (String a (String b t)))
      with (if is_space a
            then if is_space b then Renderer.hyphenate (String b t)
                 else String "-" (Renderer.hyphenate (String b t))
            else String a (Renderer.hyphenate (String b t))).
    destruct (is_space a), (is_space b); try done; by apply last_char_cons.
Qed.

Lemma double_hyphen_cons (c : ascii) (s : string) :
  double_hyphen (String c s)
  = match first_char s with
    | Some c2 => Ascii.eqb c "-" && Ascii.eqb c2 "-"
    | None => false
    end || double_hyphen s.
Proof. destruct s; done. Qed.

Lemma hyphenate_chars (s : string) :
  all_chars (fun c => is_lower c || is_digit c || is_space c) s = true ->
  all_chars (fun c => is_lower c || is_digit c || Ascii.eqb c "-") (Renderer.hyphenate s)
  = true
  /\ double_hyphen (Renderer.hyphenate s) = false.
Proof.
  induction s as [|a s IH]; [done|].
  change (all_chars ?P (String a s)) with (P a && all_chars P s).
  intros [Ha Hs]%andb_true_iff. cbv beta in Ha.
  destruct (IH Hs) as [IH1 IH2]. clear IH.
  destruct s as [|b t].
  - simpl. destruct (is_space a) eqn:Hsp; simpl; [done|].
    rewrite orb_false_r in Ha. by rewrite Ha.
  - change (Renderer.hyphenate (String a (String b t)))
      with (if is_space a
            then if is_space b then Renderer.hyphenate (String b t)
                 else String "-" (Renderer.hyphenate (String b t))
            else String a (Renderer.hyphenate (String b t))).
    assert (Hb : is_lower b || is_digit b || is_space b = true).
    { simpl in Hs. by apply andb_true_iff in Hs as [? _]. }
    destruct (is_space a) eqn:Hsa; [destruct (is_space b) eqn:Hsb|]; [done| |].
    + split.
      * change (all_chars ?P (String ?c ?r)) with (P c && all_chars P r).
        by rewrite IH1.
      * rewrite double_hyphen_cons, IH2.
        rewrite (hyphenate_first (String b t) b) by done.
        rewrite (word_char_not_hyphen b) by (by rewrite Hsb).
        by rewrite andb_false_r.
    + split.
      * change (all_chars ?P (String ?c ?r)) with (P c && all_chars P r).
        rewrite IH1. rewrite orb_false_r in Ha. by rewrite Ha.
      * rewrite double_hyphen_cons, IH2.
        rewrite (word_char_not_hyphen a) by (by rewrite Hsa).
        by destruct (first_char _).
Qed.

(** The slug that [getMetaforgeIconUrl] puts into the address is made of
    lower-case letters, digits and hyphens only, for every item name; it has
    no two hyphens in a row and neither starts nor ends with a hyphen. *)
Theorem icon_slug_shape (itemName : string) :
  all_chars (fun c => is_lower c || is_digit c || Ascii.eqb c "-") (Renderer.slug itemName)
  = true
  /\ double_hyphen (Renderer.slug itemName) = false
  /\ first_char (Renderer.slug itemName) ≠ Some "-"%char
  /\ last_char (Renderer.slug itemName) ≠ Some "-"%char.
Proof.
  unfold Renderer.slug.
  set (r := trim (Renderer.remove_special (toLowerCase itemName))).
  assert (Hr : all_chars (fun c => is_lower c || is_digit c || is_space c) r = true).
  { apply all_chars_trimEnd, all_chars_trimStart, all_chars_remove_special. }
  destruct (hyphenate_chars r Hr) as [Hchars Hdouble].
  split; [done|]. split; [done|]. split.
  - destruct (first_char r) as [c|] eqn:Hfirst.
    + pose proof (trim_first _ _ Hfirst) as Hc.
      rewrite (hyphenate_first r c Hfirst Hc). intros [= ->].
      pose proof (all_chars_first _ _ _ Hr Hfirst) as Hw. by vm_compute in Hw.
    + by destruct r.
  - destruct (last_char r) as [c|] eqn:Hlast.
    + pose proof (trimEnd_last _ _ Hlast) as Hc.
      rewrite (hyphenate_last r c Hlast Hc). intros [= ->].
      pose proof (all_chars_last _ _ _ Hr Hlast) as Hw. by vm_compute in Hw.
    + by rewrite (last_char_none r Hlast).
Qed.

(** ** The wiki look-ups *)

Lemma lower_char_idemp (c : ascii) : lower_char (lower_char c) = lower_char c.
Proof. destruct c as [[] [] [] [] [] [] [] []]; reflexivity. Qed.

Lemma toLowerCase_idemp (s : string) : toLowerCase (toLowerCase s) = toLowerCase s.
Proof.
  unfold toLowerCase. induction s as [|c s IH]; simpl; [done|].
  by rewrite lower_char_idemp, IH.
Qed.

(** The wiki look-ups ignore the case of the name asked for: the lower-cased
    name finds the same entry and the same rarity; and a rarity that is not
    empty is the rarity of an entry of the list whose name is the name asked
    for up to case. *)
Theorem wiki_lookup_ignores_case (itemName : string) (wikiItems : list DataLoader.WikiItem) :
  DataLoader.getWikiItem (toLowerCase itemName) wikiItems
  = DataLoader.getWikiItem itemName wikiItems
  /\ DataLoader.getItemRarity (toLowerCase itemName) wikiItems
     = DataLoader.getItemRarity itemName wikiItems
  /\ (DataLoader.getItemRarity itemName wikiItems ≠ EmptyString ->
      exists item, item ∈ wikiItems
        /\ toLowerCase (DataLoader.w_name item) = toLowerCase itemName
        /\ DataLoader.w_rarity item = DataLoader.getItemRarity itemName wikiItems).
Proof.
  unfold DataLoader.getItemRarity, DataLoader.getWikiItem.
  rewrite toLowerCase_idemp. split; [done|]. split; [done|].
  destruct (List.find _ wikiItems) as [item|] eqn:Hfind; [|done].
  intros _. apply find_some in Hfind as [Hin Heq].
  exists item. split; [by apply list_elem_of_In|].
  split; [by apply bool_decide_eq_true in Heq|done].
Qed.

